(** * dbp2p: a shallow embedding of the document store, its persistence,
      replication and query engine, with the properties stated about them.

    Layout of the development:
    - Go values as stored in [Document.Data] and the [Document] record;
    - [TransactionLogger] and [PersistenceManager] over an explicit disk;
    - [Database] with its publish and callback traces;
    - [DBSync] (gossip) and [SyncManager] (sync responses);
    - [Index];
    - the query engine of [pkg/db/query.go];
    - sequences of operations, restart, and the data of the examples;
    - the query builders, the rest of [Index] and the [IndexManager],
      [QueryDocuments], [GetCollections], [SyncAllDocuments], the answers
      to sync requests, the backups and the [Cache];
    - the names and documents on which the model of the disk is exact;
    - the properties, in the same order.

    Conventions.  A Go [map[string]any] is a [gmap string value]; the
    top-level [Data] of a document is an [option] of one because writing
    into a nil map panics (reading from it behaves as reading the empty
    map).  Every caller in the repository hands the store a map built
    for that call, so documents are values and share no map.  [time.Time]
    is the instant in nanoseconds.  Every read of the clock, of the uuid
    generator and every answer of the operating system is an explicit
    argument ([Env], [IO]).  The JSON text of a file or of a log line is
    represented by the document it encodes, and the path of a document
    file by the pair of its collection and id: the properties about what
    is read back from the disk say for which names and documents (the
    plainly named, JSON-native ones) this is exact.  A method [T.m] is named
    [T_m].  Library functions that are not part of the repository
    ([fmt.Sprintf "%v"], [regexp.MatchString]) are section variables. *)

From Corelib Require Import PrimFloat.
From Stdlib Require Import Ascii.
Set Warnings "-register-all,-clear-no-such-hyp".
From stdpp Require Import gmap strings list fin_maps sorting pretty.

Open Scope string_scope.

(** ** Results of fallible and panicking code *)

Inductive error : Type :=
| ErrDocumentoNoEncontrado            (* errors.New("documento no encontrado") *)
| ErrPersistir (cause : error)        (* fmt.Errorf("error al persistir ...: %v", err) *)
| ErrArchivoNoEncontrado (id : string) (* fmt.Errorf("documento no encontrado: %s", id) *)
| ErrDisco                            (* MkdirAll / MarshalIndent / WriteFile / Remove failed *)
| ErrLoggerCerrado                    (* "logger de transacciones cerrado" *)
| ErrEscrituraLog                     (* write or fsync of the log failed *)
| ErrTransaccionDesconocida (t : string)
| ErrIndiceUnico (key : string)       (* "violación de índice único: %s" *)
| ErrIndiceSinCampos                  (* "no hay campos definidos para el índice" *)
| ErrCampo (field : string).          (* a field lookup failed *)

Inductive result (A : Type) : Type :=
| Ok (a : A)
| Err (e : error)
| Panic.
Arguments Ok {A} a.
Arguments Err {A} e.
Arguments Panic {A}.

Definition is_Ok {A} (r : result A) : bool :=
  match r with Ok _ => true | _ => false end.

(** ** Values and documents *)

#[warnings="-register-all"]
Inductive value : Type :=
| VNil
| VString (s : string)
| VInt (n : Z)           (* int *)
| VInt64 (n : Z)         (* int64 *)
| VFloat64 (f : float)   (* float64: every JSON number once decoded *)
| VBool (b : bool)
| VTime (t : Z)          (* time.Time *)
| VArray (l : list value)            (* []interface{} *)
| VMap (m : gmap string value).      (* map[string]interface{} *)

Record Document : Type := mkDocument {
  ID : string;
  Collection : string;
  Data : option (gmap string value);   (* None: the nil map *)
  CreatedAt : Z;
  UpdatedAt : Z
}.

(** Reading a (possibly nil) Go map. *)
Definition data_of (doc : Document) : gmap string value :=
  default ∅ (Data doc).

(** [maps.Copy(dst, src)]: [dst[k] = v] for every entry of [src].  The
    first assignment into a nil [dst] panics; with nothing to copy no
    assignment happens. *)
Definition maps_Copy (dst src : option (gmap string value))
  : result (option (gmap string value)) :=
  match dst with
  | Some d => Ok (Some (default ∅ src ∪ d))
  | None => if decide (default ∅ src = ∅) then Ok None else Panic
  end.

(** ** transaction_log.go *)

Definition Operation := string.
Definition OperationCreate : Operation := "create".
Definition OperationUpdate : Operation := "update".
Definition OperationDelete : Operation := "delete".

Definition TransactionCreate : string := "create".
Definition TransactionUpdate : string := "update".
Definition TransactionDelete : string := "delete".

Record Transaction : Type := mkTransaction {
  tx_ID : string;
  tx_Type : string;
  tx_Timestamp : Z;
  tx_DocID : string;
  tx_Document : option Document
}.

(** The log file is the list of the lines written so far. *)
Record TransactionLogger : Type := mkLogger {
  lines : list Transaction;
  closed : bool
}.

(** What the operating system answers during one persistence call:
    [file_ok] stands for the steps on the document file (MkdirAll,
    MarshalIndent, WriteFile, Remove), [log_ok] for the write and fsync of
    the log line, [clock] for [time.Now()] read by the logger. *)
Record IO : Type := mkIO {
  file_ok : bool;
  log_ok : bool;
  clock : Z
}.

Definition LogOperation (tl : TransactionLogger) (io : IO)
    (op : Operation) (docID : string) (doc : option Document)
  : TransactionLogger * result unit :=
  if closed tl then (tl, Err ErrLoggerCerrado)
  else
    let ty :=
      if decide (op = OperationCreate) then Some TransactionCreate
      else if decide (op = OperationUpdate) then Some TransactionUpdate
      else if decide (op = OperationDelete) then Some TransactionDelete
      else None in
    match ty with
    | None => (tl, Err (ErrTransaccionDesconocida op))
    | Some ty =>
        if log_ok io then
          let transaction :=
            {| tx_ID := pretty (clock io); tx_Type := ty;
               tx_Timestamp := clock io; tx_DocID := docID;
               tx_Document := doc |} in
          ({| lines := lines tl ++ [transaction]; closed := closed tl |}, Ok tt)
        else (tl, Err ErrEscrituraLog)
    end.

Definition ReadTransactions (tl : TransactionLogger) : list Transaction :=
  lines tl.

(** [ReplayTransactions], on the in-memory map of the database. *)
Fixpoint ReplayTransactions (documents : gmap string Document) (transactions : list Transaction)
  : result (gmap string Document) :=
  match transactions with
  | [] => Ok documents
  | transaction :: rest =>
      if decide (tx_Type transaction = TransactionCreate) then
        match tx_Document transaction with
        | Some d => ReplayTransactions (<[ID d := d]> documents) rest
        | None => ReplayTransactions documents rest
        end
      else if decide (tx_Type transaction = TransactionUpdate) then
        match tx_Document transaction with
        | Some d => ReplayTransactions (<[ID d := d]> documents) rest
        | None => ReplayTransactions documents rest
        end
      else if decide (tx_Type transaction = TransactionDelete) then
        ReplayTransactions (delete (tx_DocID transaction) documents) rest
      else Err (ErrTransaccionDesconocida (tx_Type transaction))
  end.

(** ** persistence.go *)

(** [files] is the tree under [collections/]: the file
    [collections/<collection>/<id>.json] is the entry at
    [(collection, id)], and its JSON text is the document it decodes to.
    A step on a document file that fails ([file_ok] false) is taken to
    fail before the file is touched. *)
Record PersistenceManager : Type := mkPersistence {
  files : gmap (string * string) Document;
  transactionLog : TransactionLogger
}.

Definition PersistenceManager_SaveDocument (pm : PersistenceManager) (io : IO)
    (doc : Document) : PersistenceManager * result unit :=
  if file_ok io then
    let files' := <[(Collection doc, ID doc) := doc]> (files pm) in
    (* the error of LogOperation is dropped *)
    let tl := (LogOperation (transactionLog pm) io OperationCreate (ID doc) (Some doc)).1 in
    ({| files := files'; transactionLog := tl |}, Ok tt)
  else (pm, Err ErrDisco).

Definition PersistenceManager_UpdateDocument (pm : PersistenceManager) (io : IO)
    (doc : Document) : PersistenceManager * result unit :=
  match files pm !! (Collection doc, ID doc) with
  | None => (pm, Err (ErrArchivoNoEncontrado (ID doc)))
  | Some _ =>
      if file_ok io then
        let files' := <[(Collection doc, ID doc) := doc]> (files pm) in
        let tl := (LogOperation (transactionLog pm) io OperationUpdate (ID doc) (Some doc)).1 in
        ({| files := files'; transactionLog := tl |}, Ok tt)
      else (pm, Err ErrDisco)
  end.

Definition PersistenceManager_DeleteDocument (pm : PersistenceManager) (io : IO)
    (collection id : string) : PersistenceManager * result unit :=
  match files pm !! (collection, id) with
  | None => (pm, Err (ErrArchivoNoEncontrado id))
  | Some _ =>
      if file_ok io then
        let files' := delete (collection, id) (files pm) in
        let tl := (LogOperation (transactionLog pm) io OperationDelete id None).1 in
        ({| files := files'; transactionLog := tl |}, Ok tt)
      else (pm, Err ErrDisco)
  end.

(** [os.ReadDir] lists a directory sorted by file name: collections by
    name, then the files [<id>.json] of each by name. *)
Definition string_leb (a b : string) : bool :=
  match String.compare a b with Gt => false | _ => true end.

Definition dir_leb (x y : (string * string) * Document) : bool :=
  match String.compare x.1.1 y.1.1 with
  | Lt => true
  | Gt => false
  | Eq => string_leb (x.1.2 ++ ".json") (y.1.2 ++ ".json")
  end.

Definition dir_order (fs : gmap (string * string) Document)
  : list ((string * string) * Document) :=
  merge_sort (λ x y, Is_true (dir_leb x y)) (map_to_list fs).

Fixpoint has_separator (s : string) : bool :=
  match s with
  | EmptyString => false
  | String c rest => Ascii.eqb c "/" || has_separator rest
  end.

(** A name [filepath.Join] takes as one directory below its parent. *)
Definition path_component (s : string) : bool :=
  negb (has_separator s) && negb (bool_decide (s = ""))
  && negb (bool_decide (s = ".")) && negb (bool_decide (s = "..")).

(** An id whose file [<id>.json] lies in the directory of its collection. *)
Definition file_stem (id : string) : bool := negb (has_separator id).

(** [LoadAllDocuments] walks the directories directly under
    [collections/] and reads the [.json] files directly in each: the
    entries whose collection is one path component and whose id holds no
    separator.  It skips what lies elsewhere (directly under
    [collections/], or deeper).  The files it reads are taken to be
    readable and to decode: a file that does not makes it fail. *)
Definition loadable (key : string * string) : bool :=
  path_component key.1 && file_stem key.2.

Definition PersistenceManager_LoadAllDocuments (pm : PersistenceManager)
  : gmap string Document :=
  foldl (λ documents entry, <[ID entry.2 := entry.2]> documents) ∅
        (filter (λ entry, Is_true (loadable entry.1)) (dir_order (files pm))).

(** ** database.go *)

(** A registered callback is opaque code; the model keeps its identity
    and records each invocation [triggerEvent] starts. *)
Definition EventCallback := nat.

Record Event : Type := mkEvent {
  eventType : string;
  ev_collection : string;
  documentID : string;
  ev_document : Document
}.

(** sync.go: the message put on the [db-sync] topic. *)
Record DBMessage : Type := mkDBMessage {
  msg_Operation : Operation;
  msg_Document : option Document;
  msg_DocumentID : string
}.

Record DBSync : Type := mkDBSync {
  nodeID : string;
  enabled : bool
}.

Record Database : Type := mkDatabase {
  documents : gmap string Document;
  persistence : PersistenceManager;
  persistenceEnabled : bool;
  eventCallbacks : list EventCallback;
  sync : option DBSync;
  syncEnabled : bool;
  (* observable effects, oldest first *)
  published : list DBMessage;                (* accepted by topic.Publish *)
  invoked : list (EventCallback * Event)     (* goroutines started by triggerEvent *)
}.

(** What one store operation reads from its environment. *)
Record Env : Type := mkEnv {
  uuid_New : string;
  time_Now : Z;
  disk : IO;
  publish_ok : bool
}.

Definition set_documents (db : Database) (m : gmap string Document) : Database :=
  {| documents := m; persistence := persistence db;
     persistenceEnabled := persistenceEnabled db;
     eventCallbacks := eventCallbacks db; sync := sync db;
     syncEnabled := syncEnabled db; published := published db;
     invoked := invoked db |}.

Definition set_persistence (db : Database) (pm : PersistenceManager) : Database :=
  {| documents := documents db; persistence := pm;
     persistenceEnabled := persistenceEnabled db;
     eventCallbacks := eventCallbacks db; sync := sync db;
     syncEnabled := syncEnabled db; published := published db;
     invoked := invoked db |}.

Definition NewDatabase : Database :=
  {| documents := ∅;
     persistence := {| files := ∅; transactionLog := {| lines := []; closed := false |} |};
     persistenceEnabled := false; eventCallbacks := []; sync := None;
     syncEnabled := false; published := []; invoked := [] |}.

(** [NewDatabaseWithPersistence] on the directory whose content is [pm]:
    load every document file, then replay the whole log. *)
Definition NewDatabaseWithPersistence (pm : PersistenceManager) : result Database :=
  let loaded := PersistenceManager_LoadAllDocuments pm in
  match ReplayTransactions loaded (ReadTransactions (transactionLog pm)) with
  | Ok docs =>
      Ok {| documents := docs; persistence := pm; persistenceEnabled := true;
            eventCallbacks := []; sync := None; syncEnabled := false;
            published := []; invoked := [] |}
  | Err e => Err e
  | Panic => Panic
  end.

Definition RegisterEventCallback (db : Database) (callback : EventCallback) : Database :=
  {| documents := documents db; persistence := persistence db;
     persistenceEnabled := persistenceEnabled db;
     eventCallbacks := eventCallbacks db ++ [callback]; sync := sync db;
     syncEnabled := syncEnabled db; published := published db;
     invoked := invoked db |}.

Definition triggerEvent (db : Database) (e : Event) : Database :=
  {| documents := documents db; persistence := persistence db;
     persistenceEnabled := persistenceEnabled db;
     eventCallbacks := eventCallbacks db; sync := sync db;
     syncEnabled := syncEnabled db; published := published db;
     invoked := invoked db ++ map (λ callback, (callback, e)) (eventCallbacks db) |}.

(** [DBSync.publishMessage]: a failed publish is logged by the caller and
    leaves no message on the topic. *)
Definition publishMessage (db : Database) (env : Env) (msg : DBMessage) : Database :=
  if publish_ok env then
    {| documents := documents db; persistence := persistence db;
       persistenceEnabled := persistenceEnabled db;
       eventCallbacks := eventCallbacks db; sync := sync db;
       syncEnabled := syncEnabled db; published := published db ++ [msg];
       invoked := invoked db |}
  else db.

Definition sync_active (db : Database) : bool :=
  syncEnabled db && bool_decide (is_Some (sync db)).

Definition Database_CreateDocument (db : Database) (env : Env)
    (collection : string) (data : option (gmap string value))
  : Database * result Document :=
  let id := uuid_New env in
  let now := time_Now env in
  let doc := {| ID := id; Collection := collection; Data := data;
                CreatedAt := now; UpdatedAt := now |} in
  let db := set_documents db (<[id := doc]> (documents db)) in
  let '(db, saved) :=
    if persistenceEnabled db then
      let '(pm, r) := PersistenceManager_SaveDocument (persistence db) (disk env) doc in
      (set_persistence db pm, r)
    else (db, Ok tt) in
  match saved with
  | Ok _ =>
      let db := if sync_active db
                then publishMessage db env
                       {| msg_Operation := OperationCreate; msg_Document := Some doc;
                          msg_DocumentID := "" |}
                else db in
      let db := triggerEvent db
                  {| eventType := "create"; ev_collection := collection;
                     documentID := id; ev_document := doc |} in
      (db, Ok doc)
  | Err e => (db, Err (ErrPersistir e))
  | Panic => (db, Panic)
  end.

Definition Database_GetDocument (db : Database) (id : string) : result Document :=
  match documents db !! id with
  | Some doc => Ok doc
  | None => Err ErrDocumentoNoEncontrado
  end.

Definition Database_UpdateDocument (db : Database) (env : Env)
    (id : string) (data : option (gmap string value))
  : Database * result Document :=
  match documents db !! id with
  | None => (db, Err ErrDocumentoNoEncontrado)
  | Some doc =>
      match maps_Copy (Data doc) data with
      | Panic => (db, Panic)
      | Err e => (db, Err e)
      | Ok merged =>
          let doc := {| ID := ID doc; Collection := Collection doc; Data := merged;
                        CreatedAt := CreatedAt doc; UpdatedAt := time_Now env |} in
          let db := set_documents db (<[id := doc]> (documents db)) in
          let '(db, saved) :=
            if persistenceEnabled db then
              let '(pm, r) := PersistenceManager_UpdateDocument (persistence db) (disk env) doc in
              (set_persistence db pm, r)
            else (db, Ok tt) in
          match saved with
          | Ok _ =>
              let db := if sync_active db
                        then publishMessage db env
                               {| msg_Operation := OperationUpdate; msg_Document := Some doc;
                                  msg_DocumentID := "" |}
                        else db in
              let db := triggerEvent db
                          {| eventType := "update"; ev_collection := Collection doc;
                             documentID := id; ev_document := doc |} in
              (db, Ok doc)
          | Err e => (db, Err (ErrPersistir e))
          | Panic => (db, Panic)
          end
      end
  end.

Definition Database_DeleteDocument (db : Database) (env : Env) (id : string)
  : Database * result unit :=
  match documents db !! id with
  | None => (db, Err ErrDocumentoNoEncontrado)
  | Some doc =>
      let docCopy := doc in
      let collection := Collection doc in
      let db := set_documents db (delete id (documents db)) in
      let '(db, saved) :=
        if persistenceEnabled db then
          let '(pm, r) := PersistenceManager_DeleteDocument (persistence db) (disk env) collection id in
          (set_persistence db pm, r)
        else (db, Ok tt) in
      match saved with
      | Ok _ =>
          let db := if sync_active db
                    then publishMessage db env
                           {| msg_Operation := OperationDelete; msg_Document := None;
                              msg_DocumentID := id |}
                    else db in
          let db := triggerEvent db
                      {| eventType := "delete"; ev_collection := collection;
                         documentID := id; ev_document := docCopy |} in
          (db, Ok tt)
      | Err e => (db, Err (ErrPersistir e))
      | Panic => (db, Panic)
      end
  end.

(** Go ranges over a map in an unspecified order; the model lists the map
    in the order of [map_to_list]. *)
Definition Database_GetAllDocuments (db : Database) (collection : string)
  : list Document :=
  filter (λ doc, Collection doc = collection) (map_to_list (documents db)).*2.

(** ** sync.go: the body of the loop of [DBSync.listenForUpdates] for one
    message received from peer [from]; [payload] is [None] when the
    message does not decode. *)
Definition DBSync_listenForUpdates (s : DBSync) (db : Database) (io : IO)
    (from : string) (payload : option DBMessage) : Database :=
  if decide (from = nodeID s) then db
  else match payload with
  | None => db
  | Some dbMsg =>
      if decide (msg_Operation dbMsg = OperationCreate) then
        match msg_Document dbMsg with
        | Some d =>
            let db := set_documents db (<[ID d := d]> (documents db)) in
            if persistenceEnabled db
            then set_persistence db (PersistenceManager_SaveDocument (persistence db) io d).1
            else db
        | None => db
        end
      else if decide (msg_Operation dbMsg = OperationUpdate) then
        match msg_Document dbMsg with
        | Some d =>
            let db := set_documents db (<[ID d := d]> (documents db)) in
            if persistenceEnabled db
            then set_persistence db (PersistenceManager_UpdateDocument (persistence db) io d).1
            else db
        | None => db
        end
      else if decide (msg_Operation dbMsg = OperationDelete) then
        if decide (msg_DocumentID dbMsg = "") then db
        else
          let collection :=
            match documents db !! msg_DocumentID dbMsg with
            | Some doc => Collection doc
            | None => ""
            end in
          let db := set_documents db (delete (msg_DocumentID dbMsg) (documents db)) in
          if persistenceEnabled db && negb (bool_decide (collection = ""))
          then set_persistence db
                 (PersistenceManager_DeleteDocument (persistence db) io collection
                    (msg_DocumentID dbMsg)).1
          else db
      else db
  end.

(** ** sync_manager.go *)

Record SyncStats : Type := mkSyncStats {
  DocumentsReceived : Z;
  BytesReceived : Z;
  ConflictsDetected : Z;
  ConflictsResolved : Z
}.

Record SyncManager : Type := mkSyncManager {
  hostID : string;            (* sm.node.Host.ID().String() *)
  database : Database;
  syncStats : SyncStats
}.

Record SyncResponse : Type := mkSyncResponse {
  resp_NodeID : string;
  resp_Success : bool;
  resp_Documents : list Document;
  resp_DocumentsCount : Z
}.

(** The body of [for _, doc := range response.Documents]. *)
Definition handleSyncDocument (sm : SyncManager) (env : Env) (doc : Document)
  : result SyncManager :=
  match Database_GetDocument (database sm) (ID doc) with
  | Ok existingDoc =>
      if (UpdatedAt existingDoc <? UpdatedAt doc)%Z then
        match Database_UpdateDocument (database sm) env (ID doc) (Data doc) with
        | (_, Panic) => Panic
        | (db, _) => Ok {| hostID := hostID sm; database := db; syncStats := syncStats sm |}
        end
      else
        let st := syncStats sm in
        Ok {| hostID := hostID sm; database := database sm;
              syncStats := {| DocumentsReceived := DocumentsReceived st;
                              BytesReceived := BytesReceived st;
                              ConflictsDetected := ConflictsDetected st + 1;
                              ConflictsResolved := ConflictsResolved st + 1 |} |}
  | _ =>
      match Database_CreateDocument (database sm) env (Collection doc) (Data doc) with
      | (_, Panic) => Panic
      | (db, _) => Ok {| hostID := hostID sm; database := db; syncStats := syncStats sm |}
      end
  end.



(** ** Strings (package strings) *)

Definition strings_Compare (a b : string) : Z :=
  match String.compare a b with
  | Lt => (-1)%Z
  | Eq => 0%Z
  | Gt => 1%Z
  end.

(** [strings.Split(s, sep)] for a one-character separator. *)
Fixpoint strings_Split (sep : Ascii.ascii) (s : string) : list string :=
  match s with
  | EmptyString => [EmptyString]
  | String c rest =>
      if Ascii.eqb c sep then EmptyString :: strings_Split sep rest
      else match strings_Split sep rest with
           | part :: parts => String c part :: parts
           | [] => [String c EmptyString]
           end
  end.

Definition strings_HasPrefix (s prefix : string) : bool := String.prefix prefix s.

Fixpoint strings_Contains (s substr : string) : bool :=
  String.prefix substr s ||
  match s with
  | EmptyString => false
  | String _ rest => strings_Contains rest substr
  end.

Definition strings_HasSuffix (s suffix : string) : bool :=
  let n := String.length s in
  let m := String.length suffix in
  (m <=? n)%nat && String.eqb (String.substring (n - m)%nat m s) suffix.

Fixpoint strings_Join (elems : list string) (sep : string) : string :=
  match elems with
  | [] => ""
  | [e] => e
  | e :: rest => e ++ sep ++ strings_Join rest sep
  end.

(** ** index.go *)

Definition IndexTypeUnique : string := "unique".
Definition IndexTypeNonUnique : string := "non-unique".
Definition IndexTypeText : string := "text".

Record Index : Type := mkIndex {
  idx_Name : string;
  idx_Collection : string;
  idx_Fields : list string;
  idx_Type : string;
  idx_Unique : bool;
  idx_UpdatedAt : Z;
  idx_Data : gmap string (list string)    (* value -> ids of documents *)
}.

Definition NewIndex (now : Z) (name collection : string) (fields : list string)
    (indexType : string) : Index :=
  {| idx_Name := name; idx_Collection := collection; idx_Fields := fields;
     idx_Type := indexType; idx_Unique := bool_decide (indexType = IndexTypeUnique);
     idx_UpdatedAt := now; idx_Data := ∅ |}.

(** [getFieldValue]: the recursion on [strings.SplitN(field, ".", 2)] is
    written over the parts of the path.  No value of the model is a Go
    struct, so the reflection branch always ends in its error. *)
Fixpoint getFieldValue_parts (field : string) (data : value) (parts : list string)
  : result value :=
  match parts with
  | [] => Err (ErrCampo field)
  | [last] =>
      match data with
      | VMap m => match m !! last with
                  | Some v => Ok v
                  | None => Err (ErrCampo last)
                  end
      | _ => Err (ErrCampo last)
      end
  | current :: rest =>
      match data with
      | VMap m => match m !! current with
                  | Some v => getFieldValue_parts field v rest
                  | None => Err (ErrCampo current)
                  end
      | _ => Err (ErrCampo field)
      end
  end.

Definition getFieldValue (data : value) (field : string) : result value :=
  getFieldValue_parts field data (strings_Split "."%char field).

Section IndexOps.
(** [fmt.Sprintf("%v", v)] *)
Variable Sprintf_v : value → string.

Fixpoint index_values (doc : Document) (fields : list string) : result (list string) :=
  match fields with
  | [] => Ok []
  | field :: rest =>
      if decide (field = "_id") then
        match index_values doc rest with
        | Ok vs => Ok (ID doc :: vs)
        | r => r
        end
      else
        match getFieldValue (VMap (data_of doc)) field with
        | Ok v => match index_values doc rest with
                  | Ok vs => Ok (Sprintf_v v :: vs)
                  | r => r
                  end
        | Err e => Err e
        | Panic => Panic
        end
  end.

Definition getIndexValue (idx : Index) (doc : Document) : result string :=
  match idx_Fields idx with
  | [] => Err ErrIndiceSinCampos
  | [field] =>
      if decide (field = "_id") then Ok (ID doc)
      else match getFieldValue (VMap (data_of doc)) field with
           | Ok v => Ok (Sprintf_v v)
           | Err e => Err e
           | Panic => Panic
           end
  | fields =>
      match index_values doc fields with
      | Ok values => Ok (strings_Join values "|")
      | Err e => Err e
      | Panic => Panic
      end
  end.

Definition set_idx_Data (idx : Index) (now : Z) (data : gmap string (list string)) : Index :=
  {| idx_Name := idx_Name idx; idx_Collection := idx_Collection idx;
     idx_Fields := idx_Fields idx; idx_Type := idx_Type idx;
     idx_Unique := idx_Unique idx; idx_UpdatedAt := now; idx_Data := data |}.

(** [Index.AddDocument]; [now] is the clock read when the id is appended. *)
Definition Index_AddDocument (idx : Index) (now : Z) (doc : Document)
  : Index * result unit :=
  match getIndexValue idx doc with
  | Err e => (idx, Err e)
  | Panic => (idx, Panic)
  | Ok key =>
      let ids : list string := default [] (idx_Data idx !! key) in
      if idx_Unique idx && (0 <? List.length ids)%nat then (idx, Err (ErrIndiceUnico key))
      else if bool_decide (ID doc ∈ ids) then
        (set_idx_Data idx (idx_UpdatedAt idx) (<[key := ids]> (idx_Data idx)), Ok tt)
      else
        (set_idx_Data idx now (<[key := (ids ++ [ID doc])%list]> (idx_Data idx)), Ok tt)
  end.

Definition Index_Search (idx : Index) (key : string) : list string :=
  match idx_Data idx !! key with
  | Some ids => ids
  | None =>
      if decide (idx_Type idx = IndexTypeText) then
        concat (map (λ entry : string * list string,
                       if strings_Contains entry.1 key then entry.2 else [])
                    (map_to_list (idx_Data idx)))
      else []
  end.
End IndexOps.

(** ** query.go *)

Definition OperatorEQ : string := "eq".
Definition OperatorNE : string := "ne".
Definition OperatorGT : string := "gt".
Definition OperatorGTE : string := "gte".
Definition OperatorLT : string := "lt".
Definition OperatorLTE : string := "lte".
Definition OperatorIN : string := "in".
Definition OperatorNIN : string := "nin".
Definition OperatorREGEX : string := "regex".
Definition OperatorEXISTS : string := "exists".
Definition OperatorTYPE : string := "type".
Definition OperatorCONTAINS : string := "contains".
Definition OperatorSTARTSWITH : string := "startswith".
Definition OperatorENDSWITH : string := "endswith".

Definition LogicalAND : string := "and".
Definition LogicalOR : string := "or".
Definition LogicalNOT : string := "not".

Definition SortAscending : string := "asc".
Definition SortDescending : string := "desc".

Record QueryCondition : Type := mkQueryCondition {
  Field : string;
  Operator : string;
  Value : value
}.

(** A condition is an [interface{}]: a [QueryCondition], a
    [LogicalCondition], a [map[string]interface{}] (seen through the four
    keys [matchesCondition] reads: "field", "operator", "value" and, when
    it holds a [[]interface{}], "conditions"), or anything else,
    including nil. *)
Inductive condition : Type :=
| CondQuery (c : QueryCondition)
| CondLogical (operator : string) (conditions : list condition)
| CondMap (field operator : option value) (val : value)
          (conditions : option (list condition))
| CondOther.

Record SortOption : Type := mkSortOption {
  so_Field : string;
  so_Direction : string
}.

Record QueryOptions : Type := mkQueryOptions {
  Skip : Z;
  Limit : Z;
  Sort : list SortOption
}.

Record Query : Type := mkQuery {
  q_Collection : string;
  q_Condition : condition;
  Options : QueryOptions
}.

Definition NewQuery (collection : string) : Query :=
  {| q_Collection := collection; q_Condition := CondOther;
     Options := {| Skip := 0; Limit := 100; Sort := [] |} |}.

(** [getNestedFieldValue]: [inl] is the returned error ([false]: "campo
    no encontrado", [true]: "campo no es un objeto"). *)
Fixpoint nested_loop (current : gmap string value) (parts : list string) : bool + value :=
  match parts with
  | [] => inl false
  | [part] =>
      match current !! part with
      | Some v => inr v
      | None => inl false
      end
  | part :: rest =>
      match current !! part with
      | None => inl false
      | Some (VMap nextMap) => nested_loop nextMap rest
      | Some _ => inl true
      end
  end.

Definition getNestedFieldValue (data : gmap string value) (field : string) : bool + value :=
  let parts := strings_Split "."%char field in
  if decide (List.length parts = 1) then
    match data !! field with
    | Some v => inr v
    | None => inl false
    end
  else nested_loop data parts.

(** [reflect.TypeOf] on the values of the model. *)
Inductive gotype : Type :=
| TNil | TString | TInt | TInt64 | TFloat64 | TBool | TTime | TSlice | TMap.

Global Instance gotype_eq_dec : EqDecision gotype.
Proof. solve_decision. Defined.

Definition reflect_TypeOf (v : value) : gotype :=
  match v with
  | VNil => TNil
  | VString _ => TString
  | VInt _ => TInt
  | VInt64 _ => TInt64
  | VFloat64 _ => TFloat64
  | VBool _ => TBool
  | VTime _ => TTime
  | VArray _ => TSlice
  | VMap _ => TMap
  end.

Definition getTypeName (v : value) : string :=
  match v with
  | VNil => "null"
  | VString _ => "string"
  | VInt _ | VInt64 _ => "integer"
  | VFloat64 _ => "float"
  | VBool _ => "boolean"
  | VArray _ => "array"
  | VMap _ => "object"
  | VTime _ => "date"
  end.

Definition three_way (lt gt : bool) : Z :=
  if lt then (-1)%Z else if gt then 1%Z else 0%Z.

Section QueryEngine.
(** [fmt.Sprintf("%v", v)] and [regexp.MatchString(pattern, s)]
    ([None]: the pattern does not compile). *)
Variable Sprintf_v : value → string.
Variable regexp_MatchString : string → string → option bool.

Definition compareValues (a b : value) : Z :=
  if decide (reflect_TypeOf a ≠ reflect_TypeOf b) then
    strings_Compare (Sprintf_v a) (Sprintf_v b)
  else
    match a, b with
    | VString x, VString y => strings_Compare x y
    | VInt x, VInt y => three_way (x <? y)%Z (y <? x)%Z
    | VInt64 x, VInt64 y => three_way (x <? y)%Z (y <? x)%Z
    | VFloat64 x, VFloat64 y => three_way (PrimFloat.ltb x y) (PrimFloat.ltb y x)
    | VBool x, VBool y => three_way (negb x && y) (x && negb y)
    | VTime x, VTime y => three_way (x <? y)%Z (y <? x)%Z
    | _, _ => strings_Compare (Sprintf_v a) (Sprintf_v b)
    end.

(** The [switch condition.Operator] reached once the field resolved and
    the operator is not [exists]. *)
Definition matchesOperator (fieldValue : value) (condition : QueryCondition) : bool :=
  let op := Operator condition in
  let v := Value condition in
  if decide (op = OperatorEQ) then bool_decide (compareValues fieldValue v = 0%Z)
  else if decide (op = OperatorNE) then bool_decide (compareValues fieldValue v ≠ 0%Z)
  else if decide (op = OperatorGT) then bool_decide (0 < compareValues fieldValue v)%Z
  else if decide (op = OperatorGTE) then bool_decide (0 ≤ compareValues fieldValue v)%Z
  else if decide (op = OperatorLT) then bool_decide (compareValues fieldValue v < 0)%Z
  else if decide (op = OperatorLTE) then bool_decide (compareValues fieldValue v ≤ 0)%Z
  else if decide (op = OperatorIN) then
    match v with
    | VArray values =>
        existsb (λ x, bool_decide (compareValues fieldValue x = 0%Z)) values
    | _ => false
    end
  else if decide (op = OperatorNIN) then
    match v with
    | VArray values =>
        negb (existsb (λ x, bool_decide (compareValues fieldValue x = 0%Z)) values)
    | _ => true
    end
  else if decide (op = OperatorREGEX) then
    match fieldValue, v with
    | VString strValue, VString pattern =>
        match regexp_MatchString pattern strValue with
        | Some matched => matched
        | None => false
        end
    | _, _ => false
    end
  else if decide (op = OperatorTYPE) then
    match v with
    | VString typeName => bool_decide (getTypeName fieldValue = typeName)
    | _ => false
    end
  else if decide (op = OperatorCONTAINS) then
    match fieldValue, v with
    | VString strValue, VString subStr => strings_Contains strValue subStr
    | _, _ => false
    end
  else if decide (op = OperatorSTARTSWITH) then
    match fieldValue, v with
    | VString strValue, VString prefix => strings_HasPrefix strValue prefix
    | _, _ => false
    end
  else if decide (op = OperatorENDSWITH) then
    match fieldValue, v with
    | VString strValue, VString suffix => strings_HasSuffix strValue suffix
    | _, _ => false
    end
  else false.

(** [condition.Value.(bool) == want]: the assertion panics on a value
    that is not a bool. *)
Definition assert_bool_eq (v : value) (want : bool) : result bool :=
  match v with
  | VBool b => Ok (Bool.eqb b want)
  | _ => Panic
  end.

Definition matchesQueryCondition (data : gmap string value) (condition : QueryCondition)
  : result bool :=
  match getNestedFieldValue data (Field condition) with
  | inl _ =>
      if decide (Operator condition = OperatorEXISTS)
      then assert_bool_eq (Value condition) false
      else Ok false
  | inr fieldValue =>
      if decide (Operator condition = OperatorEXISTS)
      then assert_bool_eq (Value condition) true
      else Ok (matchesOperator fieldValue condition)
  end.

(** The three loops of [matchesLogicalCondition] over the results of
    the sub-conditions, left to right. *)
Fixpoint all_match (rs : list (result bool)) : result bool :=
  match rs with
  | [] => Ok true
  | Ok true :: rest => all_match rest
  | Ok false :: _ => Ok false
  | Err e :: _ => Err e
  | Panic :: _ => Panic
  end.

Fixpoint any_match (rs : list (result bool)) : result bool :=
  match rs with
  | [] => Ok false
  | Ok false :: rest => any_match rest
  | Ok true :: _ => Ok true
  | Err e :: _ => Err e
  | Panic :: _ => Panic
  end.

Definition not_match (rs : list (result bool)) : result bool :=
  match rs with
  | [] => Ok false
  | Ok b :: _ => Ok (negb b)
  | Err e :: _ => Err e
  | Panic :: _ => Panic
  end.

Definition logical (operator : string) (rs : list (result bool)) : result bool :=
  if decide (operator = LogicalAND) then all_match rs
  else if decide (operator = LogicalOR) then any_match rs
  else if decide (operator = LogicalNOT) then not_match rs
  else Ok false.

Fixpoint matchesCondition (data : gmap string value) (c : condition) : result bool :=
  match c with
  | CondQuery cond => matchesQueryCondition data cond
  | CondLogical operator conditions =>
      logical operator (map (matchesCondition data) conditions)
  | CondMap (Some (VString field)) (Some (VString operator)) val _ =>
      matchesQueryCondition data
        {| Field := field; Operator := operator; Value := val |}
  | CondMap _ (Some (VString operator)) _ (Some conditions) =>
      logical operator (map (matchesCondition data) conditions)
  | CondMap _ _ _ _ => Ok false
  | CondOther => Ok false
  end.

(** The comparison and exchange made for one pair [(i, j)] of
    [sortDocuments]. *)
Definition exchange (field direction : string) (docI docJ : Document) : bool :=
  match getNestedFieldValue (data_of docI) field,
        getNestedFieldValue (data_of docJ) field with
  | inl _, inr _ => true
  | inr _, inl _ => false
  | inl _, inl _ => false
  | inr valueI, inr valueJ =>
      let cmp := compareValues valueI valueJ in
      (bool_decide (direction = SortAscending) && bool_decide (0 < cmp)%Z)
      || (bool_decide (direction = SortDescending) && bool_decide (cmp < 0)%Z)
  end.

Definition sort_step (field direction : string) (i j : nat) (docs : list Document)
  : list Document :=
  match docs !! i, docs !! j with
  | Some docI, Some docJ =>
      if exchange field direction docI docJ
      then <[i := docJ]> (<[j := docI]> docs)
      else docs
  | _, _ => docs
  end.

(** [for j := ...; j < len(docs); j++], with [n] iterations left. *)
Fixpoint sort_inner (field direction : string) (i j n : nat) (docs : list Document)
  : list Document :=
  match n with
  | O => docs
  | S n' => sort_inner field direction i (S j) n' (sort_step field direction i j docs)
  end.

(** [for i := ...; i < len(docs)-1; i++], with [n] iterations left. *)
Fixpoint sort_outer (field direction : string) (i n : nat) (docs : list Document)
  : list Document :=
  match n with
  | O => docs
  | S n' =>
      sort_outer field direction (S i) n'
        (sort_inner field direction i (S i) (List.length docs - S i) docs)
  end.

Definition sortDocuments (q : Query) (docs : list Document) : list Document :=
  match Sort (Options q) with
  | [] => docs
  | sortOption :: _ =>
      sort_outer (so_Field sortOption) (so_Direction sortOption) 0
        (List.length docs - 1) docs
  end.

(** The filter loop of [Execute]. *)
Fixpoint filter_docs (q : Query) (docs : list Document) : result (list Document) :=
  match docs with
  | [] => Ok []
  | doc :: rest =>
      match matchesCondition (data_of doc) (q_Condition q) with
      | Ok keep =>
          match filter_docs q rest with
          | Ok results => Ok (if keep then doc :: results else results)
          | r => r
          end
      | Err e => Err e
      | Panic => Panic
      end
  end.

(** The pagination at the end of [Execute]. *)
Definition paginate (q : Query) (results : list Document) : list Document :=
  let skip := Skip (Options q) in
  let limit := Limit (Options q) in
  let results :=
    if bool_decide (0 < skip)%Z && bool_decide (skip < Z.of_nat (List.length results))%Z
    then drop (Z.to_nat skip) results else results in
  if bool_decide (0 < limit)%Z && bool_decide (limit < Z.of_nat (List.length results))%Z
  then take (Z.to_nat limit) results else results.

(** [Execute] once [GetAllDocuments] has returned [docs]. *)
Definition Execute_docs (q : Query) (docs : list Document) : result (list Document) :=
  match filter_docs q docs with
  | Ok results =>
      let results :=
        if (0 <? List.length (Sort (Options q)))%nat
        then sortDocuments q results else results in
      Ok (paginate q results)
  | r => r
  end.

Definition Query_Execute (q : Query) (db : Database) : result (list Document) :=
  Execute_docs q (Database_GetAllDocuments db (q_Collection q)).
End QueryEngine.

(** ** Sequences of local operations, and restart *)

(** The document [CreateDocument] builds from what it reads in [env]. *)
Definition created (env : Env) (collection : string) (data : option (gmap string value))
  : Document :=
  {| ID := uuid_New env; Collection := collection; Data := data;
     CreatedAt := time_Now env; UpdatedAt := time_Now env |}.




(** A local operation of the store. *)
Inductive op : Type :=
| OpCreate (collection : string) (data : option (gmap string value))
| OpUpdate (id : string) (patch : option (gmap string value))
| OpDelete (id : string).

(** Running one operation: the new store and whether the call returned
    without error. *)
Definition run_op (db : Database) (env : Env) (o : op) : Database * bool :=
  match o with
  | OpCreate collection data =>
      let '(db', r) := Database_CreateDocument db env collection data in (db', is_Ok r)
  | OpUpdate id patch =>
      let '(db', r) := Database_UpdateDocument db env id patch in (db', is_Ok r)
  | OpDelete id =>
      let '(db', r) := Database_DeleteDocument db env id in (db', is_Ok r)
  end.

(** A sequence of operations all of which succeed. *)
Fixpoint run_ops (db : Database) (script : list (Env * op)) : option Database :=
  match script with
  | [] => Some db
  | (env, o) :: rest =>
      let '(db', ok) := run_op db env o in
      if ok then run_ops db' rest else None
  end.

(** Close and reopen on the same data directory. *)
Definition Restart (db : Database) : result Database :=
  NewDatabaseWithPersistence (persistence db).

(** ** The log as a sequence of effects on the map *)

(** What replaying one log line does to the map. *)
Inductive effect : Type :=
| Put (d : Document)
| Remove (id : string)
| Nop.

Definition tx_effect (transaction : Transaction) : option effect :=
  if bool_decide (tx_Type transaction = TransactionCreate)
     || bool_decide (tx_Type transaction = TransactionUpdate) then
    Some (match tx_Document transaction with Some d => Put d | None => Nop end)
  else if decide (tx_Type transaction = TransactionDelete) then
    Some (Remove (tx_DocID transaction))
  else None.

Definition apply_effect (e : effect) (m : gmap string Document) : gmap string Document :=
  match e with
  | Put d => <[ID d := d]> m
  | Remove id => delete id m
  | Nop => m
  end.

Definition effect_ids (e : effect) : gset string :=
  match e with
  | Put d => {[ ID d ]}
  | Remove id => {[ id ]}
  | Nop => ∅
  end.

(** The ids some line of the log writes or deletes. *)
Fixpoint touched (log : list Transaction) : gset string :=
  match log with
  | [] => ∅
  | transaction :: rest =>
      match tx_effect transaction with
      | Some e => effect_ids e
      | None => ∅
      end ∪ touched rest
  end.

(** The disk agrees with the map: persistence is on, the log is open,
    every document sits under its own id, replaying the log from nothing
    gives the map, and every document file is about an id the log
    mentions. *)
Record consistent (db : Database) : Prop := mkConsistent {
  c_enabled : persistenceEnabled db = true;
  c_open : closed (transactionLog (persistence db)) = false;
  c_keys : ∀ id d, documents db !! id = Some d → ID d = id;
  c_replay : ReplayTransactions ∅ (lines (transactionLog (persistence db))) = Ok (documents db);
  c_files : ∀ key d, files (persistence db) !! key = Some d →
                     ID d ∈ touched (lines (transactionLog (persistence db)))
}.

(** ** Documents, stores and queries used in the examples *)

(** An empty data directory, and a database opened on it. *)
Definition empty_dir : PersistenceManager :=
  {| files := ∅; transactionLog := {| lines := []; closed := false |} |}.

Definition opened_empty : Database :=
  {| documents := ∅; persistence := empty_dir; persistenceEnabled := true;
     eventCallbacks := []; sync := None; syncEnabled := false;
     published := []; invoked := [] |}.

Definition env_at (id : string) (now : Z) (file_ok log_ok : bool) : Env :=
  {| uuid_New := id; time_Now := now;
     disk := {| file_ok := file_ok; log_ok := log_ok; clock := now |};
     publish_ok := true |}.

Definition user (id : string) (age : Z) : Document :=
  {| ID := id; Collection := "users"; Data := Some {[ "age" := VInt age ]};
     CreatedAt := 0; UpdatedAt := 0 |}.

Definition stamped (id : string) (age updated_at : Z) : Document :=
  {| ID := id; Collection := "users"; Data := Some {[ "age" := VInt age ]};
     CreatedAt := 0; UpdatedAt := updated_at |}.

Definition ana : Document :=
  {| ID := "u1"; Collection := "users";
     Data := Some {[ "name" := VString "Ana"; "age" := VInt 30 ]};
     CreatedAt := 1; UpdatedAt := 1 |}.

Definition ana_db : Database := set_documents NewDatabase {[ "u1" := ana ]}.

Definition with_email (email : string) : option (gmap string value) :=
  Some {[ "email" := VString email ]}.

Definition by_age (direction : string) (skip limit : Z) : Query :=
  {| q_Collection := "users";
     q_Condition := CondQuery {| Field := "age"; Operator := OperatorEXISTS;
                                 Value := VBool true |};
     Options := {| Skip := skip; Limit := limit;
                   Sort := [ {| so_Field := "age"; so_Direction := direction |} ] |} |}.

Definition remote_create (d : Document) : DBMessage :=
  {| msg_Operation := OperationCreate; msg_Document := Some d; msg_DocumentID := "" |}.

Definition remote_update (d : Document) : DBMessage :=
  {| msg_Operation := OperationUpdate; msg_Document := Some d; msg_DocumentID := "" |}.

Definition node_A : DBSync := {| nodeID := "A"; enabled := true |}.

Definition sync_node (db : Database) : SyncManager :=
  {| hostID := "A"; database := db;
     syncStats := {| DocumentsReceived := 0; BytesReceived := 0;
                     ConflictsDetected := 0; ConflictsResolved := 0 |} |}.

(** A store without persistence that holds the given documents. *)
Definition holding (docs : list Document) : Database :=
  set_documents NewDatabase (list_to_map (map (λ d, (ID d, d)) docs)).

Definition session : list (Env * op) :=
  [ (env_at "u1" 1 true true, OpCreate "users" (Some {[ "name" := VString "Ana" ]}));
    (env_at "u2" 2 true true, OpCreate "users" (Some {[ "name" := VString "Luis" ]}));
    (env_at "" 3 true true, OpUpdate "u1" (Some {[ "city" := VString "Lima" ]}));
    (env_at "" 4 true true, OpDelete "u2") ].

(** ** query.go: the builders *)

Definition set_q_Condition (q : Query) (c : condition) : Query :=
  {| q_Collection := q_Collection q; q_Condition := c; Options := Options q |}.

Definition set_Options (q : Query) (o : QueryOptions) : Query :=
  {| q_Collection := q_Collection q; q_Condition := q_Condition q; Options := o |}.

Definition Query_Where (q : Query) (field operator : string) (v : value) : Query :=
  set_q_Condition q (CondQuery {| Field := field; Operator := operator; Value := v |}).

Definition Query_And (q : Query) (conditions : list condition) : Query :=
  set_q_Condition q (CondLogical LogicalAND conditions).

Definition Query_Or (q : Query) (conditions : list condition) : Query :=
  set_q_Condition q (CondLogical LogicalOR conditions).

Definition Query_Not (q : Query) (c : condition) : Query :=
  set_q_Condition q (CondLogical LogicalNOT [c]).

Definition Query_Skip (q : Query) (skip : Z) : Query :=
  set_Options q {| Skip := skip; Limit := Limit (Options q); Sort := Sort (Options q) |}.

Definition Query_Limit (q : Query) (limit : Z) : Query :=
  set_Options q {| Skip := Skip (Options q); Limit := limit; Sort := Sort (Options q) |}.

Definition Query_Sort (q : Query) (field direction : string) : Query :=
  set_Options q {| Skip := Skip (Options q); Limit := Limit (Options q);
                   Sort := (Sort (Options q)
                            ++ [ {| so_Field := field; so_Direction := direction |} ])%list |}.

(** ** index.go: removal, update, and the index manager *)

(** [Index.RemoveDocument]: every list of ids loses [docID]; a value left
    without ids is deleted from the map. *)
Definition Index_RemoveDocument (idx : Index) (now : Z) (docID : string) : Index :=
  set_idx_Data idx now
    (omap (λ ids : list string,
             let newIDs := filter (λ id, id ≠ docID) ids in
             if bool_decide (List.length newIDs = 0%nat) then None else Some newIDs)
          (idx_Data idx)).

Inductive index_error : Type :=
| ErrIndiceYaExiste (name : string)
| ErrIndiceNoEncontrado (name : string)
| ErrSinIndiceParaCampo (field collection : string)
| ErrDelIndice (e : error).                (* an error of [Index.AddDocument] *)

Inductive im_result (A : Type) : Type :=
| ImOk (a : A)
| ImErr (e : index_error)
| ImPanic.
Arguments ImOk {A} a.
Arguments ImErr {A} e.
Arguments ImPanic {A}.

(** [IndexManager.Indexes]: index name -> index. *)
Definition IndexManager := gmap string Index.

Definition NewIndexManager : IndexManager := ∅.

Definition IndexManager_CreateIndex (im : IndexManager) (now : Z)
    (name collection : string) (fields : list string) (indexType : string)
  : IndexManager * im_result Index :=
  match im !! name with
  | Some _ => (im, ImErr (ErrIndiceYaExiste name))
  | None =>
      let index := NewIndex now name collection fields indexType in
      (<[name := index]> im, ImOk index)
  end.

Definition IndexManager_GetIndex (im : IndexManager) (name : string) : option Index :=
  im !! name.

Definition IndexManager_DropIndex (im : IndexManager) (name : string)
  : IndexManager * im_result unit :=
  match im !! name with
  | None => (im, ImErr (ErrIndiceNoEncontrado name))
  | Some _ => (delete name im, ImOk tt)
  end.

Section IndexManagerOps.
Variable Sprintf_v : value → string.

(** [Index.UpdateDocument]: remove, then add; [now1] and [now2] are the
    clock read by each. *)
Definition Index_UpdateDocument (idx : Index) (now1 now2 : Z) (doc : Document)
  : Index * result unit :=
  Index_AddDocument Sprintf_v (Index_RemoveDocument idx now1 (ID doc)) now2 doc.

Definition IndexManager_FindDocumentsByIndex (im : IndexManager)
    (indexName value : string) : im_result (list string) :=
  match IndexManager_GetIndex im indexName with
  | None => ImErr (ErrIndiceNoEncontrado indexName)
  | Some index => ImOk (Index_Search index value)
  end.

(** The loop of [RebuildIndex] over the documents; [clock k] is the time
    read while the [k]-th document is added. *)
Fixpoint rebuild_loop (index : Index) (clock : nat → Z) (k : nat)
    (documents : list Document) : Index * im_result unit :=
  match documents with
  | [] => (index, ImOk tt)
  | doc :: rest =>
      if decide (Collection doc = idx_Collection index) then
        match Index_AddDocument Sprintf_v index (clock k) doc with
        | (index', Ok _) => rebuild_loop index' clock (S k) rest
        | (index', Err e) => (index', ImErr (ErrDelIndice e))
        | (index', Panic) => (index', ImPanic)
        end
      else rebuild_loop index clock (S k) rest
  end.

(** [RebuildIndex] assigns a new empty map to the index and leaves its
    [UpdatedAt] as it was. *)
Definition IndexManager_RebuildIndex (im : IndexManager) (clock : nat → Z)
    (indexName : string) (documents : list Document) : IndexManager * im_result unit :=
  match IndexManager_GetIndex im indexName with
  | None => (im, ImErr (ErrIndiceNoEncontrado indexName))
  | Some index =>
      let cleared := set_idx_Data index (idx_UpdatedAt index) ∅ in
      let '(index', r) := rebuild_loop cleared clock 0 documents in
      (<[indexName := index']> im, r)
  end.
End IndexManagerOps.

(** ** database.go: QueryDocuments, GetCollections, the sync switches *)

Section QueryDocuments.
(** [==] on two [time.Time] values compares the wall clock reading, the
    monotonic reading and the location pointer, which the instant alone
    does not determine. *)
Variable time_equal : Z → Z → bool.

(** [docValue == value] on two interface values: values of different
    dynamic types are unequal; two slices or two maps make the comparison
    panic. *)
Definition interface_eq (a b : value) : result bool :=
  match a, b with
  | VNil, VNil => Ok true
  | VString x, VString y => Ok (bool_decide (x = y))
  | VInt x, VInt y => Ok (bool_decide (x = y))
  | VInt64 x, VInt64 y => Ok (bool_decide (x = y))
  | VFloat64 x, VFloat64 y => Ok (PrimFloat.eqb x y)
  | VBool x, VBool y => Ok (bool_decide (x = y))
  | VTime x, VTime y => Ok (time_equal x y)
  | VArray _, VArray _ => Panic
  | VMap _, VMap _ => Panic
  | _, _ => Ok false
  end.

(** [for key, value := range query], stopping at the first criterion
    that does not hold. *)
Fixpoint matches_criteria (data : gmap string value) (criteria : list (string * value))
  : result bool :=
  match criteria with
  | [] => Ok true
  | (key, v) :: rest =>
      match data !! key with
      | None => Ok false
      | Some docValue =>
          match interface_eq docValue v with
          | Ok true => matches_criteria data rest
          | Ok false => Ok false
          | Err e => Err e
          | Panic => Panic
          end
      end
  end.

Fixpoint query_loop (docs : list Document) (collection : string)
    (criteria : list (string * value)) : result (list Document) :=
  match docs with
  | [] => Ok []
  | doc :: rest =>
      if decide (Collection doc ≠ collection) then query_loop rest collection criteria
      else
        match matches_criteria (data_of doc) criteria with
        | Ok keep =>
            match query_loop rest collection criteria with
            | Ok results => Ok (if keep then doc :: results else results)
            | r => r
            end
        | Err e => Err e
        | Panic => Panic
        end
  end.

(** Both maps are ranged over in the order of [map_to_list]; a nil query
    has no criterion. *)
Definition Database_QueryDocuments (db : Database) (collection : string)
    (query : option (gmap string value)) : result (list Document) :=
  query_loop (map_to_list (documents db)).*2 collection
    (map_to_list (default ∅ query)).
End QueryDocuments.

(** [GetCollections]: the keys of the map [collectionsMap]. *)
Definition Database_GetCollections (db : Database) : list string :=
  elements (list_to_set (Collection <$> (map_to_list (documents db)).*2) : gset string).


Definition set_syncEnabled (db : Database) (b : bool) : Database :=
  {| documents := documents db; persistence := persistence db;
     persistenceEnabled := persistenceEnabled db;
     eventCallbacks := eventCallbacks db; sync := sync db;
     syncEnabled := b; published := published db; invoked := invoked db |}.

Definition Database_EnableSync (db : Database) : Database := set_syncEnabled db true.
Definition Database_DisableSync (db : Database) : Database := set_syncEnabled db false.

(** ** sync.go: SyncAllDocuments *)






(** ** sync_manager.go: answering a sync request *)

Record SyncRequest : Type := mkSyncRequest {
  req_NodeID : string;
  req_RequestType : string;
  req_Collection : string;
  req_LastSyncTime : Z;
  req_BatchSize : Z
}.

(** What the responder puts in a [SyncResponse] besides the fields read
    by [handleSyncResponse]. *)
Record SyncAnswer : Type := mkSyncAnswer {
  ans_response : SyncResponse;
  ans_HasMoreDocuments : bool
}.

(** The zero [time.Time], January 1 of year 1, in nanoseconds from the
    Unix epoch. *)
Definition time_zero : Z := (-62135596800 * 1000000000)%Z.

Definition time_IsZero (t : Z) : bool := bool_decide (t = time_zero).

(** The collections the full and incremental handlers go through
    (hard-coded), without the excluded ones. *)
Definition filteredCollections (excluded : list string) : list string :=
  filter (λ collection, collection ∉ excluded) ["users"; "documents"; "settings"].

(** "Limitar al tamaño del lote": [docs[:BatchSize]] panics on a negative
    bound. *)
Definition limit_batch (request : SyncRequest) (docs : list Document)
  : result (list Document * bool) :=
  if bool_decide (req_BatchSize request < Z.of_nat (List.length docs))%Z then
    if bool_decide (req_BatchSize request < 0)%Z then Panic
    else Ok (take (Z.to_nat (req_BatchSize request)) docs, true)
  else Ok (docs, false).

Definition answer (sm : SyncManager) (request : SyncRequest) (docs : list Document)
  : result SyncAnswer :=
  match limit_batch request docs with
  | Ok (documentsToSend, hasMore) =>
      Ok {| ans_response :=
              {| resp_NodeID := hostID sm; resp_Success := true;
                 resp_Documents := documentsToSend;
                 resp_DocumentsCount := Z.of_nat (List.length documentsToSend) |};
            ans_HasMoreDocuments := hasMore |}
  | Err e => Err e
  | Panic => Panic
  end.

Definition handleFullSyncRequest (sm : SyncManager) (excluded : list string)
    (request : SyncRequest) : result SyncAnswer :=
  answer sm request
    (flat_map (Database_GetAllDocuments (database sm)) (filteredCollections excluded)).

Definition handleIncrementalSyncRequest (sm : SyncManager) (excluded : list string)
    (request : SyncRequest) : result SyncAnswer :=
  answer sm request
    (flat_map (λ collection,
                 filter (λ doc, (req_LastSyncTime request < UpdatedAt doc)%Z)
                        (Database_GetAllDocuments (database sm) collection))
              (filteredCollections excluded)).

(** [inl] is the error returned for an excluded collection. *)
Definition handleCollectionSyncRequest (sm : SyncManager) (excluded : list string)
    (request : SyncRequest) : string + result SyncAnswer :=
  if bool_decide (req_Collection request ∈ excluded) then inl (req_Collection request)
  else
    let docs := Database_GetAllDocuments (database sm) (req_Collection request) in
    inr (answer sm request
           (if negb (time_IsZero (req_LastSyncTime request))
            then filter (λ doc, (req_LastSyncTime request < UpdatedAt doc)%Z) docs
            else docs)).

Definition error_answer (sm : SyncManager) : SyncAnswer :=
  {| ans_response := {| resp_NodeID := hostID sm; resp_Success := false;
                        resp_Documents := []; resp_DocumentsCount := 0 |};
     ans_HasMoreDocuments := false |}.

(** [handleSyncRequest]: the response handed to [sendSyncResponse];
    [None] when nothing is sent (the payload does not decode, or the
    request is the node's own). *)
Definition handleSyncRequest (sm : SyncManager) (excluded : list string)
    (decoded : option SyncRequest) : result (option SyncAnswer) :=
  match decoded with
  | None => Ok None
  | Some request =>
      if decide (req_NodeID request = hostID sm) then Ok None
      else
        let handled : string + result SyncAnswer :=
          if decide (req_RequestType request = "full")
          then inr (handleFullSyncRequest sm excluded request)
          else if decide (req_RequestType request = "incremental")
          then inr (handleIncrementalSyncRequest sm excluded request)
          else if decide (req_RequestType request = "collection")
          then handleCollectionSyncRequest sm excluded request
          else inl (req_RequestType request) in
        match handled with
        | inl _ => Ok (Some (error_answer sm))
        | inr (Ok a) => Ok (Some a)
        | inr (Err e) => Err e
        | inr Panic => Panic
        end
  end.

(** ** persistence.go and database.go: backups *)

(** A backup directory [backups/<name>]: its copy of the tree under
    [collections/] and its copy of the log.  The copies are taken to
    succeed: a copy that fails midway leaves a directory this model does
    not describe. *)
Record Backup : Type := mkBackup {
  bk_files : gmap (string * string) Document;
  bk_log : list Transaction
}.

(** A database together with the backups kept in its data directory. *)
Record Store : Type := mkStore {
  st_db : Database;
  st_backups : gmap string Backup
}.

Inductive backup_error : Type :=
| ErrPersistenciaNoHabilitada
| ErrBackupNoEncontrado (name : string).



(** [os.ReadDir] lists the backups by name. *)
Definition PersistenceManager_ListBackups (backups : gmap string Backup) : list string :=
  merge_sort (λ a b, Is_true (string_leb a b)) (map_to_list backups).*1.

Definition PersistenceManager_DeleteBackup (backups : gmap string Backup)
    (backupName : string) : gmap string Backup * option backup_error :=
  match backups !! backupName with
  | None => (backups, Some (ErrBackupNoEncontrado backupName))
  | Some _ => (delete backupName backups, None)
  end.



Definition Database_ListBackups (s : Store) : backup_error + list string :=
  if negb (persistenceEnabled (st_db s)) then inl ErrPersistenciaNoHabilitada
  else inr (PersistenceManager_ListBackups (st_backups s)).

Definition Database_DeleteBackup (s : Store) (backupName : string)
  : Store * option backup_error :=
  if negb (persistenceEnabled (st_db s)) then (s, Some ErrPersistenciaNoHabilitada)
  else
    let '(backups, r) := PersistenceManager_DeleteBackup (st_backups s) backupName in
    ({| st_db := st_db s; st_backups := backups |}, r).

(** Every document is in the file of its collection and id, and the
    files hold nothing else. *)
Record mirrored (db : Database) : Prop := mkMirrored {
  m_keys : ∀ id d, documents db !! id = Some d → ID d = id;
  m_saved : ∀ id d, documents db !! id = Some d →
                    files (persistence db) !! (Collection d, id) = Some d;
  m_files : ∀ collection id d, files (persistence db) !! (collection, id) = Some d →
                               documents db !! id = Some d ∧ Collection d = collection
}.

(** ** cache.go *)

Record CacheItem : Type := mkCacheItem {
  ci_Key : string;
  ci_Value : value;
  ci_ExpiresAt : Z                      (* [time_zero]: never expires *)
}.

Definition EvictionPolicyLRU : string := "lru".
Definition EvictionPolicyLFU : string := "lfu".
Definition EvictionPolicyFIFO : string := "fifo".

Record CacheStats : Type := mkCacheStats {
  Hits : Z;
  Misses : Z;
  Evictions : Z;
  Expirations : Z;
  TotalItems : Z;
  TotalOperations : Z
}.

(** [items] maps a key to its element, whose value is the item;
    [itemsList] is the list of the elements, here the keys from front to
    back. *)
Record Cache : Type := mkCache {
  items : gmap string CacheItem;
  itemsList : list string;
  accessCount : gmap string Z;
  maxSize : Z;
  defaultTTL : Z;
  evictionPolicy : string;
  stats : CacheStats
}.

(** [NewCache()] with no option; durations are in nanoseconds. *)
Definition NewCache : Cache :=
  {| items := ∅; itemsList := []; accessCount := ∅; maxSize := 1000;
     defaultTTL := 600000000000; evictionPolicy := EvictionPolicyLRU;
     stats := {| Hits := 0; Misses := 0; Evictions := 0; Expirations := 0;
                 TotalItems := 0; TotalOperations := 0 |} |}.

Definition WithMaxSize (size : Z) (c : Cache) : Cache :=
  {| items := items c; itemsList := itemsList c; accessCount := accessCount c;
     maxSize := size; defaultTTL := defaultTTL c; evictionPolicy := evictionPolicy c;
     stats := stats c |}.

Definition WithDefaultTTL (ttl : Z) (c : Cache) : Cache :=
  {| items := items c; itemsList := itemsList c; accessCount := accessCount c;
     maxSize := maxSize c; defaultTTL := ttl; evictionPolicy := evictionPolicy c;
     stats := stats c |}.

Definition WithEvictionPolicy (policy : string) (c : Cache) : Cache :=
  {| items := items c; itemsList := itemsList c; accessCount := accessCount c;
     maxSize := maxSize c; defaultTTL := defaultTTL c; evictionPolicy := policy;
     stats := stats c |}.

Definition set_stats (c : Cache) (st : CacheStats) : Cache :=
  {| items := items c; itemsList := itemsList c; accessCount := accessCount c;
     maxSize := maxSize c; defaultTTL := defaultTTL c; evictionPolicy := evictionPolicy c;
     stats := st |}.

(** [IsExpired], with [now] the clock it reads. *)
Definition IsExpired (ci : CacheItem) (now : Z) : bool :=
  negb (time_IsZero (ci_ExpiresAt ci)) && bool_decide (ci_ExpiresAt ci < now)%Z.

Definition MoveToFront (key : string) (l : list string) : list string :=
  key :: filter (λ k, k ≠ key) l.

Definition removeElement (c : Cache) (key : string) : Cache :=
  let st := stats c in
  {| items := delete key (items c);
     itemsList := filter (λ k, k ≠ key) (itemsList c);
     accessCount := delete key (accessCount c);
     maxSize := maxSize c; defaultTTL := defaultTTL c; evictionPolicy := evictionPolicy c;
     stats := {| Hits := Hits st; Misses := Misses st; Evictions := Evictions st;
                 Expirations := Expirations st; TotalItems := TotalItems st - 1;
                 TotalOperations := TotalOperations st |} |}.

(** The loop of the LFU case of [evict] over [accessCount], from
    [minKey = ""] and [minCount = -1]. *)
Definition lfu_step (acc : string * Z) (entry : string * Z) : string * Z :=
  if bool_decide (acc.2 = (-1)%Z) || bool_decide (entry.2 < acc.2)%Z
  then entry else acc.

Definition lfu_minKey (counts : gmap string Z) : string :=
  (foldl lfu_step ("", (-1)%Z) (map_to_list counts)).1.

Definition evict (c : Cache) : Cache :=
  let element : option string :=
    if decide (evictionPolicy c = EvictionPolicyLRU) then last (itemsList c)
    else if decide (evictionPolicy c = EvictionPolicyFIFO) then last (itemsList c)
    else if decide (evictionPolicy c = EvictionPolicyLFU) then
      ci_Key <$> items c !! lfu_minKey (accessCount c)
    else None in
  match element with
  | Some key =>
      let c := removeElement c key in
      let st := stats c in
      set_stats c {| Hits := Hits st; Misses := Misses st; Evictions := Evictions st + 1;
                     Expirations := Expirations st; TotalItems := TotalItems st;
                     TotalOperations := TotalOperations st |}
  | None => c
  end.

Definition count_operation (c : Cache) : Cache :=
  let st := stats c in
  set_stats c {| Hits := Hits st; Misses := Misses st; Evictions := Evictions st;
                 Expirations := Expirations st; TotalItems := TotalItems st;
                 TotalOperations := TotalOperations st + 1 |}.

(** [Set]; [ttl] is the optional argument, [now] the clock. *)
Definition Cache_Set (c : Cache) (now : Z) (key : string) (v : value) (ttl : option Z)
  : Cache :=
  let expiration :=
    match ttl with
    | Some t => if bool_decide (0 < t)%Z then (now + t)%Z
                else if bool_decide (0 < defaultTTL c)%Z then (now + defaultTTL c)%Z
                else time_zero
    | None => if bool_decide (0 < defaultTTL c)%Z then (now + defaultTTL c)%Z
              else time_zero
    end in
  let item := {| ci_Key := key; ci_Value := v; ci_ExpiresAt := expiration |} in
  let c :=
    match items c !! key with
    | Some _ =>
        {| items := <[key := item]> (items c);
           itemsList := MoveToFront key (itemsList c);
           accessCount := <[key := (default 0 (accessCount c !! key) + 1)%Z]> (accessCount c);
           maxSize := maxSize c; defaultTTL := defaultTTL c;
           evictionPolicy := evictionPolicy c; stats := stats c |}
    | None =>
        let st := stats c in
        let c :=
          {| items := <[key := item]> (items c);
             itemsList := key :: itemsList c;
             accessCount := <[key := 1%Z]> (accessCount c);
             maxSize := maxSize c; defaultTTL := defaultTTL c;
             evictionPolicy := evictionPolicy c;
             stats := {| Hits := Hits st; Misses := Misses st; Evictions := Evictions st;
                         Expirations := Expirations st; TotalItems := TotalItems st + 1;
                         TotalOperations := TotalOperations st |} |} in
        if bool_decide (0 < maxSize c)%Z
           && bool_decide (maxSize c < Z.of_nat (size (items c)))%Z
        then evict c else c
    end in
  count_operation c.

Definition Cache_Get (c : Cache) (now : Z) (key : string) : Cache * option value :=
  match items c !! key with
  | None =>
      let st := stats c in
      (set_stats c {| Hits := Hits st; Misses := Misses st + 1; Evictions := Evictions st;
                      Expirations := Expirations st; TotalItems := TotalItems st;
                      TotalOperations := TotalOperations st + 1 |}, None)
  | Some item =>
      if IsExpired item now then
        let c := removeElement c (ci_Key item) in
        let st := stats c in
        (set_stats c {| Hits := Hits st; Misses := Misses st + 1;
                        Evictions := Evictions st; Expirations := Expirations st + 1;
                        TotalItems := TotalItems st;
                        TotalOperations := TotalOperations st + 1 |}, None)
      else
        let st := stats c in
        ({| items := items c;
            itemsList := if decide (evictionPolicy c = EvictionPolicyLRU)
                         then MoveToFront key (itemsList c) else itemsList c;
            accessCount := <[key := (default 0 (accessCount c !! key) + 1)%Z]> (accessCount c);
            maxSize := maxSize c; defaultTTL := defaultTTL c;
            evictionPolicy := evictionPolicy c;
            stats := {| Hits := Hits st + 1; Misses := Misses st; Evictions := Evictions st;
                        Expirations := Expirations st; TotalItems := TotalItems st;
                        TotalOperations := TotalOperations st + 1 |} |},
         Some (ci_Value item))
  end.

Definition Cache_Delete (c : Cache) (key : string) : Cache :=
  count_operation
    match items c !! key with
    | Some item => removeElement c (ci_Key item)
    | None => c
    end.

Definition Cache_Size (c : Cache) : nat := size (items c).

(** ** The inputs on which the model of the disk is exact

    The persistence manager writes a document as JSON text in the file
    [filepath.Join(dataDir, "collections", doc.Collection, doc.ID+".json")]
    and the logger writes it as JSON text in a log line; the model keeps
    the document itself, under the pair [(collection, id)].

    The pair stands for the path when the collection is a single path
    component and the id holds no separator ([path_component],
    [file_stem]).  [Join] cleans the path, so another collection name can
    lead to the file of another pair (["users/"] to the file of
    ["users"]) or to a place [LoadAllDocuments] does not read (directly
    under [collections/] for [""], two directories below for ["a/b"]).

    The document stands for its text when [encoding/json] gives it back
    unchanged: its strings are valid UTF-8 (another byte is read back as
    U+FFFD) and its data holds only nil, booleans, finite [float64]
    numbers, strings, arrays and maps (an [int] or [int64] is read back
    as a [float64], a [time.Time] as a string).

    A document file is a file that was written whole: [os.WriteFile]
    that fails midway leaves a truncated file, which [LoadAllDocuments]
    refuses; the model has no such file.

    The properties about what is read back from the disk are stated for
    such names, documents and files. *)

Definition plain_dir (pm : PersistenceManager) : Prop :=
  ∀ key d, files pm !! key = Some d →
           path_component key.1 = true ∧ file_stem key.2 = true.

(** Every file of the store and every document of its map has such a
    name, and every document sits under its own id. *)
Record plain_store (db : Database) : Prop := mkPlainStore {
  p_files : plain_dir (persistence db);
  p_documents : ∀ id d, documents db !! id = Some d →
                        ID d = id ∧ path_component (Collection d) = true
                        ∧ file_stem id = true
}.

Definition byte_in (lo hi : N) (c : ascii) : bool :=
  (lo <=? N_of_ascii c)%N && (N_of_ascii c <=? hi)%N.

(** [utf8.ValidString]. *)
Fixpoint utf8_valid (s : string) : bool :=
  match s with
  | EmptyString => true
  | String b0 rest =>
      if byte_in 0 127 b0 then utf8_valid rest
      else if byte_in 194 223 b0 then
        match rest with
        | String b1 rest => byte_in 128 191 b1 && utf8_valid rest
        | _ => false
        end
      else if byte_in 224 239 b0 then
        match rest with
        | String b1 (String b2 rest) =>
            byte_in (if byte_in 224 224 b0 then 160 else 128)
                    (if byte_in 237 237 b0 then 159 else 191) b1
            && byte_in 128 191 b2 && utf8_valid rest
        | _ => false
        end
      else if byte_in 240 244 b0 then
        match rest with
        | String b1 (String b2 (String b3 rest)) =>
            byte_in (if byte_in 240 240 b0 then 144 else 128)
                    (if byte_in 244 244 b0 then 143 else 191) b1
            && byte_in 128 191 b2 && byte_in 128 191 b3 && utf8_valid rest
        | _ => false
        end
      else false
  end.

(** The values [json.Marshal] followed by [json.Unmarshal] into an
    [interface{}] gives back unchanged. *)
Inductive json_native : value → Prop :=
| native_nil : json_native VNil
| native_bool (b : bool) : json_native (VBool b)
| native_float (f : float) : PrimFloat.is_finite f = true → json_native (VFloat64 f)
| native_string (s : string) : utf8_valid s = true → json_native (VString s)
| native_array (l : list value) : Forall json_native l → json_native (VArray l)
| native_map (m : gmap string value) :
    (∀ k v, m !! k = Some v → utf8_valid k = true ∧ json_native v) →
    json_native (VMap m).

Definition json_data (data : option (gmap string value)) : Prop :=
  ∀ m, data = Some m → json_native (VMap m).

Definition json_document (d : Document) : Prop :=
  utf8_valid (ID d) = true ∧ utf8_valid (Collection d) = true ∧ json_data (Data d).

Definition native_store (db : Database) : Prop :=
  ∀ id d, documents db !! id = Some d → json_document d.

(** An operation that names its file plainly, and one whose data are
    JSON-native. *)
Definition plain_step (step : Env * op) : Prop :=
  match step.2 with
  | OpCreate collection _ =>
      path_component collection = true ∧ file_stem (uuid_New step.1) = true
  | _ => True
  end.

Definition json_step (step : Env * op) : Prop :=
  match step.2 with
  | OpCreate collection data =>
      utf8_valid (uuid_New step.1) = true ∧ utf8_valid collection = true ∧ json_data data
  | OpUpdate _ patch => json_data patch
  | OpDelete _ => True
  end.

(** The document an operation puts in the map under [key]. *)
Inductive written (db : Database) (env : Env) : op → string → Document → Prop :=
| written_create collection data :
    written db env (OpCreate collection data) (uuid_New env) (created env collection data)
| written_update id patch doc merged :
    documents db !! id = Some doc → maps_Copy (Data doc) patch = Ok merged →
    written db env (OpUpdate id patch) id
      {| ID := ID doc; Collection := Collection doc; Data := merged;
         CreatedAt := CreatedAt doc; UpdatedAt := time_Now env |}.

(** A document with a name, and the session of the restart example. *)
Definition named (id collection name : string) : Document :=
  {| ID := id; Collection := collection; Data := Some {[ "name" := VString name ]};
     CreatedAt := 0; UpdatedAt := 0 |}.

(** * Properties *)

(** ** Conditions on a field that does not resolve, and [exists] *)

Section ConditionProperties.
Variable Sprintf_v : value → string.
Variable regexp_MatchString : string → string → option bool.

Local Abbreviation matchesQC := (matchesQueryCondition Sprintf_v regexp_MatchString).

Lemma assert_bool_eq_Panic v want :
  assert_bool_eq v want = Panic ↔ ∀ b, v ≠ VBool b.
Proof.
  split.
  - destruct v; simpl; intros H b' Hv; congruence.
  - intros H. destruct v; simpl; try reflexivity. by destruct (H b).
Qed.

(** C7, as amended: when the field path of a condition does not resolve
    in a document, [exists:false] is true, [exists:true] is false, and
    every other operator - [nin] included - is false. *)
Theorem absent_field_condition (data : gmap string value) (c : QueryCondition) :
  (∃ e, getNestedFieldValue data (Field c) = inl e) →
  (Operator c = OperatorEXISTS → Value c = VBool false → matchesQC data c = Ok true)
  ∧ (Operator c = OperatorEXISTS → Value c = VBool true → matchesQC data c = Ok false)
  ∧ (Operator c ≠ OperatorEXISTS → matchesQC data c = Ok false).
Proof.
  intros [e He]. unfold matchesQueryCondition. rewrite He.
  repeat split.
  - intros Hop Hv. rewrite decide_True by done. by rewrite Hv.
  - intros Hop Hv. rewrite decide_True by done. by rewrite Hv.
  - intros Hop. by rewrite decide_False.
Qed.

(** C10: [matchesQueryCondition] panics exactly on an [exists]
    condition whose [Value] is not a bool, whatever the document; on
    every other condition it returns a match result. *)
Theorem exists_condition_panics_iff (data : gmap string value) (c : QueryCondition) :
  (matchesQC data c = Panic ↔ Operator c = OperatorEXISTS ∧ ∀ b, Value c ≠ VBool b)
  ∧ (matchesQC data c ≠ Panic → ∃ b, matchesQC data c = Ok b).
Proof.
  unfold matchesQueryCondition. split.
  - destruct (getNestedFieldValue data (Field c)) as [e|v];
      destruct (decide (Operator c = OperatorEXISTS)) as [Hop|Hop];
      rewrite ?assert_bool_eq_Panic; split; try tauto; try (intros; discriminate).
  - destruct (getNestedFieldValue data (Field c)) as [e|v];
      destruct (decide (Operator c = OperatorEXISTS)) as [Hop|Hop];
      try (intros _; eexists; reflexivity);
      destruct (Value c); simpl; intros H; try congruence; eexists; reflexivity.
Qed.
End ConditionProperties.

(** C7: the operator [nin] on an absent field gives false, not true. *)
Lemma nin_on_absent_field :
  getNestedFieldValue ∅ "tags" = inl false
  ∧ ∀ Sprintf_v regexp_MatchString,
      matchesQueryCondition Sprintf_v regexp_MatchString ∅
        {| Field := "tags"; Operator := OperatorNIN; Value := VArray [VString "x"] |}
      = Ok false.
Proof. split; [reflexivity | intros; reflexivity]. Qed.

Lemma absent_field_condition_witness :
  (∃ e, getNestedFieldValue ∅ "tags" = inl e)
  ∧ matchesQueryCondition (λ _, "") (λ _ _, None) ∅
      {| Field := "tags"; Operator := OperatorEXISTS; Value := VBool false |} = Ok true.
Proof.
  assert (H : ∃ e, getNestedFieldValue ∅ "tags" = inl e) by (by exists false).
  split; [exact H|].
  exact (proj1 (absent_field_condition (λ _, "") (λ _ _, None) ∅
                  {| Field := "tags"; Operator := OperatorEXISTS; Value := VBool false |} H)
               eq_refl eq_refl).
Defined.

(** An [exists] condition carrying the string "yes" panics on a document
    that has the field and on one that does not. *)
Example exists_with_a_string_panics :
  ∀ Sprintf_v regexp_MatchString,
    matchesQueryCondition Sprintf_v regexp_MatchString {[ "name" := VString "Ana" ]}
      {| Field := "name"; Operator := OperatorEXISTS; Value := VString "yes" |} = Panic
    ∧ matchesQueryCondition Sprintf_v regexp_MatchString ∅
      {| Field := "name"; Operator := OperatorEXISTS; Value := VString "yes" |} = Panic.
Proof. intros. split; reflexivity. Qed.

(** ** Sorting *)

Section SortProperties.
Variable Sprintf_v : value → string.

Local Abbreviation exchange' := (exchange Sprintf_v).
Local Abbreviation sort_step' := (sort_step Sprintf_v).
Local Abbreviation sort_inner' := (sort_inner Sprintf_v).
Local Abbreviation sort_outer' := (sort_outer Sprintf_v).

Lemma sort_step_Permutation field direction i j (docs : list Document) :
  sort_step' field direction i j docs ≡ₚ docs.
Proof.
  unfold sort_step.
  destruct (docs !! i) as [docI|] eqn:Hi; [|done].
  destruct (docs !! j) as [docJ|] eqn:Hj; [|done].
  destruct (exchange' field direction docI docJ); [|done].
  by apply Permutation_insert_swap.
Qed.

Lemma sort_inner_Permutation field direction i n : ∀ j (docs : list Document),
  sort_inner' field direction i j n docs ≡ₚ docs.
Proof.
  induction n as [|n IH]; intros j docs; simpl; [done|].
  rewrite IH. apply sort_step_Permutation.
Qed.

Lemma sort_outer_Permutation field direction n : ∀ i (docs : list Document),
  sort_outer' field direction i n docs ≡ₚ docs.
Proof.
  induction n as [|n IH]; intros i docs; simpl; [done|].
  rewrite IH. apply sort_inner_Permutation.
Qed.

(** No pair of the slice, taken in slice order, calls for an exchange. *)
Definition in_order (field direction : string) (docs : list Document) : Prop :=
  ∀ i j docI docJ, i < j → docs !! i = Some docI → docs !! j = Some docJ →
    exchange' field direction docI docJ = false.

Lemma sort_step_in_order field direction i j (docs : list Document) :
  in_order field direction docs → i < j →
  sort_step' field direction i j docs = docs.
Proof.
  intros Hord Hij. unfold sort_step.
  destruct (docs !! i) as [docI|] eqn:Hi; [|done].
  destruct (docs !! j) as [docJ|] eqn:Hj; [|done].
  by rewrite (Hord i j docI docJ).
Qed.

Lemma sort_inner_in_order field direction i n : ∀ j (docs : list Document),
  in_order field direction docs → i < j →
  sort_inner' field direction i j n docs = docs.
Proof.
  induction n as [|n IH]; intros j docs Hord Hij; simpl; [done|].
  rewrite sort_step_in_order by done. apply IH; [done | lia].
Qed.

Lemma sort_outer_in_order field direction n : ∀ i (docs : list Document),
  in_order field direction docs →
  sort_outer' field direction i n docs = docs.
Proof.
  induction n as [|n IH]; intros i docs Hord; simpl; [done|].
  rewrite sort_inner_in_order; [by apply IH | done | lia].
Qed.

(** Every document resolves [field] and all the values found compare
    equal. *)
Definition all_tied (field : string) (docs : list Document) : Prop :=
  ∀ d d', d ∈ docs → d' ∈ docs →
    ∃ v v', getNestedFieldValue (data_of d) field = inr v
            ∧ getNestedFieldValue (data_of d') field = inr v'
            ∧ compareValues Sprintf_v v v' = 0%Z.

Lemma all_tied_in_order field direction docs :
  all_tied field docs → in_order field direction docs.
Proof.
  intros Htied i j docI docJ _ Hi Hj.
  destruct (Htied docI docJ) as (v & v' & Hv & Hv' & Hcmp).
  { apply list_elem_of_lookup. eauto. }
  { apply list_elem_of_lookup. eauto. }
  unfold exchange. rewrite Hv, Hv', Hcmp.
  rewrite (bool_decide_eq_false_2 (0 < 0)%Z) by lia. by rewrite !andb_false_r.
Qed.

Definition sort_field (q : Query) : string :=
  match Sort (Options q) with
  | sortOption :: _ => so_Field sortOption
  | [] => ""
  end.

(** C8, as amended: [sortDocuments] returns a permutation of the slice
    it is given, and when all the documents resolve the sort field to
    values that compare equal the output order is the pre-sort order.
    (Ties are not kept in general: see [sort_is_not_stable].) *)
Theorem sortDocuments_ties (q : Query) (docs : list Document) :
  sortDocuments Sprintf_v q docs ≡ₚ docs
  ∧ (all_tied (sort_field q) docs → sortDocuments Sprintf_v q docs = docs).
Proof.
  unfold sortDocuments, sort_field.
  destruct (Sort (Options q)) as [|sortOption rest]; [done|].
  split.
  - apply sort_outer_Permutation.
  - intros Htied. apply sort_outer_in_order. by apply all_tied_in_order.
Qed.
End SortProperties.

(** C8: ascending by age, the slice [a:2, b:2, c:1] comes out as
    [c, b, a]: the tied documents [a] and [b] have changed places. *)
Lemma sort_is_not_stable :
  (∀ Sprintf_v, compareValues Sprintf_v (VInt 2) (VInt 2) = 0%Z)
  ∧ (∀ Sprintf_v,
       sortDocuments Sprintf_v (by_age SortAscending 0 0)
         [user "a" 2; user "b" 2; user "c" 1]
       = [user "c" 1; user "b" 2; user "a" 2]).
Proof. split; intros; vm_compute; reflexivity. Qed.

Lemma sortDocuments_ties_witness :
  all_tied (λ _, "") "age" [user "a" 2; user "b" 2]
  ∧ sortDocuments (λ _, "") (by_age SortAscending 0 0) [user "a" 2; user "b" 2]
    = [user "a" 2; user "b" 2].
Proof.
  assert (H : all_tied (λ _, "") "age" [user "a" 2; user "b" 2]).
  { intros d d' Hd Hd'. exists (VInt 2), (VInt 2).
    apply list_elem_of_In in Hd, Hd'. simpl in Hd, Hd'.
    destruct Hd as [<-|[<-|[]]], Hd' as [<-|[<-|[]]]; by vm_compute. }
  split; [exact H|].
  exact (proj2 (sortDocuments_ties (λ _, "") (by_age SortAscending 0 0)
                  [user "a" 2; user "b" 2]) H).
Defined.

(** ** Pagination *)

Section PaginationProperties.
Variable Sprintf_v : value → string.
Variable regexp_MatchString : string → string → option bool.

(** What [Execute] holds after filtering and sorting. *)
Definition filtered_sorted (q : Query) (results : list Document) : list Document :=
  if (0 <? List.length (Sort (Options q)))%nat
  then sortDocuments Sprintf_v q results else results.

Lemma paginate_in_range (q : Query) (l : list Document) :
  (Skip (Options q) < Z.of_nat (List.length l))%Z →
  paginate q l =
    let rest := drop (Z.to_nat (Skip (Options q))) l in
    if bool_decide (0 < Limit (Options q))%Z
    then take (Z.to_nat (Limit (Options q))) rest else rest.
Proof.
  intros Hskip. unfold paginate. cbv zeta.
  rewrite (bool_decide_eq_true_2 _ Hskip), andb_true_r.
  assert ((if bool_decide (0 < Skip (Options q))%Z
           then drop (Z.to_nat (Skip (Options q))) l else l)
          = drop (Z.to_nat (Skip (Options q))) l) as ->.
  { case_bool_decide; [done|].
    replace (Z.to_nat (Skip (Options q))) with 0%nat by lia. done. }
  case_bool_decide as Hlimit; [|done]. simpl.
  case_bool_decide as Hlen; [done|].
  symmetry. apply take_ge. lia.
Qed.

(** C9, as amended: after filtering and sorting, skip then limit are
    applied last.  When [skip] is smaller than the number of matching
    documents the first [skip] of them are removed (none for
    [skip <= 0]); what remains is cut to its first [limit] elements when
    [limit > 0] and returned whole when [limit <= 0]. *)
Theorem Execute_skip_then_limit (q : Query) (db : Database) (results : list Document) :
  filter_docs Sprintf_v regexp_MatchString q
    (Database_GetAllDocuments db (q_Collection q)) = Ok results →
  (Skip (Options q) < Z.of_nat (List.length (filtered_sorted q results)))%Z →
  Query_Execute Sprintf_v regexp_MatchString q db =
    Ok (let rest := drop (Z.to_nat (Skip (Options q))) (filtered_sorted q results) in
        if bool_decide (0 < Limit (Options q))%Z
        then take (Z.to_nat (Limit (Options q))) rest else rest).
Proof.
  intros Hfilter Hskip. unfold Query_Execute, Execute_docs. rewrite Hfilter.
  f_equal. by apply paginate_in_range.
Qed.
End PaginationProperties.

(** C9: with two matching documents, [skip = 2] returns both documents
    where the first two should have been removed, and [limit = 0] returns
    both where at most zero were allowed. *)
Lemma skip_and_limit_not_applied :
  (∀ Sprintf_v regexp_MatchString,
     Query_Execute Sprintf_v regexp_MatchString (by_age SortAscending 2 10)
       (holding [user "a" 1; user "b" 2]) = Ok [user "a" 1; user "b" 2])
  ∧ take 10 (drop 2 [user "a" 1; user "b" 2]) = []
  ∧ (∀ Sprintf_v regexp_MatchString,
       Query_Execute Sprintf_v regexp_MatchString (by_age SortAscending 0 0)
         (holding [user "a" 1; user "b" 2]) = Ok [user "a" 1; user "b" 2])
  ∧ take 0 (drop 0 [user "a" 1; user "b" 2]) = [].
Proof. repeat split; intros; vm_compute; reflexivity. Qed.

Lemma Execute_skip_then_limit_witness :
  (∃ results,
     filter_docs (λ _, "") (λ _ _, None) (by_age SortDescending 1 1)
       (Database_GetAllDocuments (holding [user "a" 1; user "b" 2; user "c" 3]) "users")
     = Ok results
     ∧ (1 < Z.of_nat (List.length (filtered_sorted (λ _, "") (by_age SortDescending 1 1)
                                    results)))%Z)
  ∧ Query_Execute (λ _, "") (λ _ _, None) (by_age SortDescending 1 1)
      (holding [user "a" 1; user "b" 2; user "c" 3])
    = Ok [user "b" 2].
Proof.
  destruct (filter_docs (λ _, "") (λ _ _, None) (by_age SortDescending 1 1)
              (Database_GetAllDocuments (holding [user "a" 1; user "b" 2; user "c" 3])
                 "users")) as [results| |] eqn:H;
    [|by vm_compute in H..].
  assert (Hlen : (1 < Z.of_nat (List.length (filtered_sorted (λ _, "")
                                   (by_age SortDescending 1 1) results)))%Z).
  { vm_compute in H. injection H as <-. by vm_compute. }
  split; [by exists results|].
  rewrite (Execute_skip_then_limit (λ _, "") (λ _ _, None)
             (by_age SortDescending 1 1) _ results H Hlen).
  vm_compute in H. injection H as <-. by vm_compute.
Defined.

(** ** The store: Create under a persistence failure *)

Lemma SaveDocument_Err pm io doc e :
  (PersistenceManager_SaveDocument pm io doc).2 = Err e →
  PersistenceManager_SaveDocument pm io doc = (pm, Err ErrDisco) ∧ e = ErrDisco.
Proof.
  unfold PersistenceManager_SaveDocument.
  destruct (file_ok io); simpl; intros H; [discriminate|].
  split; congruence.
Qed.

(** C6, as amended: when [SaveDocument] fails during Create, the new
    document stays in the in-memory map and Create returns the error and
    no document; nothing is published and no callback is started. *)
Theorem CreateDocument_when_save_fails (db : Database) (env : Env)
    (collection : string) (data : option (gmap string value)) (e : error) :
  persistenceEnabled db = true →
  (PersistenceManager_SaveDocument (persistence db) (disk env)
     (created env collection data)).2 = Err e →
  ∃ db', Database_CreateDocument db env collection data = (db', Err (ErrPersistir e))
         ∧ documents db' = <[uuid_New env := created env collection data]> (documents db)
         ∧ persistence db' = persistence db
         ∧ published db' = published db
         ∧ invoked db' = invoked db.
Proof.
  intros Hp Hsave. apply SaveDocument_Err in Hsave as [Hsave ->].
  unfold Database_CreateDocument. simpl. rewrite Hp.
  unfold created in Hsave. rewrite Hsave. simpl.
  eexists. split; [reflexivity|]. simpl. by destruct db.
Qed.

(** C6: on a failed save Create returns an error alone, although the
    document is in the map. *)
Lemma create_returns_no_document :
  (Database_CreateDocument opened_empty (env_at "id-1" 5 false true) "users" (Some ∅)).2
  = Err (ErrPersistir ErrDisco)
  ∧ documents
      (Database_CreateDocument opened_empty (env_at "id-1" 5 false true) "users" (Some ∅)).1
    !! "id-1"
    = Some (created (env_at "id-1" 5 false true) "users" (Some ∅)).
Proof. split; reflexivity. Qed.

Lemma CreateDocument_when_save_fails_witness :
  persistenceEnabled opened_empty = true
  ∧ ∃ db', Database_CreateDocument opened_empty (env_at "id-1" 5 false true) "users" (Some ∅)
           = (db', Err (ErrPersistir ErrDisco))
         ∧ documents db' =
             <["id-1" := created (env_at "id-1" 5 false true) "users" (Some ∅)]> ∅
         ∧ persistence db' = empty_dir
         ∧ published db' = []
         ∧ invoked db' = [].
Proof.
  split; [reflexivity|].
  exact (CreateDocument_when_save_fails opened_empty (env_at "id-1" 5 false true)
           "users" (Some ∅) ErrDisco eq_refl eq_refl).
Defined.

(** ** Gossip: what applying a remote mutation leaves untouched *)

Lemma set_persistence_effects db pm :
  published (set_persistence db pm) = published db
  ∧ invoked (set_persistence db pm) = invoked db
  ∧ documents (set_persistence db pm) = documents db
  ∧ persistenceEnabled (set_persistence db pm) = persistenceEnabled db.
Proof. done. Qed.

Lemma set_documents_effects db m :
  published (set_documents db m) = published db
  ∧ invoked (set_documents db m) = invoked db
  ∧ documents (set_documents db m) = m
  ∧ persistenceEnabled (set_documents db m) = persistenceEnabled db.
Proof. done. Qed.

(** C4, as amended: applying a remote mutation received by gossip
    (create, update or delete) publishes nothing on the gossip topic and
    starts no registered event callback. *)
Theorem gossip_apply_is_silent (s : DBSync) (db : Database) (io : IO)
    (from : string) (payload : option DBMessage) :
  published (DBSync_listenForUpdates s db io from payload) = published db
  ∧ invoked (DBSync_listenForUpdates s db io from payload) = invoked db.
Proof.
  unfold DBSync_listenForUpdates.
  repeat (case_decide || case_match); simpl; done.
Qed.

(** C4: a node with one registered callback applies a create gossiped by
    peer B; the document is stored and the callback is not started. *)
Lemma gossip_create_starts_no_callback :
  let db := RegisterEventCallback NewDatabase 7 in
  let db' := DBSync_listenForUpdates node_A db (mkIO true true 0) "B"
               (Some (remote_create (user "y" 30))) in
  eventCallbacks db' = [7]
  ∧ documents db' !! "y" = Some (user "y" 30)
  ∧ invoked db' = [].
Proof. repeat split; reflexivity. Qed.

(** ** What publishing and notifying leave untouched *)

Lemma notify_frame (db : Database) (env : Env) (msg : DBMessage) (e : Event) :
  let db' := triggerEvent (if sync_active db then publishMessage db env msg else db) e in
  documents db' = documents db
  ∧ persistence db' = persistence db
  ∧ persistenceEnabled db' = persistenceEnabled db.
Proof. unfold publishMessage. by destruct (sync_active db), (publish_ok env). Qed.

(** ** The store: Update *)

Lemma PersistenceManager_UpdateDocument_cases pm io doc :
  (∃ pm', PersistenceManager_UpdateDocument pm io doc = (pm', Ok tt))
  ∨ (∃ e, PersistenceManager_UpdateDocument pm io doc = (pm, Err e)).
Proof.
  unfold PersistenceManager_UpdateDocument.
  destruct (files pm !! _); [destruct (file_ok io)|]; eauto.
Qed.





(** C5: a document created with a nil data map (a request that carries
    no data) makes the next Update with a non-empty patch panic, in
    [maps.Copy]; the store is left as it was. *)
Lemma update_of_nil_data_panics :
  let db := (Database_CreateDocument NewDatabase (env_at "u1" 1 true true) "users" None).1 in
  documents db !! "u1"
    = Some {| ID := "u1"; Collection := "users"; Data := None;
              CreatedAt := 1; UpdatedAt := 1 |}
  ∧ Database_UpdateDocument db (env_at "" 9 true true) "u1" (Some {[ "age" := VInt 31 ]})
    = (db, Panic).
Proof. split; reflexivity. Qed.

(** ** Inbound create/update for an id that is present locally *)

Lemma gossip_upsert (s : DBSync) (db : Database) (io : IO) (from : string)
    (dbMsg : DBMessage) (d : Document) :
  from ≠ nodeID s →
  msg_Operation dbMsg = OperationCreate ∨ msg_Operation dbMsg = OperationUpdate →
  msg_Document dbMsg = Some d →
  documents (DBSync_listenForUpdates s db io from (Some dbMsg)) = <[ID d := d]> (documents db).
Proof.
  intros Hfrom Hop Hd. unfold DBSync_listenForUpdates.
  rewrite decide_False by done. rewrite Hd.
  destruct Hop as [-> | ->]; simpl; by destruct (persistenceEnabled db).
Qed.






(** ** Unique indexes and Create *)

Lemma GetAllDocuments_elem (db : Database) (collection : string) (doc : Document) :
  doc ∈ Database_GetAllDocuments db collection
  ↔ Collection doc = collection ∧ ∃ id, documents db !! id = Some doc.
Proof.
  unfold Database_GetAllDocuments. rewrite list_elem_of_filter, list_elem_of_fmap.
  split.
  - intros [Hc ([id d] & -> & Hin)]. split; [done|].
    exists id. by apply elem_of_map_to_list.
  - intros [Hc [id Hid]]. split; [done|].
    exists (id, doc). split; [done|]. by apply elem_of_map_to_list.
Qed.

Lemma CreateDocument_Ok (db : Database) (env : Env) (collection : string)
    (data : option (gmap string value)) :
  (persistenceEnabled db = true → file_ok (disk env) = true) →
  ∃ db', Database_CreateDocument db env collection data
         = (db', Ok (created env collection data))
         ∧ documents db' = <[uuid_New env := created env collection data]> (documents db)
         ∧ persistenceEnabled db' = persistenceEnabled db.
Proof.
  intros Hio. unfold Database_CreateDocument. simpl.
  fold (created env collection data).
  destruct (persistenceEnabled db) eqn:Hpe.
  - unfold PersistenceManager_SaveDocument. rewrite (Hio eq_refl). simpl.
    eexists. split; [reflexivity|].
    pose proof (notify_frame
      (set_persistence
         (set_documents db (<[uuid_New env := created env collection data]> (documents db)))
         {| files := <[(collection, uuid_New env) := created env collection data]>
                       (files (persistence db));
            transactionLog :=
              (LogOperation (transactionLog (persistence db)) (disk env) OperationCreate
                 (uuid_New env) (Some (created env collection data))).1 |}) env
      {| msg_Operation := OperationCreate; msg_Document := Some (created env collection data);
         msg_DocumentID := "" |}
      {| eventType := "create"; ev_collection := collection; documentID := uuid_New env;
         ev_document := created env collection data |}) as (H1 & _ & H3).
    cbv zeta in H1, H3. rewrite H1, H3. simpl. by rewrite Hpe.
  - simpl. eexists. split; [reflexivity|].
    pose proof (notify_frame
      (set_documents db (<[uuid_New env := created env collection data]> (documents db))) env
      {| msg_Operation := OperationCreate; msg_Document := Some (created env collection data);
         msg_DocumentID := "" |}
      {| eventType := "create"; ev_collection := collection; documentID := uuid_New env;
         ev_document := created env collection data |}) as (H1 & _ & H3).
    cbv zeta in H1, H3. rewrite H1, H3. simpl. by rewrite Hpe.
Qed.

Section IndexProperties.
Variable Sprintf_v : value → string.

Lemma Index_second_insert (idx : Index) (now1 now2 : Z) (d1 d2 : Document) (key : string) :
  idx_Unique idx = true →
  getIndexValue Sprintf_v idx d1 = Ok key →
  getIndexValue Sprintf_v idx d2 = Ok key →
  idx_Data idx !! key = None →
  ∃ idx1, Index_AddDocument Sprintf_v idx now1 d1 = (idx1, Ok tt)
          ∧ idx_Data idx1 !! key = Some [ID d1]
          ∧ Index_AddDocument Sprintf_v idx1 now2 d2 = (idx1, Err (ErrIndiceUnico key)).
Proof.
  intros Hu H1 H2 Hfree. unfold Index_AddDocument at 1. rewrite H1, Hfree, Hu. simpl.
  exists (set_idx_Data idx now1 (<[key := [ID d1]]> (idx_Data idx))).
  split; [reflexivity|]. split; [simpl; by rewrite lookup_insert_eq|].
  unfold Index_AddDocument.
  assert (getIndexValue Sprintf_v
            (set_idx_Data idx now1 (<[key := [ID d1]]> (idx_Data idx))) d2 = Ok key) as ->
    by exact H2.
  simpl. rewrite lookup_insert_eq. simpl. by rewrite Hu.
Qed.

(** C3, as amended.  With a unique index on [users.email],
    [Index.AddDocument] accepts the first document that carries a given
    email and rejects a second document with the same email with the
    unique-index violation, leaving the index as it was.
    [Database.CreateDocument] consults no index: two inserts with the
    same email both succeed, and [GetAllDocuments "users"] then returns
    both documents. *)
Theorem unique_index_and_create (now now1 now2 : Z) (d1 d2 : Document) (email : value)
    (db : Database) (env1 env2 : Env) (data1 data2 : option (gmap string value)) :
  (getFieldValue (VMap (data_of d1)) "email" = Ok email →
   getFieldValue (VMap (data_of d2)) "email" = Ok email →
   ∃ idx1,
     Index_AddDocument Sprintf_v (NewIndex now "users_email" "users" ["email"] IndexTypeUnique)
       now1 d1 = (idx1, Ok tt)
     ∧ Index_AddDocument Sprintf_v idx1 now2 d2
       = (idx1, Err (ErrIndiceUnico (Sprintf_v email))))
  ∧ ((persistenceEnabled db = true →
      file_ok (disk env1) = true ∧ file_ok (disk env2) = true) →
     uuid_New env1 ≠ uuid_New env2 →
     ∃ db1 db2,
       Database_CreateDocument db env1 "users" data1
       = (db1, Ok (created env1 "users" data1))
       ∧ Database_CreateDocument db1 env2 "users" data2
         = (db2, Ok (created env2 "users" data2))
       ∧ created env1 "users" data1 ∈ Database_GetAllDocuments db2 "users"
       ∧ created env2 "users" data2 ∈ Database_GetAllDocuments db2 "users").
Proof.
  split.
  - intros H1 H2.
    destruct (Index_second_insert
                (NewIndex now "users_email" "users" ["email"] IndexTypeUnique)
                now1 now2 d1 d2 (Sprintf_v email)) as (idx1 & Ha & _ & Hb); try done.
    + unfold getIndexValue. simpl. by rewrite H1.
    + unfold getIndexValue. simpl. by rewrite H2.
    + eauto.
  - intros Hio Hne.
    destruct (CreateDocument_Ok db env1 "users" data1) as (db1 & Hc1 & Hd1 & Hp1).
    { intros Hp. by destruct (Hio Hp). }
    destruct (CreateDocument_Ok db1 env2 "users" data2) as (db2 & Hc2 & Hd2 & Hp2).
    { rewrite Hp1. intros Hp. by destruct (Hio Hp). }
    exists db1, db2. split; [done|]. split; [done|].
    rewrite !GetAllDocuments_elem. split; (split; [done|]).
    + exists (uuid_New env1). rewrite Hd2, Hd1.
      rewrite lookup_insert_ne by done. by rewrite lookup_insert_eq.
    + exists (uuid_New env2). rewrite Hd2. by rewrite lookup_insert_eq.
Qed.
End IndexProperties.

(** C3: the second insert of the email "a@x" does not fail, and
    [GetAllDocuments "users"] returns two documents. *)
Lemma second_insert_is_accepted :
  let db1 := (Database_CreateDocument opened_empty (env_at "id-1" 1 true true)
                "users" (with_email "a@x")).1 in
  let second := Database_CreateDocument db1 (env_at "id-2" 2 true true)
                  "users" (with_email "a@x") in
  second.2 = Ok (created (env_at "id-2" 2 true true) "users" (with_email "a@x"))
  ∧ List.length (Database_GetAllDocuments second.1 "users") = 2%nat.
Proof. cbv zeta. split; by vm_compute. Qed.

Lemma unique_index_and_create_witness :
  getFieldValue (VMap (data_of (created (env_at "id-1" 1 true true) "users" (with_email "a@x"))))
    "email" = Ok (VString "a@x")
  ∧ getFieldValue (VMap (data_of (created (env_at "id-2" 2 true true) "users" (with_email "a@x"))))
    "email" = Ok (VString "a@x")
  ∧ ∃ idx1,
      Index_AddDocument (λ _, "a@x")
        (NewIndex 0 "users_email" "users" ["email"] IndexTypeUnique) 1
        (created (env_at "id-1" 1 true true) "users" (with_email "a@x")) = (idx1, Ok tt)
      ∧ Index_AddDocument (λ _, "a@x") idx1 2
          (created (env_at "id-2" 2 true true) "users" (with_email "a@x"))
        = (idx1, Err (ErrIndiceUnico "a@x")).
Proof.
  assert (H1 : getFieldValue
                 (VMap (data_of (created (env_at "id-1" 1 true true) "users" (with_email "a@x"))))
                 "email" = Ok (VString "a@x")) by reflexivity.
  assert (H2 : getFieldValue
                 (VMap (data_of (created (env_at "id-2" 2 true true) "users" (with_email "a@x"))))
                 "email" = Ok (VString "a@x")) by reflexivity.
  split; [exact H1|]. split; [exact H2|].
  exact (proj1 (unique_index_and_create (λ _, "a@x") 0 1 2
                  (created (env_at "id-1" 1 true true) "users" (with_email "a@x"))
                  (created (env_at "id-2" 2 true true) "users" (with_email "a@x"))
                  (VString "a@x") opened_empty
                  (env_at "id-1" 1 true true) (env_at "id-2" 2 true true)
                  (with_email "a@x") (with_email "a@x")) H1 H2).
Defined.

(** ** Restart: load the files, replay the log *)

Lemma replay_cons (m : gmap string Document) transaction rest :
  ReplayTransactions m (transaction :: rest) =
    match tx_effect transaction with
    | Some e => ReplayTransactions (apply_effect e m) rest
    | None => Err (ErrTransaccionDesconocida (tx_Type transaction))
    end.
Proof.
  unfold tx_effect. simpl.
  repeat (case_decide || case_bool_decide); simpl; try done;
    by destruct (tx_Document transaction).
Qed.

Lemma replay_app (log1 log2 : list Transaction) : ∀ m : gmap string Document,
  ReplayTransactions m (log1 ++ log2) =
    match ReplayTransactions m log1 with
    | Ok m' => ReplayTransactions m' log2
    | r => r
    end.
Proof.
  induction log1 as [|transaction rest IH]; intros m; [done|].
  rewrite <-app_comm_cons, !replay_cons.
  destruct (tx_effect transaction); [apply IH | done].
Qed.

Lemma touched_app (log1 log2 : list Transaction) :
  touched (log1 ++ log2) = touched log1 ∪ touched log2.
Proof.
  induction log1 as [|transaction rest IH]; simpl; [set_solver|].
  rewrite IH. set_solver.
Qed.

Lemma apply_effect_frame e (m : gmap string Document) i :
  i ∉ effect_ids e → apply_effect e m !! i = m !! i.
Proof.
  destruct e; simpl; intros Hi.
  - apply lookup_insert_ne. set_solver.
  - apply lookup_delete_ne. set_solver.
  - done.
Qed.

Lemma apply_effect_agree e (m n : gmap string Document) i :
  i ∈ effect_ids e → apply_effect e m !! i = apply_effect e n !! i.
Proof.
  destruct e; simpl; intros Hi.
  - apply elem_of_singleton in Hi as ->. by rewrite !lookup_insert_eq.
  - apply elem_of_singleton in Hi as ->. by rewrite !lookup_delete_eq.
  - set_solver.
Qed.

(** Replay leaves alone the ids the log does not mention. *)
Lemma replay_frame (log : list Transaction) : ∀ (m m' : gmap string Document) i,
  ReplayTransactions m log = Ok m' → i ∉ touched log → m' !! i = m !! i.
Proof.
  induction log as [|transaction rest IH]; intros m m' i Hr Hi.
  - simpl in Hr. by simplify_eq.
  - rewrite replay_cons in Hr. simpl in Hi.
    destruct (tx_effect transaction) as [e|]; [|done].
    rewrite (IH _ _ i Hr) by set_solver.
    apply apply_effect_frame. set_solver.
Qed.

(** On the ids the log mentions, the outcome of a replay does not depend
    on the map it starts from. *)
Lemma replay_agree (log : list Transaction) : ∀ (m n n' : gmap string Document),
  ReplayTransactions n log = Ok n' →
  ∃ m', ReplayTransactions m log = Ok m' ∧ ∀ i, i ∈ touched log → m' !! i = n' !! i.
Proof.
  induction log as [|transaction rest IH]; intros m n n' Hr.
  - exists m. split; [done|]. simpl. set_solver.
  - rewrite replay_cons in Hr |- *. simpl.
    destruct (tx_effect transaction) as [e|]; [|done].
    destruct (IH (apply_effect e m) _ _ Hr) as (m' & Hm' & Hagree).
    exists m'. split; [done|]. intros i Hi.
    destruct (decide (i ∈ touched rest)) as [Hin|Hout]; [by apply Hagree|].
    rewrite (replay_frame _ _ _ i Hm' Hout), (replay_frame _ _ _ i Hr Hout).
    apply apply_effect_agree. set_solver.
Qed.

(** Every document [LoadAllDocuments] returns is the content of a file. *)
Lemma LoadAllDocuments_lookup (pm : PersistenceManager) (i : string) (d : Document) :
  PersistenceManager_LoadAllDocuments pm !! i = Some d →
  ∃ key, files pm !! key = Some d ∧ ID d = i.
Proof.
  unfold PersistenceManager_LoadAllDocuments.
  assert (Hall : ∀ entry,
            entry ∈ filter (λ entry, Is_true (loadable entry.1)) (dir_order (files pm)) →
            files pm !! entry.1 = Some entry.2).
  { intros [key doc] [_ Hin]%list_elem_of_filter. revert Hin.
    unfold dir_order. rewrite merge_sort_Permutation.
    by rewrite elem_of_map_to_list. }
  revert Hall.
  generalize (filter (λ entry, Is_true (loadable entry.1)) (dir_order (files pm))).
  intros l.
  assert (Hgen : ∀ (acc : gmap string Document),
            (∀ entry, entry ∈ l → files pm !! entry.1 = Some entry.2) →
            foldl (λ documents entry, <[ID entry.2 := entry.2]> documents) acc l !! i = Some d →
            acc !! i = Some d ∨ ∃ key, files pm !! key = Some d ∧ ID d = i).
  { induction l as [|entry l IH]; intros acc Hall Hl; simpl in Hl; [by left|].
    destruct (IH (<[ID entry.2 := entry.2]> acc)) as [Hacc|Hfile]; [set_solver|done| |by right].
    destruct (decide (ID entry.2 = i)) as [<-|Hne].
    - rewrite lookup_insert_eq in Hacc. simplify_eq. right. exists entry.1.
      split; [|done]. apply Hall. set_solver.
    - rewrite lookup_insert_ne in Hacc by done. by left. }
  intros Hall Hl. destruct (Hgen ∅ Hall Hl) as [Hempty|?]; [|done].
  by rewrite lookup_empty in Hempty.
Qed.

Lemma LogOperation_written (tl : TransactionLogger) (io : IO) (op : Operation)
    (docID : string) (doc : option Document) :
  closed tl = false → log_ok io = true →
  op = OperationCreate ∨ op = OperationUpdate ∨ op = OperationDelete →
  (LogOperation tl io op docID doc).1 =
    {| lines := lines tl ++ [ {| tx_ID := pretty (clock io); tx_Type := op;
                                 tx_Timestamp := clock io; tx_DocID := docID;
                                 tx_Document := doc |} ];
       closed := false |}.
Proof.
  intros Hopen Hlog Hop. unfold LogOperation. rewrite Hopen, Hlog.
  destruct Hop as [-> | [-> | ->]]; reflexivity.
Qed.

(** The state reached when the map takes the effect [e] and the disk
    takes the new files and one more log line with the same effect. *)
Lemma consistent_step (db : Database) (docs' : gmap string Document)
    (files' : gmap (string * string) Document) (transaction : Transaction) (e : effect) :
  consistent db →
  tx_effect transaction = Some e →
  docs' = apply_effect e (documents db) →
  (∀ id d, docs' !! id = Some d → ID d = id) →
  (∀ key d, files' !! key = Some d →
            files (persistence db) !! key = Some d ∨ ID d ∈ effect_ids e) →
  ∀ db', persistenceEnabled db' = true →
         documents db' = docs' →
         persistence db' =
           {| files := files';
              transactionLog :=
                {| lines := lines (transactionLog (persistence db)) ++ [transaction];
                   closed := false |} |} →
         consistent db'.
Proof.
  intros [He Ho Hk Hr Hf] Htx -> Hkeys Hfiles db' He' Hd' Hp'.
  split; rewrite ?Hp'; simpl; try done.
  - by rewrite Hd'.
  - rewrite replay_app, Hr, replay_cons, Htx. simpl. by rewrite Hd'.
  - intros key d Hkey. rewrite touched_app. simpl. rewrite Htx.
    destruct (Hfiles key d Hkey) as [Hold|Hnew]; [|set_solver].
    apply elem_of_union_l. by eapply Hf.
Qed.

Lemma run_op_consistent (db db' : Database) (env : Env) (o : op) :
  consistent db → log_ok (disk env) = true →
  run_op db env o = (db', true) → consistent db'.
Proof.
  intros Hc Hlog Hrun. pose proof Hc as [He Ho Hk Hr Hf].
  destruct o as [collection data | id patch | id]; simpl in Hrun.
  - (* Create *)
    unfold Database_CreateDocument in Hrun. simpl in Hrun. rewrite He in Hrun.
    fold (created env collection data) in Hrun.
    unfold PersistenceManager_SaveDocument in Hrun.
    destruct (file_ok (disk env)); simpl in Hrun; [|by simplify_eq].
    rewrite (LogOperation_written _ _ _ _ _ Ho Hlog) in Hrun by auto.
    injection Hrun as <-.
    match goal with |- consistent (triggerEvent (if sync_active ?d then _ else _) ?ev) =>
      pose proof (notify_frame d env
        {| msg_Operation := OperationCreate;
           msg_Document := Some (created env collection data); msg_DocumentID := "" |} ev)
        as (H1 & H2 & H3) end.
    cbv zeta in H1, H2, H3.
    apply (consistent_step db
             (<[uuid_New env := created env collection data]> (documents db))
             (<[(collection, uuid_New env) := created env collection data]>
                (files (persistence db)))
             {| tx_ID := pretty (clock (disk env)); tx_Type := OperationCreate;
                tx_Timestamp := clock (disk env); tx_DocID := uuid_New env;
                tx_Document := Some (created env collection data) |}
             (Put (created env collection data)) Hc);
      [reflexivity | reflexivity | | | by rewrite H3 | by rewrite H1 | by rewrite H2].
    + intros id d. simpl. intros [[<- <-]|[_ Hd]]%lookup_insert_Some; [done|by apply Hk].
    + intros key d [[_ <-]|[_ Hd]]%lookup_insert_Some; [right; set_solver | by left].
  - (* Update *)
    unfold Database_UpdateDocument in Hrun.
    destruct (documents db !! id) as [doc|] eqn:Hdoc; [|by simplify_eq].
    destruct (maps_Copy (Data doc) patch) as [merged| |] eqn:Hcopy; [|by simplify_eq..].
    simpl in Hrun. rewrite He in Hrun.
    unfold PersistenceManager_UpdateDocument in Hrun. simpl in Hrun.
    destruct (files (persistence db) !! (Collection doc, ID doc)) as [on_disk|];
      [|by simplify_eq].
    destruct (file_ok (disk env)); simpl in Hrun; [|by simplify_eq].
    rewrite (LogOperation_written _ _ _ _ _ Ho Hlog) in Hrun by auto.
    injection Hrun as <-.
    set (doc' := {| ID := ID doc; Collection := Collection doc; Data := merged;
                    CreatedAt := CreatedAt doc; UpdatedAt := time_Now env |}).
    match goal with |- consistent (triggerEvent (if sync_active ?d then _ else _) ?ev) =>
      pose proof (notify_frame d env
        {| msg_Operation := OperationUpdate; msg_Document := Some doc';
           msg_DocumentID := "" |} ev) as (H1 & H2 & H3) end.
    cbv zeta in H1, H2, H3.
    assert (Hid : ID doc = id) by (by apply Hk).
    apply (consistent_step db (<[id := doc']> (documents db))
             (<[(Collection doc, ID doc) := doc']> (files (persistence db)))
             {| tx_ID := pretty (clock (disk env)); tx_Type := OperationUpdate;
                tx_Timestamp := clock (disk env); tx_DocID := ID doc;
                tx_Document := Some doc' |}
             (Put doc') Hc);
      [reflexivity | | | | by rewrite H3 | by rewrite H1 | by rewrite H2].
    + simpl. by rewrite Hid.
    + intros i d. intros [[<- <-]|[_ Hd]]%lookup_insert_Some; [done|by apply Hk].
    + intros key d [[_ <-]|[_ Hd]]%lookup_insert_Some; [right; set_solver | by left].
  - (* Delete *)
    unfold Database_DeleteDocument in Hrun.
    destruct (documents db !! id) as [doc|] eqn:Hdoc; [|by simplify_eq].
    simpl in Hrun. rewrite He in Hrun.
    unfold PersistenceManager_DeleteDocument in Hrun. simpl in Hrun.
    destruct (files (persistence db) !! (Collection doc, id)) as [on_disk|];
      [|by simplify_eq].
    destruct (file_ok (disk env)); simpl in Hrun; [|by simplify_eq].
    rewrite (LogOperation_written _ _ _ _ _ Ho Hlog) in Hrun by auto.
    injection Hrun as <-.
    match goal with |- consistent (triggerEvent (if sync_active ?d then _ else _) ?ev) =>
      pose proof (notify_frame d env
        {| msg_Operation := OperationDelete; msg_Document := None;
           msg_DocumentID := id |} ev) as (H1 & H2 & H3) end.
    cbv zeta in H1, H2, H3.
    apply (consistent_step db (delete id (documents db))
             (delete (Collection doc, id) (files (persistence db)))
             {| tx_ID := pretty (clock (disk env)); tx_Type := OperationDelete;
                tx_Timestamp := clock (disk env); tx_DocID := id;
                tx_Document := None |}
             (Remove id) Hc);
      [reflexivity | reflexivity | | | by rewrite H3 | by rewrite H1 | by rewrite H2].
    + intros i d. simpl. intros [_ Hd]%lookup_delete_Some. by apply Hk.
    + intros key d [_ Hd]%lookup_delete_Some. by left.
Qed.

Lemma run_ops_consistent (script : list (Env * op)) : ∀ (db db' : Database),
  consistent db →
  Forall (λ step, log_ok (disk step.1) = true) script →
  run_ops db script = Some db' → consistent db'.
Proof.
  induction script as [|[env o] rest IH]; intros db db' Hc Hlog Hrun; simpl in Hrun.
  - by simplify_eq.
  - apply Forall_cons in Hlog as [Hlog Hrest]. simpl in Hlog.
    destruct (run_op db env o) as [db1 ok] eqn:Hop.
    destruct ok; [|done].
    eapply IH; [|done|done]. by eapply run_op_consistent.
Qed.

Lemma consistent_Restart (db : Database) :
  consistent db →
  ∃ db', Restart db = Ok db' ∧ documents db' = documents db.
Proof.
  intros [He Ho Hk Hr Hf]. unfold Restart, NewDatabaseWithPersistence, ReadTransactions.
  destruct (replay_agree _ (PersistenceManager_LoadAllDocuments (persistence db)) _ _ Hr)
    as (m' & Hm' & Hagree).
  rewrite Hm'. eexists. split; [reflexivity|]. simpl.
  apply map_eq. intros i.
  destruct (decide (i ∈ touched (lines (transactionLog (persistence db))))) as [Hin|Hout].
  - by apply Hagree.
  - rewrite (replay_frame _ _ _ i Hm' Hout), (replay_frame _ _ _ i Hr Hout).
    rewrite lookup_empty.
    destruct (PersistenceManager_LoadAllDocuments (persistence db) !! i) as [d|] eqn:Hload;
      [|done].
    apply LoadAllDocuments_lookup in Hload as (key & Hfile & <-).
    destruct Hout. by eapply Hf.
Qed.

(** From a state where the disk agrees with the map, a sequence of
    operations that succeed and have their log lines written can be
    followed by a restart without loss. *)
Lemma session_then_Restart (db0 db : Database) (script : list (Env * op)) :
  consistent db0 →
  Forall (λ step, log_ok (disk step.1) = true) script →
  run_ops db0 script = Some db →
  ∃ db', Restart db = Ok db' ∧ documents db' = documents db.
Proof.
  intros Hc Hlog Hrun. apply consistent_Restart. by eapply run_ops_consistent.
Qed.

(** A restart leads to such a state again, so the next session starts
    from one. *)
Lemma Restart_consistent (db db' : Database) :
  consistent db → Restart db = Ok db' → consistent db'.
Proof.
  intros Hc Hre. destruct (consistent_Restart db Hc) as (db'' & Hre' & Hdocs).
  rewrite Hre in Hre'. injection Hre' as <-.
  assert (Hp : persistence db' = persistence db ∧ persistenceEnabled db' = true).
  { unfold Restart, NewDatabaseWithPersistence in Hre.
    destruct (ReplayTransactions _ _); simplify_eq. done. }
  destruct Hp as [Hp He], Hc as [_ Ho Hk Hr Hf].
  split; rewrite ?Hp, ?Hdocs; done.
Qed.

(** What one operation does to the map and to the files, whether or not
    it returns an error. *)
Lemma run_op_shape (db db' : Database) (env : Env) (o : op) (ok : bool) :
  run_op db env o = (db', ok) →
  (documents db' = documents db ∧ files (persistence db') = files (persistence db))
  ∨ (∃ key d, written db env o key d
       ∧ documents db' = <[key := d]> (documents db)
       ∧ (files (persistence db') = files (persistence db)
          ∨ files (persistence db')
            = <[(Collection d, ID d) := d]> (files (persistence db))))
  ∨ (∃ id doc, o = OpDelete id ∧ documents db !! id = Some doc
       ∧ documents db' = delete id (documents db)
       ∧ (files (persistence db') = files (persistence db)
          ∨ files (persistence db')
            = delete (Collection doc, id) (files (persistence db)))).
Proof.
  intros Hrun. destruct o as [collection data | id patch | id]; simpl in Hrun.
  - right. left. exists (uuid_New env), (created env collection data).
    split; [constructor|].
    unfold Database_CreateDocument in Hrun. simpl in Hrun.
    fold (created env collection data) in Hrun.
    destruct (persistenceEnabled db) eqn:Hpe; simpl in Hrun.
    + unfold PersistenceManager_SaveDocument in Hrun.
      destruct (file_ok (disk env)); simpl in Hrun; injection Hrun as <- _.
      * rewrite (proj1 (notify_frame _ _ _ _)), (proj1 (proj2 (notify_frame _ _ _ _))).
        split; [done|]. by right.
      * split; [done|]. by left.
    + injection Hrun as <- _.
      rewrite (proj1 (notify_frame _ _ _ _)), (proj1 (proj2 (notify_frame _ _ _ _))).
      split; [done|]. by left.
  - unfold Database_UpdateDocument in Hrun.
    destruct (documents db !! id) as [doc|] eqn:Hdoc; [|injection Hrun as <- _; by left].
    destruct (maps_Copy (Data doc) patch) as [merged| |] eqn:Hcopy;
      [|injection Hrun as <- _; by left..].
    right. left. exists id. eexists. split; [by econstructor|].
    simpl in Hrun.
    destruct (persistenceEnabled db) eqn:Hpe; simpl in Hrun.
    + unfold PersistenceManager_UpdateDocument in Hrun. simpl in Hrun.
      destruct (files (persistence db) !! (Collection doc, ID doc)) as [on_disk|];
        [|injection Hrun as <- _; split; [done|by left]].
      destruct (file_ok (disk env)); simpl in Hrun; injection Hrun as <- _.
      * rewrite (proj1 (notify_frame _ _ _ _)), (proj1 (proj2 (notify_frame _ _ _ _))).
        split; [done|]. by right.
      * split; [done|]. by left.
    + injection Hrun as <- _.
      rewrite (proj1 (notify_frame _ _ _ _)), (proj1 (proj2 (notify_frame _ _ _ _))).
      split; [done|]. by left.
  - unfold Database_DeleteDocument in Hrun.
    destruct (documents db !! id) as [doc|] eqn:Hdoc; [|injection Hrun as <- _; by left].
    right. right. exists id, doc. split; [done|]. split; [done|].
    simpl in Hrun.
    destruct (persistenceEnabled db) eqn:Hpe; simpl in Hrun.
    + unfold PersistenceManager_DeleteDocument in Hrun. simpl in Hrun.
      destruct (files (persistence db) !! (Collection doc, id)) as [on_disk|];
        [|injection Hrun as <- _; split; [done|by left]].
      destruct (file_ok (disk env)); simpl in Hrun; injection Hrun as <- _.
      * rewrite (proj1 (notify_frame _ _ _ _)), (proj1 (proj2 (notify_frame _ _ _ _))).
        split; [done|]. by right.
      * split; [done|]. by left.
    + injection Hrun as <- _.
      rewrite (proj1 (notify_frame _ _ _ _)), (proj1 (proj2 (notify_frame _ _ _ _))).
      split; [done|]. by left.
Qed.

Lemma json_data_merged (d patch merged : option (gmap string value)) :
  maps_Copy d patch = Ok merged → json_data d → json_data patch → json_data merged.
Proof.
  unfold maps_Copy. destruct d as [d0|].
  - intros [= <-] Hd Hp m [= <-]. constructor. intros k v Hkv.
    apply lookup_union_Some_raw in Hkv as [Hkv|[_ Hkv]].
    + destruct patch as [p|]; simpl in Hkv; [|by rewrite lookup_empty in Hkv].
      specialize (Hp p eq_refl). inversion Hp; eauto.
    + specialize (Hd d0 eq_refl). inversion Hd; eauto.
  - case_decide; [|done]. by intros [= <-] _ _ m [=].
Qed.

Lemma run_op_native (db db' : Database) (env : Env) (o : op) (ok : bool) :
  native_store db → json_step (env, o) → run_op db env o = (db', ok) → native_store db'.
Proof.
  intros Hn Hstep Hrun.
  destruct (run_op_shape _ _ _ _ _ Hrun)
    as [[Hdocs _]|[(key & d & Hw & Hdocs & _)|(id & doc & _ & _ & Hdocs & _)]];
    intros i d'; rewrite Hdocs.
  - apply Hn.
  - intros [[<- <-]|[_ Hd]]%lookup_insert_Some; [|by eapply Hn].
    destruct Hw as [collection data | id patch doc merged Hdoc Hcopy];
      unfold json_step in Hstep; simpl in Hstep.
    + done.
    + destruct (Hn _ _ Hdoc) as (Hid & Hc & Hdata).
      split; [done|]. split; [done|]. by eapply json_data_merged.
  - intros [_ Hd]%lookup_delete_Some. by eapply Hn.
Qed.

Lemma run_ops_native (script : list (Env * op)) : ∀ (db db' : Database),
  native_store db → Forall json_step script →
  run_ops db script = Some db' → native_store db'.
Proof.
  induction script as [|[env o] rest IH]; intros db db' Hn Hsteps Hrun; simpl in Hrun.
  - by simplify_eq.
  - apply Forall_cons in Hsteps as [Hstep Hrest].
    destruct (run_op db env o) as [db1 ok] eqn:Hop.
    destruct ok; [|done].
    eapply IH; [|done|done]. by eapply run_op_native.
Qed.

Lemma run_op_plain (db db' : Database) (env : Env) (o : op) (ok : bool) :
  plain_store db → plain_step (env, o) → run_op db env o = (db', ok) → plain_store db'.
Proof.
  intros [Hf Hd] Hstep Hrun.
  destruct (run_op_shape _ _ _ _ _ Hrun)
    as [[Hdocs Hfiles]|[(key & d & Hw & Hdocs & Hfiles)|(id & doc & _ & Hdoc & Hdocs & Hfiles)]].
  - split; [unfold plain_dir|]; rewrite ?Hfiles, ?Hdocs; done.
  - assert (Hnew : ID d = key ∧ path_component (Collection d) = true ∧ file_stem key = true).
    { destruct Hw as [collection data | id patch doc merged Hdoc Hcopy];
        unfold plain_step in Hstep; simpl in Hstep.
      - destruct Hstep. by repeat split.
      - simpl. by apply Hd. }
    split.
    + destruct Hfiles as [Hfiles|Hfiles]; unfold plain_dir; rewrite Hfiles; [done|].
      intros k d' [[<- <-]|[_ Hk]]%lookup_insert_Some; [|by eapply Hf].
      simpl. destruct Hnew as (-> & ? & ?). done.
    + intros i d'. rewrite Hdocs.
      intros [[<- <-]|[_ Hi]]%lookup_insert_Some; [done|by apply Hd].
  - split.
    + destruct Hfiles as [Hfiles|Hfiles]; unfold plain_dir; rewrite Hfiles; [done|].
      intros k d' [_ Hk]%lookup_delete_Some. by eapply Hf.
    + intros i d'. rewrite Hdocs. intros [_ Hi]%lookup_delete_Some. by apply Hd.
Qed.

Lemma run_ops_plain (script : list (Env * op)) : ∀ (db db' : Database),
  plain_store db → Forall plain_step script →
  run_ops db script = Some db' → plain_store db'.
Proof.
  induction script as [|[env o] rest IH]; intros db db' Hn Hsteps Hrun; simpl in Hrun.
  - by simplify_eq.
  - apply Forall_cons in Hsteps as [Hstep Hrest].
    destruct (run_op db env o) as [db1 ok] eqn:Hop.
    destruct ok; [|done].
    eapply IH; [|done|done]. by eapply run_op_plain.
Qed.

(** C2, as amended.  On a store whose disk agrees with its map and whose
    documents are JSON-native (a store opened on an empty data directory
    is one), after any sequence of Create/Update/Delete operations each
    of which returned without error and had its line appended to the log,
    on collection names, ids and data that are JSON-native, closing and
    reopening on the same directory (load every document file, then
    replay every log line in order, the files and the log being read back
    without an error of the operating system) succeeds and yields the
    same id-to-document map; the reopened store is again one whose disk
    agrees with its map and whose documents are JSON-native. *)
Theorem restart_preserves_documents (db0 db : Database) (script : list (Env * op)) :
  (persistenceEnabled db0 = true → documents db0 = ∅ → persistence db0 = empty_dir →
   consistent db0 ∧ native_store db0)
  ∧ (consistent db0 → native_store db0 →
     Forall (λ step, log_ok (disk step.1) = true) script →
     Forall json_step script →
     run_ops db0 script = Some db →
     consistent db ∧ native_store db
     ∧ ∃ db', Restart db = Ok db' ∧ documents db' = documents db
              ∧ consistent db' ∧ native_store db').
Proof.
  split.
  - intros He Hd Hp. split.
    + split; rewrite ?Hp, ?Hd; simpl; try done.
    + intros id d. by rewrite Hd, lookup_empty.
  - intros Hc Hn Hlog Hjson Hrun.
    pose proof (run_ops_consistent script db0 db Hc Hlog Hrun) as Hc'.
    pose proof (run_ops_native script db0 db Hn Hjson Hrun) as Hn'.
    do 2 (split; [done|]).
    destruct (consistent_Restart db Hc') as (db' & Hre & Hdocs).
    exists db'. do 2 (split; [done|]).
    split; [by eapply Restart_consistent|].
    unfold native_store. by rewrite Hdocs.
Qed.

Lemma singleton_native (k s : string) :
  utf8_valid k = true → utf8_valid s = true → json_data (Some {[ k := VString s ]}).
Proof.
  intros Hk Hs m [= <-]. constructor.
  intros k' v [<- <-]%lookup_singleton_Some. split; [done|by constructor].
Qed.

Lemma session_native : Forall json_step session.
Proof.
  unfold session.
  repeat (apply Forall_cons; split); [..|by apply Forall_nil]; unfold json_step; simpl;
    repeat split; try reflexivity; by apply singleton_native.
Qed.

Lemma restart_preserves_documents_witness :
  Forall (λ step : Env * op, log_ok (disk step.1) = true) session
  ∧ Forall json_step session
  ∧ ∃ db, run_ops opened_empty session = Some db
          ∧ documents db !! "u1"
            = Some {| ID := "u1"; Collection := "users";
                      Data := Some ({[ "city" := VString "Lima" ]}
                                    ∪ {[ "name" := VString "Ana" ]});
                      CreatedAt := 1; UpdatedAt := 3 |}
          ∧ documents db !! "u2" = None
          ∧ ∃ db', Restart db = Ok db' ∧ documents db' = documents db.
Proof.
  assert (Hlog : Forall (λ step : Env * op, log_ok (disk step.1) = true) session).
  { unfold session. repeat constructor. }
  split; [exact Hlog|]. split; [exact session_native|].
  destruct (run_ops opened_empty session) as [db|] eqn:Hrun; [|by vm_compute in Hrun].
  exists db. split; [reflexivity|].
  destruct (proj1 (restart_preserves_documents opened_empty db session)
              eq_refl eq_refl eq_refl) as [Hc Hn].
  destruct (proj2 (restart_preserves_documents opened_empty db session)
              Hc Hn Hlog session_native Hrun) as (_ & _ & db' & Hre & Hdocs & _).
  split; [|split; [|by exists db']].
  - vm_compute in Hrun. injection Hrun as <-. reflexivity.
  - vm_compute in Hrun. injection Hrun as <-. reflexivity.
Defined.

(** C2: the persistence manager discards the error of [LogOperation],
    so an Update whose log line is not written still returns without
    error; the restart then replays the older line of the Create and the
    update is gone. *)
Lemma update_with_unwritten_log_line :
  let script :=
    [ (env_at "u1" 1 true true, OpCreate "users" (Some {[ "name" := VString "Ana" ]}));
      (env_at "" 2 true false, OpUpdate "u1" (Some {[ "name" := VString "Anna" ]})) ] in
  ∃ db db', run_ops opened_empty script = Some db
            ∧ Restart db = Ok db'
            ∧ documents db !! "u1"
              = Some {| ID := "u1"; Collection := "users";
                        Data := Some ({[ "name" := VString "Anna" ]}
                                      ∪ {[ "name" := VString "Ana" ]});
                        CreatedAt := 1; UpdatedAt := 2 |}
            ∧ documents db' !! "u1"
              = Some {| ID := "u1"; Collection := "users";
                        Data := Some {[ "name" := VString "Ana" ]};
                        CreatedAt := 1; UpdatedAt := 1 |}.
Proof.
  cbv zeta. eexists. eexists.
  split; [vm_compute; reflexivity|]. split; [vm_compute; reflexivity|].
  split; reflexivity.
Qed.

(** * Further properties of the store *)

(** ** Create, then read *)

(** A Create whose persistence step does not fail returns a document
    carrying the generated id, the given collection and data and the
    clock in both timestamps; the document can then be read under its id
    and is listed by GetAll of its collection, and reading any other id
    gives what it gave before. *)
Theorem CreateDocument_then_Get (db : Database) (env : Env) (collection : string)
    (data : option (gmap string value)) :
  (persistenceEnabled db = true → file_ok (disk env) = true) →
  ∃ db' doc, Database_CreateDocument db env collection data = (db', Ok doc)
    ∧ ID doc = uuid_New env ∧ Collection doc = collection ∧ Data doc = data
    ∧ CreatedAt doc = time_Now env ∧ UpdatedAt doc = time_Now env
    ∧ Database_GetDocument db' (uuid_New env) = Ok doc
    ∧ doc ∈ Database_GetAllDocuments db' collection
    ∧ ∀ id, id ≠ uuid_New env → Database_GetDocument db' id = Database_GetDocument db id.
Proof.
  intros Hio.
  destruct (CreateDocument_Ok db env collection data Hio) as (db' & Hres & Hdocs & _).
  exists db', (created env collection data).
  split; [done|]. do 5 (split; [done|]).
  unfold Database_GetDocument. rewrite Hdocs.
  split; [by rewrite lookup_insert_eq|]. split.
  - apply GetAllDocuments_elem. split; [done|].
    exists (uuid_New env). by rewrite Hdocs, lookup_insert_eq.
  - intros id Hid. by rewrite lookup_insert_ne.
Qed.

Lemma CreateDocument_then_Get_witness :
  (persistenceEnabled opened_empty = true → file_ok (disk (env_at "u1" 7 true true)) = true)
  ∧ ∃ db' doc, Database_CreateDocument opened_empty (env_at "u1" 7 true true) "users"
                 (with_email "ana@example.org") = (db', Ok doc)
      ∧ Database_GetDocument db' "u1" = Ok doc
      ∧ doc ∈ Database_GetAllDocuments db' "users".
Proof.
  assert (H : persistenceEnabled opened_empty = true →
              file_ok (disk (env_at "u1" 7 true true)) = true) by reflexivity.
  split; [exact H|].
  destruct (CreateDocument_then_Get opened_empty (env_at "u1" 7 true true) "users"
              (with_email "ana@example.org") H)
    as (db' & doc & Hres & _ & _ & _ & _ & _ & Hget & Hall & _).
  by exists db', doc.
Defined.

(** ** Delete *)

Lemma PersistenceManager_DeleteDocument_cases pm io collection id :
  (∃ pm', PersistenceManager_DeleteDocument pm io collection id = (pm', Ok tt))
  ∨ (∃ e, PersistenceManager_DeleteDocument pm io collection id = (pm, Err e)).
Proof.
  unfold PersistenceManager_DeleteDocument.
  destruct (files pm !! _); [destruct (file_ok io)|]; eauto.
Qed.



(** ** What a local mutation tells the callbacks and the peers *)






(** ** A mutation that returns an error *)

Lemma run_op_failed (db db' : Database) (env : Env) (o : op) :
  run_op db env o = (db', false) →
  persistence db' = persistence db ∧ persistenceEnabled db' = persistenceEnabled db
  ∧ published db' = published db ∧ invoked db' = invoked db.
Proof.
  intros Hrun. destruct o as [collection data | id patch | id]; simpl in Hrun.
  - unfold Database_CreateDocument in Hrun. simpl in Hrun.
    destruct (persistenceEnabled db) eqn:Hpe; simpl in Hrun; [|by simplify_eq].
    unfold PersistenceManager_SaveDocument in Hrun.
    destruct (file_ok (disk env)); simpl in Hrun; [by simplify_eq|].
    injection Hrun as <-. simpl. by destruct (persistence db).
  - unfold Database_UpdateDocument in Hrun.
    destruct (documents db !! id) as [doc|] eqn:Hdoc; [|by simplify_eq].
    destruct (maps_Copy (Data doc) patch) as [merged| |] eqn:Hcopy; [|by simplify_eq..].
    simpl in Hrun.
    destruct (persistenceEnabled db) eqn:Hpe; simpl in Hrun; [|by simplify_eq].
    destruct (PersistenceManager_UpdateDocument_cases (persistence db) (disk env)
                {| ID := ID doc; Collection := Collection doc; Data := merged;
                   CreatedAt := CreatedAt doc; UpdatedAt := time_Now env |})
      as [[pm' Hpm]|[e Hpm]]; rewrite Hpm in Hrun; simpl in Hrun; [by simplify_eq|].
    injection Hrun as <-. simpl. by destruct (persistence db).
  - unfold Database_DeleteDocument in Hrun.
    destruct (documents db !! id) as [doc|] eqn:Hdoc; [|by simplify_eq].
    simpl in Hrun.
    destruct (persistenceEnabled db) eqn:Hpe; simpl in Hrun; [|by simplify_eq].
    destruct (PersistenceManager_DeleteDocument_cases (persistence db) (disk env)
                (Collection doc) id)
      as [[pm' Hpm]|[e Hpm]]; rewrite Hpm in Hrun; simpl in Hrun; [by simplify_eq|].
    injection Hrun as <-. simpl. by destruct (persistence db).
Qed.

(** A Create, Update or Delete that returns an error (or panics), on a
    store whose files and documents are plainly named, has appended no
    line to the log, published nothing and started no callback, although
    a failed persistence step leaves its change in the in-memory map.  A
    write that fails midway can leave a truncated document file, so
    nothing is said here of the files after a failed Create or Update.  A
    failed Delete leaves every file as it was: when the disk agreed with
    the map before the call, closing and reopening the database gives
    back the map as it was before the call, the document that was to be
    deleted included. *)
Theorem failed_mutation_announces_nothing (db db' : Database) (env : Env) (o : op) :
  plain_store db →
  run_op db env o = (db', false) →
  published db' = published db ∧ invoked db' = invoked db
  ∧ transactionLog (persistence db') = transactionLog (persistence db)
  ∧ ∀ id, o = OpDelete id →
      persistence db' = persistence db
      ∧ (consistent db → native_store db →
         ∃ reopened, Restart db' = Ok reopened ∧ documents reopened = documents db).
Proof.
  intros _ Hrun. destruct (run_op_failed db db' env o Hrun) as (Hp & _ & Hpub & Hinv).
  do 2 (split; [done|]). split; [by rewrite Hp|].
  intros id _. split; [done|]. intros Hc _.
  unfold Restart. rewrite Hp. by apply consistent_Restart.
Qed.

Lemma opened_empty_consistent : consistent opened_empty.
Proof. split; simpl; try done. Qed.

Lemma opened_empty_plain : plain_store opened_empty.
Proof. split; [intros key d|intros id d]; simpl; by rewrite lookup_empty. Qed.

Lemma opened_empty_native : native_store opened_empty.
Proof. intros id d. simpl. by rewrite lookup_empty. Qed.

Lemma failed_mutation_announces_nothing_witness :
  let db := (run_op opened_empty (env_at "u1" 1 true true)
               (OpCreate "users" (Some {[ "name" := VString "Ana" ]}))).1 in
  ∃ db', run_op db (env_at "" 2 false true) (OpDelete "u1") = (db', false)
    ∧ documents db' !! "u1" = None
    ∧ lines (transactionLog (persistence db')) = lines (transactionLog (persistence db))
    ∧ ∃ reopened, Restart db' = Ok reopened
        ∧ documents reopened !! "u1"
          = Some {| ID := "u1"; Collection := "users";
                    Data := Some {[ "name" := VString "Ana" ]};
                    CreatedAt := 1; UpdatedAt := 1 |}.
Proof.
  cbv zeta.
  set (env := env_at "u1" 1 true true).
  set (o := OpCreate "users" (Some {[ "name" := VString "Ana" ]})).
  destruct (run_op opened_empty env o) as [db ok] eqn:Hcreate.
  assert (ok = true) as -> by (vm_compute in Hcreate; by injection Hcreate as _ <-).
  assert (Hplain : plain_store db).
  { apply (run_op_plain _ _ _ _ _ opened_empty_plain) in Hcreate; [done|].
    by split. }
  assert (Hnative : native_store db).
  { apply (run_op_native _ _ _ _ _ opened_empty_native) in Hcreate; [done|].
    repeat split. by apply singleton_native. }
  assert (Hc : consistent db).
  { exact (run_op_consistent opened_empty db env o opened_empty_consistent eq_refl Hcreate). }
  simpl.
  destruct (run_op db (env_at "" 2 false true) (OpDelete "u1")) as [db' ok] eqn:Hrun.
  assert (Hdb : documents db !! "u1"
                = Some {| ID := "u1"; Collection := "users";
                          Data := Some {[ "name" := VString "Ana" ]};
                          CreatedAt := 1; UpdatedAt := 1 |}).
  { vm_compute in Hcreate. by injection Hcreate as <-. }
  assert (ok = false ∧ documents db' !! "u1" = None) as [-> Hgone].
  { vm_compute in Hcreate. injection Hcreate as <-.
    vm_compute in Hrun. injection Hrun as <- <-. split; [reflexivity|by vm_compute]. }
  exists db'. split; [exact Hrun|]. split; [exact Hgone|].
  destruct (failed_mutation_announces_nothing db db' _ _ Hplain Hrun)
    as (_ & _ & Hlog & Hdelete).
  split; [by rewrite Hlog|].
  destruct (Hdelete "u1" eq_refl) as [_ Hre].
  destruct (Hre Hc Hnative) as (reopened & Hre' & Hdocs).
  exists reopened. split; [done|]. by rewrite Hdocs.
Defined.

(** ** Replaying the log *)

Lemma tx_effect_known (transaction : Transaction) :
  is_Some (tx_effect transaction)
  ↔ tx_Type transaction = TransactionCreate ∨ tx_Type transaction = TransactionUpdate
    ∨ tx_Type transaction = TransactionDelete.
Proof.
  unfold tx_effect.
  repeat (case_bool_decide || case_decide); simpl; split; intros Hk;
    try (by eexists); try tauto; try (by destruct Hk as [? [=]]).
Qed.

Lemma replay_Ok_iff (log : list Transaction) : ∀ m : gmap string Document,
  (∃ m', ReplayTransactions m log = Ok m')
  ↔ Forall (λ transaction, is_Some (tx_effect transaction)) log.
Proof.
  induction log as [|transaction rest IH]; intros m.
  - split; [constructor | by exists m].
  - rewrite replay_cons, Forall_cons.
    destruct (tx_effect transaction) as [e|].
    + rewrite IH. split; [by split | by intros [_ ?]].
    + split; [by intros [? ?] | by intros [[? ?] _]].
Qed.

(** Replaying a log on the map a replay of the same log produced changes
    nothing: a restart that follows a restart, with no operation in
    between, finds the same documents. *)
Theorem ReplayTransactions_idempotent (log : list Transaction)
    (m m' : gmap string Document) :
  ReplayTransactions m log = Ok m' → ReplayTransactions m' log = Ok m'.
Proof.
  intros Hr. destruct (replay_agree log m' m m' Hr) as (m'' & Hr' & Hagree).
  rewrite Hr'. f_equal. apply map_eq. intros i.
  destruct (decide (i ∈ touched log)) as [Hin|Hout]; [by apply Hagree|].
  by rewrite (replay_frame _ _ _ i Hr' Hout).
Qed.

Lemma ReplayTransactions_idempotent_witness :
  let log := [ {| tx_ID := "1"; tx_Type := TransactionCreate; tx_Timestamp := 1;
                  tx_DocID := "a"; tx_Document := Some (user "a" 30) |};
               {| tx_ID := "2"; tx_Type := TransactionDelete; tx_Timestamp := 2;
                  tx_DocID := "b"; tx_Document := None |} ] in
  let m : gmap string Document := {[ "b" := user "b" 20; "c" := user "c" 40 ]} in
  ReplayTransactions m log = Ok {[ "a" := user "a" 30; "c" := user "c" 40 ]}
  ∧ ReplayTransactions {[ "a" := user "a" 30; "c" := user "c" 40 ]} log
    = Ok {[ "a" := user "a" 30; "c" := user "c" 40 ]}.
Proof.
  cbv zeta.
  assert (H : ReplayTransactions {[ "b" := user "b" 20; "c" := user "c" 40 ]}
                [ {| tx_ID := "1"; tx_Type := TransactionCreate; tx_Timestamp := 1;
                     tx_DocID := "a"; tx_Document := Some (user "a" 30) |};
                  {| tx_ID := "2"; tx_Type := TransactionDelete; tx_Timestamp := 2;
                     tx_DocID := "b"; tx_Document := None |} ]
              = Ok {[ "a" := user "a" 30; "c" := user "c" 40 ]}).
  { by vm_compute. }
  split; [exact H|].
  exact (ReplayTransactions_idempotent _ _ _ H).
Defined.

Lemma foldl_insert_is_Some : ∀ (l : list ((string * string) * Document))
    (acc : gmap string Document) (k : string),
  is_Some (acc !! k) →
  is_Some (foldl (λ documents entry, <[ID entry.2 := entry.2]> documents) acc l !! k).
Proof.
  induction l as [|entry l IH]; intros acc k Hk; simpl; [done|].
  apply IH. destruct (decide (ID entry.2 = k)) as [<-|Hne].
  - rewrite lookup_insert_eq. by eexists.
  - by rewrite lookup_insert_ne.
Qed.

Lemma foldl_insert_elem : ∀ (l : list ((string * string) * Document))
    (acc : gmap string Document) (entry : (string * string) * Document),
  entry ∈ l →
  is_Some (foldl (λ documents entry, <[ID entry.2 := entry.2]> documents) acc l
           !! ID entry.2).
Proof.
  induction l as [|e l IH]; intros acc entry Hin; simpl.
  - by apply elem_of_nil in Hin.
  - apply elem_of_cons in Hin as [->|Hin]; [|by apply IH].
    apply foldl_insert_is_Some. rewrite lookup_insert_eq. by eexists.
Qed.

(** Every file is read by [LoadAllDocuments]: the id its content carries
    is in the map that is returned. *)
Lemma LoadAllDocuments_reads (pm : PersistenceManager) (key : string * string)
    (d : Document) :
  path_component key.1 = true → file_stem key.2 = true →
  files pm !! key = Some d → is_Some (PersistenceManager_LoadAllDocuments pm !! ID d).
Proof.
  intros Hc Hi Hfile.
  assert (Hin : (key, d) ∈ filter (λ entry, Is_true (loadable entry.1))
                             (dir_order (files pm))).
  { apply list_elem_of_filter. split.
    - unfold loadable. simpl. by rewrite Hc, Hi.
    - unfold dir_order. rewrite merge_sort_Permutation. by apply elem_of_map_to_list. }
  by apply (foldl_insert_elem _ ∅) in Hin.
Qed.

(** On a data directory whose document files all lie one directory below
    [collections/] under plain names, and whose files and log lines can
    all be read and decoded, opening a database succeeds exactly when
    every line of the log has one of the types create, update and delete.
    The map it builds takes, for every id some line of the log writes or
    deletes, what the log alone says (the document file of that id is
    overridden), and for every other id what [LoadAllDocuments] read: the
    content of a file that carries this id, and every file is read. *)
Theorem NewDatabaseWithPersistence_outcome (pm : PersistenceManager) :
  plain_dir pm →
  ((∃ db, NewDatabaseWithPersistence pm = Ok db)
   ↔ Forall (λ transaction,
               tx_Type transaction = TransactionCreate
               ∨ tx_Type transaction = TransactionUpdate
               ∨ tx_Type transaction = TransactionDelete)
            (lines (transactionLog pm)))
  ∧ (∀ db, NewDatabaseWithPersistence pm = Ok db →
      persistence db = pm ∧ persistenceEnabled db = true
      ∧ ∃ from_log, ReplayTransactions ∅ (lines (transactionLog pm)) = Ok from_log
          ∧ ∀ i, documents db !! i =
                   if decide (i ∈ touched (lines (transactionLog pm)))
                   then from_log !! i
                   else PersistenceManager_LoadAllDocuments pm !! i)
  ∧ (∀ i d, PersistenceManager_LoadAllDocuments pm !! i = Some d →
            ID d = i ∧ ∃ key, files pm !! key = Some d)
  ∧ (∀ key d, files pm !! key = Some d →
              is_Some (PersistenceManager_LoadAllDocuments pm !! ID d)).
Proof.
  intros Hplain. split; [|split; [|split]].
  - assert (Hk : Forall (λ transaction,
                           tx_Type transaction = TransactionCreate
                           ∨ tx_Type transaction = TransactionUpdate
                           ∨ tx_Type transaction = TransactionDelete)
                        (lines (transactionLog pm))
                 ↔ Forall (λ transaction, is_Some (tx_effect transaction))
                          (lines (transactionLog pm))).
    { apply Forall_iff. intros transaction. symmetry. apply tx_effect_known. }
    rewrite Hk. rewrite <-(replay_Ok_iff _ (PersistenceManager_LoadAllDocuments pm)).
    unfold NewDatabaseWithPersistence, ReadTransactions.
    destruct (ReplayTransactions _ _) as [docs|e|]; split; intros [x Hx];
      try done; by eexists.
  - intros db Hdb. unfold NewDatabaseWithPersistence, ReadTransactions in Hdb.
    destruct (ReplayTransactions (PersistenceManager_LoadAllDocuments pm) _)
      as [docs|e|] eqn:Hr; [|done..].
    injection Hdb as <-. simpl. do 2 (split; [done|]).
    destruct (replay_agree _ ∅ _ _ Hr) as (from_log & Hlog & Hagree).
    exists from_log. split; [done|]. intros i.
    case_decide as Hi; [symmetry; by apply Hagree|].
    by apply (replay_frame _ _ _ i Hr).
  - intros i d Hload. apply LoadAllDocuments_lookup in Hload as (key & Hfile & Hid).
    split; [done|]. by exists key.
  - intros key d Hfile. destruct (Hplain key d Hfile) as [Hc Hi].
    by apply (LoadAllDocuments_reads pm key).
Qed.

(** A directory with a file for [a] and one for [b], and a log whose one
    line updates [a]. *)
Definition dir_with_log : PersistenceManager :=
  {| files := {[ ("users", "a") := named "a" "users" "Ana";
                 ("users", "b") := named "b" "users" "Bo" ]};
     transactionLog :=
       {| lines := [ {| tx_ID := "1"; tx_Type := TransactionUpdate; tx_Timestamp := 1;
                        tx_DocID := "a"; tx_Document := Some (named "a" "users" "Anna") |} ];
          closed := false |} |}.

Lemma dir_with_log_plain : plain_dir dir_with_log.
Proof.
  intros key d. unfold dir_with_log. simpl.
  intros [[<- <-]|[_ [<- <-]%lookup_singleton_Some]]%lookup_insert_Some; done.
Qed.

Lemma NewDatabaseWithPersistence_outcome_witness :
  ∃ db, NewDatabaseWithPersistence dir_with_log = Ok db
    ∧ documents db !! "a" = Some (named "a" "users" "Anna")
    ∧ documents db !! "b" = Some (named "b" "users" "Bo").
Proof.
  destruct (NewDatabaseWithPersistence dir_with_log) as [db| |] eqn:Hdb;
    [|by vm_compute in Hdb..].
  exists db. split; [done|].
  destruct (proj1 (proj2 (NewDatabaseWithPersistence_outcome dir_with_log
                            dir_with_log_plain)) db Hdb)
    as (_ & _ & from_log & Hlog & Hdocs).
  rewrite !Hdocs. vm_compute in Hlog. injection Hlog as <-.
  split; by vm_compute.
Defined.

(** ** Gossip: messages that are dropped, and what reaches the disk *)

(** A gossiped message changes nothing at all when it comes from the node
    itself, does not decode, names an operation other than create, update
    and delete, is a create or update without a document, or is a delete
    with an empty id. *)
Theorem gossip_dropped_messages (s : DBSync) (db : Database) (io : IO)
    (from : string) (payload : option DBMessage) :
  from = nodeID s
  ∨ payload = None
  ∨ (∃ dbMsg, payload = Some dbMsg
       ∧ ((msg_Operation dbMsg ≠ OperationCreate ∧ msg_Operation dbMsg ≠ OperationUpdate
           ∧ msg_Operation dbMsg ≠ OperationDelete)
          ∨ (msg_Operation dbMsg ≠ OperationDelete ∧ msg_Document dbMsg = None)
          ∨ (msg_Operation dbMsg = OperationDelete ∧ msg_DocumentID dbMsg = ""))) →
  DBSync_listenForUpdates s db io from payload = db.
Proof.
  unfold DBSync_listenForUpdates.
  intros [Hself|[->|(dbMsg & -> & Hmsg)]].
  - by rewrite decide_True.
  - by case_decide.
  - case_decide; [done|].
    destruct Hmsg as [(H1 & H2 & H3)|[[H1 H2]|[H1 H2]]].
    + by rewrite !decide_False.
    + rewrite H2. by repeat case_decide.
    + rewrite H1. simpl. by rewrite decide_True.
Qed.

Lemma gossip_dropped_messages_witness :
  DBSync_listenForUpdates node_A ana_db (mkIO true true 0) "A"
    (Some (remote_update (stamped "u1" 99 50))) = ana_db.
Proof.
  apply gossip_dropped_messages. by left.
Defined.

(** A gossiped create is written to disk like a local one: on a store
    whose disk agrees with its map, once the file and the log line are
    written, the disk agrees with the new map, so the document survives a
    restart. *)
Theorem gossip_create_is_durable (s : DBSync) (db : Database) (io : IO)
    (from : string) (d : Document) :
  consistent db → from ≠ nodeID s → file_ok io = true → log_ok io = true →
  let db' := DBSync_listenForUpdates s db io from (Some (remote_create d)) in
  consistent db'
  ∧ ∃ reopened, Restart db' = Ok reopened
      ∧ documents reopened = <[ID d := d]> (documents db).
Proof.
  intros Hc Hfrom Hfile Hlog. cbv zeta.
  pose proof Hc as [He Ho Hk Hr Hf].
  assert (Hstep : consistent
            (DBSync_listenForUpdates s db io from (Some (remote_create d)))).
  { unfold DBSync_listenForUpdates. rewrite decide_False by done. simpl.
    rewrite He. unfold PersistenceManager_SaveDocument. rewrite Hfile. simpl.
    rewrite (LogOperation_written _ _ _ _ _ Ho Hlog) by auto.
    apply (consistent_step db (<[ID d := d]> (documents db))
             (<[(Collection d, ID d) := d]> (files (persistence db)))
             {| tx_ID := pretty (clock io); tx_Type := OperationCreate;
                tx_Timestamp := clock io; tx_DocID := ID d; tx_Document := Some d |}
             (Put d) Hc); [reflexivity | reflexivity | | | done..].
    - intros id d'. intros [[<- <-]|[_ Hd]]%lookup_insert_Some; [done|by apply Hk].
    - intros key d' [[_ <-]|[_ Hd]]%lookup_insert_Some; [right; set_solver | by left]. }
  split; [done|].
  destruct (consistent_Restart _ Hstep) as (reopened & Hre & Hdocs).
  exists reopened. split; [done|]. rewrite Hdocs.
  apply gossip_upsert with (dbMsg := remote_create d); auto.
Qed.

Lemma gossip_create_is_durable_witness :
  ∃ reopened,
    Restart (DBSync_listenForUpdates node_A opened_empty (mkIO true true 3) "B"
               (Some (remote_create (user "y" 30)))) = Ok reopened
    ∧ documents reopened = <["y" := user "y" 30]> ∅.
Proof.
  exact (proj2 (gossip_create_is_durable node_A opened_empty (mkIO true true 3) "B"
                  (user "y" 30) opened_empty_consistent
                  ltac:(discriminate) eq_refl eq_refl)).
Defined.

(** A gossiped update for a document that has no file (an id this node
    never stored, or a known id under another collection), on a store
    whose files are plainly named and for a document that is plainly
    named, is put in the map, but the persistence step refuses it and its
    error is only logged: no file and no log line are written.  On a
    store whose disk agreed with its map, a restart therefore gives back
    the map as it was before the message. *)
Theorem gossip_update_without_file_is_volatile (s : DBSync) (db : Database) (io : IO)
    (from : string) (d : Document) :
  from ≠ nodeID s →
  plain_dir (persistence db) →
  path_component (Collection d) = true → file_stem (ID d) = true →
  files (persistence db) !! (Collection d, ID d) = None →
  let db' := DBSync_listenForUpdates s db io from (Some (remote_update d)) in
  documents db' = <[ID d := d]> (documents db)
  ∧ persistence db' = persistence db
  ∧ (consistent db → native_store db →
     ∃ reopened, Restart db' = Ok reopened ∧ documents reopened = documents db).
Proof.
  intros Hfrom _ _ _ Hfile. cbv zeta.
  split; [apply gossip_upsert with (dbMsg := remote_update d); auto|].
  assert (Hp : persistence (DBSync_listenForUpdates s db io from (Some (remote_update d)))
               = persistence db).
  { unfold DBSync_listenForUpdates. rewrite decide_False by done. simpl.
    destruct (persistenceEnabled db); [|done].
    unfold PersistenceManager_UpdateDocument. rewrite Hfile. simpl.
    by destruct (persistence db). }
  split; [done|]. intros Hc _. unfold Restart. rewrite Hp. by apply consistent_Restart.
Qed.

Lemma gossip_update_without_file_is_volatile_witness :
  let db' := DBSync_listenForUpdates node_A opened_empty (mkIO true true 3) "B"
               (Some (remote_update (named "y" "users" "Yara"))) in
  documents db' !! "y" = Some (named "y" "users" "Yara")
  ∧ persistence db' = empty_dir
  ∧ ∃ reopened, Restart db' = Ok reopened ∧ documents reopened = ∅.
Proof.
  cbv zeta.
  destruct (gossip_update_without_file_is_volatile node_A opened_empty (mkIO true true 3)
              "B" (named "y" "users" "Yara") ltac:(discriminate)
              (p_files _ opened_empty_plain) eq_refl eq_refl eq_refl)
    as (Hdocs & Hp & Hre).
  split; [by rewrite Hdocs|]. split; [exact Hp|].
  exact (Hre opened_empty_consistent opened_empty_native).
Defined.

(** ** Sync responses: a document whose id is not known *)

(** A document of a sync response whose id the node does not hold is
    handed to Create: it is stored under a newly generated id, with the
    local clock in both timestamps, keeping only its collection and
    data.  Unless the generated id happens to be the sender's, the
    sender's id is still unknown afterwards, so the same document
    received again is stored once more. *)
Theorem sync_response_document_gets_new_id (sm : SyncManager) (env : Env)
    (doc : Document) :
  documents (database sm) !! ID doc = None →
  ∃ sm', handleSyncDocument sm env doc = Ok sm'
    ∧ documents (database sm')
      = <[uuid_New env := created env (Collection doc) (Data doc)]>
          (documents (database sm))
    ∧ (uuid_New env ≠ ID doc → documents (database sm') !! ID doc = None)
    ∧ syncStats sm' = syncStats sm.
Proof.
  intros Hnone. unfold handleSyncDocument, Database_GetDocument. rewrite Hnone.
  assert (Hcreate : ∃ db' r,
            Database_CreateDocument (database sm) env (Collection doc) (Data doc) = (db', r)
            ∧ r ≠ Panic
            ∧ documents db' = <[uuid_New env := created env (Collection doc) (Data doc)]>
                                (documents (database sm))).
  { unfold Database_CreateDocument. simpl.
    fold (created env (Collection doc) (Data doc)).
    destruct (persistenceEnabled (database sm)).
    - unfold PersistenceManager_SaveDocument. destruct (file_ok (disk env)); simpl.
      + do 2 eexists. split; [reflexivity|]. split; [done|].
        by rewrite (proj1 (notify_frame _ _ _ _)).
      + do 2 eexists. split; [reflexivity|]. done.
    - simpl. do 2 eexists. split; [reflexivity|]. split; [done|].
      by rewrite (proj1 (notify_frame _ _ _ _)). }
  destruct Hcreate as (db' & r & -> & Hr & Hdocs).
  exists {| hostID := hostID sm; database := db'; syncStats := syncStats sm |}.
  split; [by destruct r|]. simpl. split; [done|]. split; [|done].
  intros Hne. by rewrite Hdocs, lookup_insert_ne.
Qed.

Lemma sync_response_document_gets_new_id_witness :
  ∃ sm', handleSyncDocument (sync_node NewDatabase) (env_at "fresh-1" 12 true true)
           (stamped "x" 20 5) = Ok sm'
    ∧ documents (database sm') !! "x" = None
    ∧ documents (database sm') !! "fresh-1"
      = Some {| ID := "fresh-1"; Collection := "users";
                Data := Some {[ "age" := VInt 20 ]}; CreatedAt := 12; UpdatedAt := 12 |}.
Proof.
  destruct (sync_response_document_gets_new_id (sync_node NewDatabase)
              (env_at "fresh-1" 12 true true) (stamped "x" 20 5) eq_refl)
    as (sm' & Hres & Hdocs & Hx & _).
  exists sm'. split; [exact Hres|]. split; [by apply Hx|].
  by rewrite Hdocs.
Defined.

(** * Further properties of queries *)

Section ExecuteProperties.
Variable Sprintf_v : value → string.
Variable regexp_MatchString : string → string → option bool.

Local Abbreviation matches := (matchesCondition Sprintf_v regexp_MatchString).
Local Abbreviation filter_docs' := (filter_docs Sprintf_v regexp_MatchString).
Local Abbreviation Execute := (Query_Execute Sprintf_v regexp_MatchString).

Lemma filter_docs_elem (q : Query) : ∀ (docs results : list Document),
  filter_docs' q docs = Ok results →
  ∀ d, d ∈ results ↔ d ∈ docs ∧ matches (data_of d) (q_Condition q) = Ok true.
Proof.
  induction docs as [|doc rest IH]; intros results Hf d; simpl in Hf.
  - simplify_eq. set_solver.
  - destruct (matches (data_of doc) (q_Condition q)) as [keep| |] eqn:Hdoc; [|done..].
    destruct (filter_docs' q rest) as [rs| |] eqn:Hrest; [|done..].
    injection Hf as <-. specialize (IH rs eq_refl d).
    destruct keep.
    + rewrite !elem_of_cons, IH. split; [|naive_solver].
      intros [->|[? ?]]; [by split; [left|] | by split; [right|]].
    + rewrite elem_of_cons, IH. split; [naive_solver|].
      intros [[->|?] Hm]; [congruence | done].
Qed.

Lemma filter_docs_Ok_iff (q : Query) (docs : list Document) :
  (∃ results, filter_docs' q docs = Ok results)
  ↔ ∀ d, d ∈ docs → ∃ b, matches (data_of d) (q_Condition q) = Ok b.
Proof.
  induction docs as [|doc rest IH]; simpl.
  - split; [intros _ d Hd; by apply elem_of_nil in Hd | by eexists].
  - split.
    + intros [results Hf] d Hd.
      destruct (matches (data_of doc) (q_Condition q)) as [keep| |] eqn:Hdoc; [|done..].
      destruct (filter_docs' q rest) as [rs| |] eqn:Hrest; [|done..].
      apply elem_of_cons in Hd as [->|Hd]; [by eexists|].
      apply (proj1 IH); [by eexists | done].
    + intros Hall. destruct (Hall doc) as [b ->]; [by left|].
      destruct (proj2 IH) as [rs ->]; [|by eexists].
      intros d Hd. apply Hall. by right.
Qed.

Lemma sortDocuments_elem (q : Query) (results : list Document) (d : Document) :
  d ∈ filtered_sorted Sprintf_v q results ↔ d ∈ results.
Proof.
  unfold filtered_sorted. destruct (0 <? _)%nat; [|done].
  unfold sortDocuments. destruct (Sort (Options q)); [done|].
  by rewrite sort_outer_Permutation.
Qed.

Lemma paginate_subseteq (q : Query) (l : list Document) : paginate q l ⊆ l.
Proof.
  unfold paginate.
  destruct (_ && _), (_ && _); try done;
    eauto using subseteq_take, subseteq_drop.
  etransitivity; [apply subseteq_take | apply subseteq_drop].
Qed.

Lemma paginate_length (q : Query) (l : list Document) :
  (0 < Limit (Options q))%Z →
  (Z.of_nat (List.length (paginate q l)) ≤ Limit (Options q))%Z.
Proof.
  intros Hlimit. unfold paginate. cbv zeta.
  rewrite (bool_decide_eq_true_2 _ Hlimit). simpl.
  case_bool_decide as Hlen; [|lia].
  rewrite length_take. lia.
Qed.

Lemma paginate_whole (q : Query) (l : list Document) :
  (Skip (Options q) ≤ 0)%Z → (Limit (Options q) ≤ 0)%Z → paginate q l = l.
Proof.
  intros Hskip Hlimit. unfold paginate.
  rewrite (bool_decide_eq_false_2 (0 < Skip (Options q))%Z) by lia.
  by rewrite (bool_decide_eq_false_2 (0 < Limit (Options q))%Z) by lia.
Qed.

(** [Execute] returns a result exactly when the condition can be
    evaluated on every document of the collection: one document on which
    it panics makes the whole query panic.  Every document it returns is a
    stored document of the queried collection on which the condition
    holds; with a positive limit it returns at most [limit] documents; and
    when neither skip nor limit is set (both zero or negative) every
    stored document of the collection on which the condition holds is
    returned. *)
Theorem Execute_returns_matching (q : Query) (db : Database) :
  ((∃ results, Execute q db = Ok results)
   ↔ ∀ d, d ∈ Database_GetAllDocuments db (q_Collection q) →
          ∃ b, matches (data_of d) (q_Condition q) = Ok b)
  ∧ ∀ results, Execute q db = Ok results →
      (∀ d, d ∈ results →
         Collection d = q_Collection q ∧ (∃ id, documents db !! id = Some d)
         ∧ matches (data_of d) (q_Condition q) = Ok true)
      ∧ ((0 < Limit (Options q))%Z →
         (Z.of_nat (List.length results) ≤ Limit (Options q))%Z)
      ∧ ((Skip (Options q) ≤ 0)%Z → (Limit (Options q) ≤ 0)%Z →
         ∀ d, Collection d = q_Collection q → (∃ id, documents db !! id = Some d) →
              matches (data_of d) (q_Condition q) = Ok true → d ∈ results).
Proof.
  unfold Query_Execute, Execute_docs. split.
  - rewrite <-filter_docs_Ok_iff.
    destruct (filter_docs' q _) as [rs| |]; split; intros [x Hx]; try done; by eexists.
  - intros results Hex.
    destruct (filter_docs' q _) as [rs| |] eqn:Hf; [|done..].
    injection Hex as <-. fold (filtered_sorted Sprintf_v q rs).
    pose proof (filter_docs_elem q _ _ Hf) as Helem.
    split; [|split].
    + intros d Hd. apply paginate_subseteq, sortDocuments_elem, Helem in Hd as [Hd Hm].
      apply GetAllDocuments_elem in Hd as [Hc Hid]. done.
    + apply paginate_length.
    + intros Hskip Hlimit d Hc Hid Hm. rewrite paginate_whole by done.
      apply sortDocuments_elem, Helem. split; [|done].
      by apply GetAllDocuments_elem.
Qed.

(** A query whose condition was never set (as [NewQuery] leaves it), or
    is of a type [matchesCondition] does not know, matches no document:
    [Execute] returns the empty list whatever the collection holds. *)
Theorem query_without_condition_is_empty (q : Query) (db : Database) :
  q_Condition q = CondOther → Execute q db = Ok [].
Proof.
  intros Hc. unfold Query_Execute, Execute_docs.
  assert (Hf : ∀ docs, filter_docs' q docs = Ok []).
  { induction docs as [|doc rest IH]; simpl; [done|]. rewrite Hc. simpl. by rewrite IH. }
  assert (Hp : paginate q [] = []).
  { destruct (paginate q []) as [|d l] eqn:Hp; [done|].
    pose proof (paginate_subseteq q [] d) as Hd. rewrite Hp in Hd.
    specialize (Hd ltac:(left)). by apply elem_of_nil in Hd. }
  rewrite Hf. unfold sortDocuments.
  destruct (0 <? _)%nat; [destruct (Sort (Options q))|]; simpl; by rewrite Hp.
Qed.

(** [Sort] appends its option to the list, and [sortDocuments] reads the
    first option only: on a query that already has a sort option, one
    more call of [Sort] changes nothing in what [Execute] returns. *)
Theorem Execute_ignores_secondary_sort (q : Query) (db : Database)
    (field direction : string) :
  Sort (Options q) ≠ [] →
  Execute (Query_Sort q field direction) db = Execute q db.
Proof.
  intros Hsort. unfold Query_Execute, Execute_docs, Query_Sort. simpl.
  assert (Hf : ∀ docs, filter_docs' (set_Options q
                 {| Skip := Skip (Options q); Limit := Limit (Options q);
                    Sort := (Sort (Options q)
                             ++ [ {| so_Field := field; so_Direction := direction |} ])%list |})
                 docs = filter_docs' q docs).
  { induction docs as [|doc rest IH]; simpl; [done|]. by rewrite IH. }
  rewrite Hf. destruct (filter_docs' q _) as [rs| |]; [|done..].
  unfold sortDocuments, paginate. simpl.
  destruct (Sort (Options q)) as [|o rest]; done.
Qed.

Lemma all_match_true (rs : list (result bool)) :
  all_match rs = Ok true ↔ ∀ r, r ∈ rs → r = Ok true.
Proof.
  induction rs as [|r rest IH]; simpl; [set_solver|].
  destruct r as [[]| |]; rewrite ?IH; set_solver.
Qed.

Lemma any_match_false (rs : list (result bool)) :
  any_match rs = Ok false ↔ ∀ r, r ∈ rs → r = Ok false.
Proof.
  induction rs as [|r rest IH]; simpl; [set_solver|].
  destruct r as [[]| |]; rewrite ?IH; set_solver.
Qed.

Lemma all_match_decided (pre : list (result bool)) (r : result bool)
    (rest : list (result bool)) :
  (∀ p, p ∈ pre → p = Ok true) → r ≠ Ok true → all_match (pre ++ r :: rest) = r.
Proof.
  intros Hpre Hr. induction pre as [|p pre IH]; simpl.
  - by destruct r as [[]| |].
  - rewrite (Hpre p) by left. apply IH. intros q Hq. apply Hpre. by right.
Qed.

Lemma any_match_decided (pre : list (result bool)) (r : result bool)
    (rest : list (result bool)) :
  (∀ p, p ∈ pre → p = Ok false) → r ≠ Ok false → any_match (pre ++ r :: rest) = r.
Proof.
  intros Hpre Hr. induction pre as [|p pre IH]; simpl.
  - by destruct r as [[]| |].
  - rewrite (Hpre p) by left. apply IH. intros q Hq. apply Hpre. by right.
Qed.

(** The logical conditions on one document.  [and] holds exactly when
    every sub-condition holds (so it holds on an empty list); otherwise
    its result is that of the first sub-condition that does not hold,
    wherever it stands, and the ones after it are not looked at: false as
    soon as one is false, a panic or an error if that comes first.  [or]
    is false exactly when every sub-condition is false (so it is false on
    an empty list); otherwise its result is that of the first
    sub-condition that is not false: true as soon as one is true.  [not]
    negates its first sub-condition, ignores any other and is false on an
    empty list; any other operator is false. *)
Theorem logical_conditions (data : gmap string value) (cs : list condition) :
  (matches data (CondLogical LogicalAND cs) = Ok true
   ↔ ∀ c, c ∈ cs → matches data c = Ok true)
  ∧ (∀ pre c rest, cs = (pre ++ c :: rest)%list →
       (∀ p, p ∈ pre → matches data p = Ok true) →
       matches data c ≠ Ok true →
       matches data (CondLogical LogicalAND cs) = matches data c)
  ∧ (matches data (CondLogical LogicalOR cs) = Ok false
     ↔ ∀ c, c ∈ cs → matches data c = Ok false)
  ∧ (∀ pre c rest, cs = (pre ++ c :: rest)%list →
       (∀ p, p ∈ pre → matches data p = Ok false) →
       matches data c ≠ Ok false →
       matches data (CondLogical LogicalOR cs) = matches data c)
  ∧ (∀ c rest b, cs = c :: rest → matches data c = Ok b →
       matches data (CondLogical LogicalNOT cs) = Ok (negb b))
  ∧ (cs = [] → matches data (CondLogical LogicalNOT cs) = Ok false)
  ∧ (∀ operator, operator ≠ LogicalAND → operator ≠ LogicalOR → operator ≠ LogicalNOT →
       matches data (CondLogical operator cs) = Ok false).
Proof.
  simpl. unfold logical. simpl.
  split; [|split; [|split; [|split; [|split; [|split]]]]].
  - rewrite all_match_true. setoid_rewrite list_elem_of_fmap. naive_solver.
  - intros pre c rest -> Hpre Hc. rewrite map_app. simpl.
    apply all_match_decided; [|done].
    intros p [x [<- Hx]]%list_elem_of_In%in_map_iff.
    apply Hpre. by apply list_elem_of_In.
  - rewrite any_match_false. setoid_rewrite list_elem_of_fmap. naive_solver.
  - intros pre c rest -> Hpre Hc. rewrite map_app. simpl.
    apply any_match_decided; [|done].
    intros p [x [<- Hx]]%list_elem_of_In%in_map_iff.
    apply Hpre. by apply list_elem_of_In.
  - intros c rest b -> Hc. simpl. by rewrite Hc.
  - by intros ->.
  - intros operator H1 H2 H3. by rewrite !decide_False.
Qed.

(** On two ints the six comparison operators are the comparisons of the
    integers, [in] is membership among the ints of the list and [nin] its
    negation. *)
Theorem int_operators (field : string) (x y : Z) (ys : list Z) :
  let on operator v :=
    matchesOperator Sprintf_v regexp_MatchString (VInt x)
      {| Field := field; Operator := operator; Value := v |} in
  on OperatorEQ (VInt y) = bool_decide (x = y)
  ∧ on OperatorNE (VInt y) = bool_decide (x ≠ y)
  ∧ on OperatorGT (VInt y) = bool_decide (y < x)%Z
  ∧ on OperatorGTE (VInt y) = bool_decide (y ≤ x)%Z
  ∧ on OperatorLT (VInt y) = bool_decide (x < y)%Z
  ∧ on OperatorLTE (VInt y) = bool_decide (x ≤ y)%Z
  ∧ on OperatorIN (VArray (VInt <$> ys)) = bool_decide (x ∈ ys)
  ∧ on OperatorNIN (VArray (VInt <$> ys)) = bool_decide (x ∉ ys).
Proof.
  cbv zeta.
  assert (Hcmp : ∀ z, compareValues Sprintf_v (VInt x) (VInt z)
                      = three_way (x <? z)%Z (z <? x)%Z) by done.
  assert (Hin : existsb (λ v, bool_decide (compareValues Sprintf_v (VInt x) v = 0%Z))
                  (VInt <$> ys) = bool_decide (x ∈ ys)).
  { induction ys as [|z zs IH].
    - symmetry. apply bool_decide_eq_false_2. set_solver.
    - rewrite fmap_cons. cbn [existsb]. rewrite IH, Hcmp. unfold three_way.
      destruct (x <? z)%Z eqn:H1; [|destruct (z <? x)%Z eqn:H2];
        repeat case_bool_decide; simpl; try done; set_solver by lia. }
  unfold matchesOperator. simpl. rewrite Hin, !Hcmp. unfold three_way.
  destruct (x <? y)%Z eqn:H1; [|destruct (y <? x)%Z eqn:H2];
    repeat split; repeat case_bool_decide; simpl; try done; try lia; try set_solver.
Qed.
End ExecuteProperties.

Lemma Execute_returns_matching_witness :
  ∃ results,
    Query_Execute (λ _, "") (λ _ _, None) (by_age SortDescending 0 2)
      (holding [user "a" 1; user "b" 2; user "c" 3]) = Ok results
    ∧ (Z.of_nat (List.length results) ≤ 2)%Z
    ∧ ∀ d, d ∈ results → Collection d = "users".
Proof.
  destruct (Query_Execute (λ _, "") (λ _ _, None) (by_age SortDescending 0 2)
              (holding [user "a" 1; user "b" 2; user "c" 3])) as [results| |] eqn:Hex;
    [|by vm_compute in Hex..].
  exists results. split; [done|].
  destruct (proj2 (Execute_returns_matching (λ _, "") (λ _ _, None)
                     (by_age SortDescending 0 2)
                     (holding [user "a" 1; user "b" 2; user "c" 3])) results Hex)
    as (Helem & Hlen & _).
  split; [apply Hlen; by vm_compute|].
  intros d Hd. by destruct (Helem d Hd).
Defined.

Lemma query_without_condition_is_empty_witness :
  q_Condition (Query_Limit (Query_Sort (NewQuery "users") "age" SortAscending) 10)
  = CondOther
  ∧ Query_Execute (λ _, "") (λ _ _, None)
      (Query_Limit (Query_Sort (NewQuery "users") "age" SortAscending) 10)
      (holding [user "a" 1; user "b" 2]) = Ok [].
Proof.
  split; [reflexivity|].
  exact (query_without_condition_is_empty (λ _, "") (λ _ _, None)
           (Query_Limit (Query_Sort (NewQuery "users") "age" SortAscending) 10)
           (holding [user "a" 1; user "b" 2]) eq_refl).
Defined.

Lemma Execute_ignores_secondary_sort_witness :
  Sort (Options (by_age SortAscending 0 0)) ≠ []
  ∧ Query_Execute (λ _, "") (λ _ _, None)
      (Query_Sort (by_age SortAscending 0 0) "name" SortDescending)
      (holding [user "a" 2; user "b" 1])
    = Ok [user "b" 1; user "a" 2].
Proof.
  assert (H : Sort (Options (by_age SortAscending 0 0)) ≠ []) by done.
  split; [exact H|].
  rewrite (Execute_ignores_secondary_sort (λ _, "") (λ _ _, None)
             (by_age SortAscending 0 0) (holding [user "a" 2; user "b" 1])
             "name" SortDescending H).
  by vm_compute.
Defined.

Definition age_is (operator : string) (n : Z) : condition :=
  CondQuery {| Field := "age"; Operator := operator; Value := VInt n |}.

Lemma logical_conditions_witness :
  let matches := matchesCondition (λ _, "") (λ _ _, None) {[ "age" := VInt 30 ]} in
  let broken := CondQuery {| Field := "age"; Operator := OperatorEXISTS;
                             Value := VString "yes" |} in
  matches (age_is OperatorGT 18) = Ok true
  ∧ matches (age_is OperatorLT 25) = Ok false
  ∧ matches broken = Panic
  ∧ matches (CondLogical LogicalAND [age_is OperatorGT 18; age_is OperatorLT 25; broken])
    = Ok false
  ∧ matches (CondLogical LogicalOR [age_is OperatorLT 25; age_is OperatorGT 18; broken])
    = Ok true
  ∧ matches (CondLogical LogicalAND [age_is OperatorGT 18; broken; age_is OperatorLT 25])
    = Panic.
Proof.
  cbv zeta.
  split; [reflexivity|]. split; [reflexivity|]. split; [reflexivity|].
  split; [|split].
  - etrans; [apply (proj1 (proj2 (logical_conditions (λ _, "") (λ _ _, None) {[ "age" := VInt 30 ]}
                           [age_is OperatorGT 18; age_is OperatorLT 25;
                            CondQuery {| Field := "age"; Operator := OperatorEXISTS;
                                         Value := VString "yes" |}]))
             [age_is OperatorGT 18] (age_is OperatorLT 25)
             [CondQuery {| Field := "age"; Operator := OperatorEXISTS;
                           Value := VString "yes" |}] eq_refl)|reflexivity].
    + intros p Hp. apply list_elem_of_In in Hp. simpl in Hp.
      destruct Hp as [<-|[]]. reflexivity.
    + discriminate.
  - etrans; [apply (proj1 (proj2 (proj2 (proj2
             (logical_conditions (λ _, "") (λ _ _, None) {[ "age" := VInt 30 ]}
                [age_is OperatorLT 25; age_is OperatorGT 18;
                 CondQuery {| Field := "age"; Operator := OperatorEXISTS;
                              Value := VString "yes" |}]))))
             [age_is OperatorLT 25] (age_is OperatorGT 18)
             [CondQuery {| Field := "age"; Operator := OperatorEXISTS;
                           Value := VString "yes" |}] eq_refl)|reflexivity].
    + intros p Hp. apply list_elem_of_In in Hp. simpl in Hp.
      destruct Hp as [<-|[]]. reflexivity.
    + discriminate.
  - etrans; [apply (proj1 (proj2 (logical_conditions (λ _, "") (λ _ _, None) {[ "age" := VInt 30 ]}
                           [age_is OperatorGT 18;
                            CondQuery {| Field := "age"; Operator := OperatorEXISTS;
                                         Value := VString "yes" |};
                            age_is OperatorLT 25]))
             [age_is OperatorGT 18]
             (CondQuery {| Field := "age"; Operator := OperatorEXISTS;
                           Value := VString "yes" |})
             [age_is OperatorLT 25] eq_refl)|reflexivity].
    + intros p Hp. apply list_elem_of_In in Hp. simpl in Hp.
      destruct Hp as [<-|[]]. reflexivity.
    + discriminate.
Defined.

(** * Further properties of indexes *)

Section MoreIndexProperties.
Variable Sprintf_v : value → string.

Local Abbreviation AddDocument := (Index_AddDocument Sprintf_v).
Local Abbreviation UpdateDocument := (Index_UpdateDocument Sprintf_v).
Local Abbreviation indexValue := (getIndexValue Sprintf_v).

(** The ids the index holds under [key]. *)
Definition ids_at (idx : Index) (key : string) : list string :=
  default [] (idx_Data idx !! key).

Lemma RemoveDocument_lookup (idx : Index) (now : Z) (docID key : string) :
  idx_Data (Index_RemoveDocument idx now docID) !! key =
    match idx_Data idx !! key with
    | Some ids =>
        if bool_decide (List.length (filter (λ id, id ≠ docID) ids) = 0%nat)
        then None else Some (filter (λ id, id ≠ docID) ids)
    | None => None
    end.
Proof.
  unfold Index_RemoveDocument. simpl. rewrite lookup_omap.
  by destruct (idx_Data idx !! key).
Qed.

Lemma RemoveDocument_ids_at (idx : Index) (now : Z) (docID key : string) :
  ids_at (Index_RemoveDocument idx now docID) key
  = filter (λ id, id ≠ docID) (ids_at idx key).
Proof.
  unfold ids_at. rewrite RemoveDocument_lookup.
  destruct (idx_Data idx !! key) as [ids|]; [|done]. simpl.
  case_bool_decide as Hlen; [|done]. simpl.
  by destruct (filter _ ids).
Qed.

Lemma Search_elem (idx : Index) (key id : string) :
  id ∈ Index_Search idx key → ∃ k, id ∈ ids_at idx k.
Proof.
  unfold Index_Search, ids_at.
  destruct (idx_Data idx !! key) as [ids|] eqn:Hkey.
  - intros Hid. exists key. by rewrite Hkey.
  - case_decide; [|by intros ?%elem_of_nil].
    intros Hid. apply list_elem_of_In, in_concat in Hid as (l & Hl & Hid).
    apply in_map_iff in Hl as ([k ids] & <- & Hentry).
    apply list_elem_of_In, elem_of_map_to_list in Hentry.
    apply list_elem_of_In in Hid. simpl in Hid.
    destruct (strings_Contains k key); [|by apply elem_of_nil in Hid].
    exists k. by rewrite Hentry.
Qed.

(** After [RemoveDocument] of an id, no search, exact or partial,
    returns it; every other id stays under the values it was under, in
    the same order; and no value is left with an empty list of ids. *)
Theorem RemoveDocument_forgets (idx : Index) (now : Z) (docID : string) :
  let idx' := Index_RemoveDocument idx now docID in
  (∀ key, docID ∉ Index_Search idx' key)
  ∧ (∀ key, ids_at idx' key = filter (λ id, id ≠ docID) (ids_at idx key))
  ∧ (∀ key ids, idx_Data idx' !! key = Some ids → ids ≠ []).
Proof.
  cbv zeta. split; [|split].
  - intros key [k Hk]%Search_elem. rewrite RemoveDocument_ids_at in Hk.
    apply list_elem_of_filter in Hk. naive_solver.
  - intros key. apply RemoveDocument_ids_at.
  - intros key ids. rewrite RemoveDocument_lookup.
    destruct (idx_Data idx !! key) as [old|]; [|done].
    case_bool_decide as Hlen; [done|]. intros [= <-] Hnil.
    by rewrite Hnil in Hlen.
Qed.

Lemma getIndexValue_fields (idx idx' : Index) (doc : Document) :
  idx_Fields idx' = idx_Fields idx → indexValue idx' doc = indexValue idx doc.
Proof. unfold getIndexValue. by intros ->. Qed.

Lemma AddDocument_cases (idx : Index) (now : Z) (doc : Document) (key : string) :
  indexValue idx doc = Ok key →
  (idx_Unique idx = true ∧ ids_at idx key ≠ []
   ∧ AddDocument idx now doc = (idx, Err (ErrIndiceUnico key)))
  ∨ ((idx_Unique idx = false ∨ ids_at idx key = [])
     ∧ ∃ idx', AddDocument idx now doc = (idx', Ok tt)
         ∧ idx_Fields idx' = idx_Fields idx ∧ idx_Unique idx' = idx_Unique idx
         ∧ idx_Type idx' = idx_Type idx ∧ idx_Collection idx' = idx_Collection idx
         ∧ idx_Data idx' =
             <[key := if bool_decide (ID doc ∈ ids_at idx key) then ids_at idx key
                      else (ids_at idx key ++ [ID doc])%list]> (idx_Data idx)).
Proof.
  intros Hkey. unfold Index_AddDocument, ids_at. rewrite Hkey.
  destruct (idx_Unique idx) eqn:Hu; simpl.
  - destruct (default [] (idx_Data idx !! key)) as [|id ids] eqn:Hids; simpl.
    + right. split; [by right|]. eexists. split; [reflexivity|]. done.
    + left. done.
  - right. split; [by left|]. case_bool_decide; eexists; (split; [reflexivity|]); done.
Qed.

Lemma ids_at_Search (idx : Index) (key id : string) :
  id ∈ ids_at idx key → id ∈ Index_Search idx key.
Proof.
  unfold Index_Search, ids_at.
  destruct (idx_Data idx !! key); [done|]. by intros ?%elem_of_nil.
Qed.

Lemma AddDocument_Ok_ids (idx idx' : Index) (now : Z) (doc : Document) :
  AddDocument idx now doc = (idx', Ok tt) →
  ∃ key, indexValue idx doc = Ok key
    ∧ idx_Fields idx' = idx_Fields idx ∧ idx_Unique idx' = idx_Unique idx
    ∧ idx_Collection idx' = idx_Collection idx
    ∧ ∀ k id, id ∈ ids_at idx' k ↔ id ∈ ids_at idx k ∨ (k = key ∧ id = ID doc).
Proof.
  intros Hadd.
  destruct (indexValue idx doc) as [key| |] eqn:Hkey;
    [|unfold Index_AddDocument in Hadd; rewrite Hkey in Hadd; done..].
  destruct (AddDocument_cases idx now doc key Hkey)
    as [(_ & _ & Herr)|(Hfree & idx1 & Hok & Hf & Hu & _ & Hc & Hdata)];
    [congruence|].
  rewrite Hok in Hadd. injection Hadd as ->.
  exists key. do 4 (split; [done|]).
  intros k id. unfold ids_at at 1. rewrite Hdata.
  destruct (decide (k = key)) as [->|Hne].
  - rewrite lookup_insert_eq. simpl. case_bool_decide as Hin.
    + naive_solver.
    + rewrite elem_of_app, list_elem_of_singleton. naive_solver.
  - rewrite lookup_insert_ne by done. fold (ids_at idx k). naive_solver.
Qed.

(** [AddDocument] that returns without error has put the document's id
    under the document's value, where an exact search finds it, and has
    changed nothing else: every id stays where it was and nothing but this
    id is new.  On an index that is not unique, adding the same document
    again changes nothing.  On a unique index, adding it again is refused
    as a violation, although the id found under the value is its own. *)
Theorem AddDocument_indexes (idx idx' : Index) (now : Z) (doc : Document) :
  AddDocument idx now doc = (idx', Ok tt) →
  ∃ key, indexValue idx doc = Ok key
    ∧ ID doc ∈ Index_Search idx' key
    ∧ (∀ k id, id ∈ ids_at idx' k ↔ id ∈ ids_at idx k ∨ (k = key ∧ id = ID doc))
    ∧ (idx_Unique idx = false →
       ∀ now', ∃ idx'', AddDocument idx' now' doc = (idx'', Ok tt)
                        ∧ idx_Data idx'' = idx_Data idx')
    ∧ (idx_Unique idx = true →
       ∀ now', AddDocument idx' now' doc = (idx', Err (ErrIndiceUnico key))).
Proof.
  intros Hadd.
  destruct (AddDocument_Ok_ids idx idx' now doc Hadd) as (key & Hkey & Hf & Hu & _ & Hat).
  assert (Hin : ID doc ∈ ids_at idx' key) by (apply Hat; by right).
  assert (Hkey' : indexValue idx' doc = Ok key) by (by rewrite (getIndexValue_fields idx)).
  exists key. split; [done|]. split; [by apply ids_at_Search|]. split; [done|split].
  - intros Hnu now'.
    destruct (AddDocument_cases idx' now' doc key Hkey')
      as [(Hu' & _)|(_ & idx'' & Hok' & _ & _ & _ & _ & Hdata')]; [congruence|].
    exists idx''. split; [done|]. rewrite Hdata'.
    rewrite bool_decide_eq_true_2 by done.
    apply map_eq. intros k. destruct (decide (k = key)) as [->|Hne].
    + rewrite lookup_insert_eq. unfold ids_at in *.
      destruct (idx_Data idx' !! key); [done|]. by apply elem_of_nil in Hin.
    + by rewrite lookup_insert_ne.
  - intros Hun now'.
    destruct (AddDocument_cases idx' now' doc key Hkey')
      as [(_ & _ & Herr)|([Hu'|Hnil] & _)]; [done|congruence|].
    rewrite Hnil in Hin. by apply elem_of_nil in Hin.
Qed.

(** [UpdateDocument] on a unique index.  When the document's value is
    held by another document the update is refused as a violation, and the
    document, removed first, is left out of the index: no search returns
    its id any more.  When the value is held by nobody else, the update
    succeeds and an exact search for the value returns this id alone. *)
Theorem UpdateDocument_unique (idx : Index) (now1 now2 : Z) (doc : Document)
    (key : string) :
  idx_Unique idx = true → indexValue idx doc = Ok key →
  ((∃ other, other ∈ ids_at idx key ∧ other ≠ ID doc) →
   UpdateDocument idx now1 now2 doc
   = (Index_RemoveDocument idx now1 (ID doc), Err (ErrIndiceUnico key))
   ∧ ∀ k, ID doc ∉ Index_Search (Index_RemoveDocument idx now1 (ID doc)) k)
  ∧ ((∀ other, other ∈ ids_at idx key → other = ID doc) →
     ∃ idx', UpdateDocument idx now1 now2 doc = (idx', Ok tt)
             ∧ Index_Search idx' key = [ID doc]).
Proof.
  intros Hu Hkey.
  assert (Hkey' : indexValue (Index_RemoveDocument idx now1 (ID doc)) doc = Ok key)
    by (by rewrite (getIndexValue_fields idx)).
  unfold Index_UpdateDocument.
  destruct (AddDocument_cases _ now2 doc key Hkey')
    as [(_ & Hheld & Herr)|([Hnu|Hfree] & idx' & Hok & _ & _ & _ & _ & Hdata)];
    [| simpl in Hnu; congruence |].
  - split.
    + intros _. split; [done|].
      apply (RemoveDocument_forgets idx now1 (ID doc)).
    + intros Hown. destruct Hheld. rewrite RemoveDocument_ids_at.
      destruct (filter _ (ids_at idx key)) as [|id ids] eqn:Hfilter; [done|].
      assert (Hid : id ∈ filter (λ id, id ≠ ID doc) (ids_at idx key))
        by (rewrite Hfilter; by left).
      apply list_elem_of_filter in Hid as [Hne Hid]. by apply Hown in Hid.
  - split.
    + intros (other & Hother & Hne). exfalso.
      assert (Hin : other ∈ ids_at (Index_RemoveDocument idx now1 (ID doc)) key).
      { rewrite RemoveDocument_ids_at. by apply list_elem_of_filter. }
      rewrite Hfree in Hin. by apply elem_of_nil in Hin.
    + intros _. exists idx'. split; [done|].
      unfold Index_Search. rewrite Hdata, lookup_insert_eq, Hfree.
      by rewrite bool_decide_eq_false_2 by apply not_elem_of_nil.
Qed.
Lemma rebuild_loop_Ok : ∀ (docs : list Document) (index index' : Index)
    (clock : nat → Z) (k : nat),
  rebuild_loop Sprintf_v index clock k docs = (index', ImOk tt) →
  idx_Fields index' = idx_Fields index
  ∧ (∀ doc, doc ∈ docs → Collection doc = idx_Collection index →
       ∃ key, indexValue index doc = Ok key ∧ ID doc ∈ ids_at index' key)
  ∧ (∀ key id, id ∈ ids_at index' key →
       id ∈ ids_at index key
       ∨ ∃ doc, doc ∈ docs ∧ Collection doc = idx_Collection index
                ∧ ID doc = id ∧ indexValue index doc = Ok key)
  ∧ (∀ key id, id ∈ ids_at index key → id ∈ ids_at index' key).
Proof.
  induction docs as [|doc rest IH]; intros index index' clock k Hloop; simpl in Hloop.
  - injection Hloop as <-. split; [done|]. split; [by intros doc ?%elem_of_nil|].
    split; [by left | done].
  - case_decide as Hcoll.
    + destruct (AddDocument index (clock k) doc) as [index1 [[]| |]] eqn:Hadd;
        [|done..].
      destruct (AddDocument_Ok_ids _ _ _ _ Hadd) as (key & Hkey & Hf & _ & Hc & Hat).
      destruct (IH _ _ _ _ Hloop) as (Hf' & Hall & Honly & Hkeep).
      split; [congruence|]. split; [|split].
      * intros d [->|Hd]%elem_of_cons Hdc.
        -- exists key. split; [done|]. apply Hkeep, Hat. by right.
        -- destruct (Hall d Hd) as (kd & Hkd & Hin); [congruence|].
           exists kd. split; [|done]. by rewrite <-(getIndexValue_fields index index1).
      * intros ky id Hin. destruct (Honly ky id Hin) as [Hold|(d & Hd & Hdc & Hid & Hkd)].
        -- apply Hat in Hold as [Hold|[-> ->]]; [by left|].
           right. exists doc. split; [by left|]. done.
        -- right. exists d. split; [by right|]. split; [congruence|]. split; [done|].
           by rewrite <-(getIndexValue_fields index index1).
      * intros ky id Hin. apply Hkeep, Hat. by left.
    + destruct (IH _ _ _ _ Hloop) as (Hf' & Hall & Honly & Hkeep).
      split; [done|]. split; [|split; [|done]].
      * intros d [->|Hd]%elem_of_cons Hdc; [done|]. by apply Hall.
      * intros ky id Hin. destruct (Honly ky id Hin) as [Hold|(d & Hd & Hrest)];
          [by left|]. right. exists d. split; [by right|]. done.
Qed.

(** [RebuildIndex] fails on a name that is not registered, leaving the
    manager as it was.  When it returns without error the index holds
    exactly the documents of its collection among those given: each of
    them has a value for the indexed fields and is found under it, and
    every id in the index is the id of such a document under that
    document's value; what the index held before is gone.  (So it does
    not return without error when a document of the collection lacks an
    indexed field.) *)
Theorem RebuildIndex_indexes (im im' : IndexManager) (clock : nat → Z)
    (indexName : string) (docs : list Document) :
  (im !! indexName = None →
   IndexManager_RebuildIndex Sprintf_v im clock indexName docs
   = (im, ImErr (ErrIndiceNoEncontrado indexName)))
  ∧ (IndexManager_RebuildIndex Sprintf_v im clock indexName docs = (im', ImOk tt) →
     ∃ index index', im !! indexName = Some index ∧ im' = <[indexName := index']> im
       ∧ (∀ doc, doc ∈ docs → Collection doc = idx_Collection index →
            ∃ key, indexValue index doc = Ok key ∧ ID doc ∈ Index_Search index' key)
       ∧ (∀ key id, id ∈ ids_at index' key →
            ∃ doc, doc ∈ docs ∧ Collection doc = idx_Collection index
                   ∧ ID doc = id ∧ indexValue index doc = Ok key)).
Proof.
  unfold IndexManager_RebuildIndex, IndexManager_GetIndex. split.
  - by intros ->.
  - destruct (im !! indexName) as [index|]; [|done].
    destruct (rebuild_loop _ _ _ _ _) as [index' r] eqn:Hloop.
    intros [= <- ->]. exists index, index'. do 2 (split; [done|]).
    destruct (rebuild_loop_Ok _ _ _ _ _ Hloop) as (_ & Hall & Honly & _).
    split.
    + intros doc Hd Hc. destruct (Hall doc Hd Hc) as (key & Hkey & Hin).
      exists key. split; [done|]. by apply ids_at_Search.
    + intros key id Hin. destruct (Honly key id Hin) as [Hold|Hdoc]; [|done].
      by apply elem_of_nil in Hold.
Qed.

(** [CreateIndex] refuses a name that is taken and leaves the manager,
    with the index of that name and its content, as it was.  On a free
    name it registers an index that holds nothing: every search through
    it returns the empty list until documents are added or the index is
    rebuilt; dropping it gives back the manager as it was. *)
Theorem CreateIndex_registers (im : IndexManager) (now : Z) (name collection : string)
    (fields : list string) (indexType : string) :
  (is_Some (im !! name) →
   IndexManager_CreateIndex im now name collection fields indexType
   = (im, ImErr (ErrIndiceYaExiste name)))
  ∧ (im !! name = None →
     ∃ im' index,
       IndexManager_CreateIndex im now name collection fields indexType = (im', ImOk index)
       ∧ IndexManager_GetIndex im' name = Some index
       ∧ (∀ other, other ≠ name → IndexManager_GetIndex im' other = IndexManager_GetIndex im other)
       ∧ (∀ v, IndexManager_FindDocumentsByIndex im' name v = ImOk [])
       ∧ IndexManager_DropIndex im' name = (im, ImOk tt)).
Proof.
  unfold IndexManager_CreateIndex, IndexManager_GetIndex, IndexManager_FindDocumentsByIndex,
    IndexManager_DropIndex, IndexManager_GetIndex, IndexManager in *.
  split.
  - by intros [existing ->].
  - intros Hfree. rewrite Hfree. do 2 eexists. split; [reflexivity|].
    rewrite lookup_insert_eq. split; [done|]. split; [|split].
    + intros other Hne. by rewrite lookup_insert_ne.
    + intros v. unfold Index_Search, NewIndex. simpl.
      rewrite lookup_empty, map_to_list_empty. by case_decide.
    + by rewrite delete_insert_id.
Qed.
End MoreIndexProperties.

(** What ["%v"] prints for a string; the examples index string fields only. *)
Definition render (v : value) : string :=
  match v with
  | VString s => s
  | _ => ""
  end.

Definition member (id email : string) : Document :=
  {| ID := id; Collection := "users"; Data := with_email email;
     CreatedAt := 0; UpdatedAt := 0 |}.

Definition post (id email : string) : Document :=
  {| ID := id; Collection := "posts"; Data := with_email email;
     CreatedAt := 0; UpdatedAt := 0 |}.

Definition by_email (indexType : string) : Index :=
  NewIndex 0 "users_email" "users" ["email"] indexType.

Lemma AddDocument_indexes_witness :
  ∃ idx', Index_AddDocument render (by_email IndexTypeNonUnique) 1 (member "u1" "a@x")
          = (idx', Ok tt)
    ∧ Index_Search idx' "a@x" = ["u1"]
    ∧ ∃ idx'', Index_AddDocument render idx' 2 (member "u1" "a@x") = (idx'', Ok tt)
               ∧ idx_Data idx'' = idx_Data idx'.
Proof.
  destruct (Index_AddDocument render (by_email IndexTypeNonUnique) 1 (member "u1" "a@x"))
    as [idx' r] eqn:Hadd.
  assert (r = Ok tt) as -> by (vm_compute in Hadd; by injection Hadd as _ <-).
  exists idx'. split; [done|].
  destruct (AddDocument_indexes render _ _ _ _ Hadd) as (key & _ & _ & _ & Hagain & _).
  split; [|exact (Hagain eq_refl 2%Z)].
  vm_compute in Hadd. by injection Hadd as <-.
Defined.

(** A unique index on the email that holds [u1] and [u2]. *)
Definition two_members : Index :=
  set_idx_Data (by_email IndexTypeUnique) 0 {[ "a@x" := ["u1"]; "b@x" := ["u2"] ]}.

Lemma UpdateDocument_unique_witness :
  idx_Unique two_members = true
  ∧ getIndexValue render two_members (member "u1" "b@x") = Ok "b@x"
  ∧ (Index_UpdateDocument render two_members 1 2 (member "u1" "b@x")).2
    = Err (ErrIndiceUnico "b@x")
  ∧ ∀ k, "u1" ∉ Index_Search
                  (Index_UpdateDocument render two_members 1 2 (member "u1" "b@x")).1 k.
Proof.
  assert (Hu : idx_Unique two_members = true) by reflexivity.
  assert (Hkey : getIndexValue render two_members (member "u1" "b@x") = Ok "b@x")
    by reflexivity.
  split; [exact Hu|]. split; [exact Hkey|].
  destruct (proj1 (UpdateDocument_unique render two_members 1 2 (member "u1" "b@x") "b@x"
                     Hu Hkey)) as [Hres Hgone].
  { exists "u2". split; [|done]. by vm_compute; left. }
  rewrite Hres. split; [done|]. exact Hgone.
Defined.

Lemma RebuildIndex_indexes_witness :
  ∃ im', IndexManager_RebuildIndex render {[ "users_email" := two_members ]} (λ _, 5%Z)
           "users_email" [member "u3" "c@x"; post "u4" "a@x"]
         = (im', ImOk tt)
    ∧ IndexManager_FindDocumentsByIndex im' "users_email" "c@x" = ImOk ["u3"]
    ∧ IndexManager_FindDocumentsByIndex im' "users_email" "a@x" = ImOk [].
Proof.
  destruct (IndexManager_RebuildIndex render {[ "users_email" := two_members ]} (λ _, 5%Z)
              "users_email" [member "u3" "c@x"; post "u4" "a@x"])
    as [im' r] eqn:Hre.
  assert (r = ImOk tt) as -> by (vm_compute in Hre; by injection Hre as _ <-).
  exists im'. split; [done|].
  destruct (proj2 (RebuildIndex_indexes render _ _ _ _ _) Hre)
    as (index & index' & Hidx & _ & Hall & _).
  vm_compute in Hidx. injection Hidx as <-.
  destruct (Hall (member "u3" "c@x")) as (key & Hkey & Hfound); [by left | done |].
  vm_compute in Hre. injection Hre as <-. split; by vm_compute.
Defined.

Lemma CreateIndex_registers_witness :
  ∃ im' index,
    IndexManager_CreateIndex NewIndexManager 0 "users_email" "users" ["email"]
      IndexTypeUnique = (im', ImOk index)
    ∧ IndexManager_FindDocumentsByIndex im' "users_email" "a@x" = ImOk []
    ∧ IndexManager_CreateIndex im' 1 "users_email" "users" ["name"] IndexTypeText
      = (im', ImErr (ErrIndiceYaExiste "users_email")).
Proof.
  destruct (proj2 (CreateIndex_registers NewIndexManager 0 "users_email" "users" ["email"]
                     IndexTypeUnique) eq_refl)
    as (im' & index & Hres & Hget & _ & Hfind & _).
  exists im', index. split; [exact Hres|]. split; [apply Hfind|].
  apply (CreateIndex_registers im' 1 "users_email" "users" ["name"] IndexTypeText).
  unfold IndexManager_GetIndex in Hget. by rewrite Hget.
Defined.

(** * Further properties: flat queries, collections, full sync *)

Section QueryDocumentsProperties.
Variable time_equal : Z → Z → bool.

Local Abbreviation equal := (interface_eq time_equal).
Local Abbreviation criteria_hold := (matches_criteria time_equal).

(** The values [==] can compare: anything but a slice or a map. *)
Definition comparable (v : value) : Prop :=
  match v with
  | VArray _ | VMap _ => False
  | _ => True
  end.

Lemma interface_eq_comparable (a b : value) :
  comparable b → ∃ r, equal a b = Ok r.
Proof. destruct a, b; simpl; intros Hb; try done; by eexists. Qed.

Lemma matches_criteria_comparable (data : gmap string value) :
  ∀ criteria : list (string * value),
  (∀ k v, (k, v) ∈ criteria → comparable v) →
  ∃ keep, criteria_hold data criteria = Ok keep
    ∧ (keep = true ↔ ∀ k v, (k, v) ∈ criteria →
                        ∃ docValue, data !! k = Some docValue ∧ equal docValue v = Ok true).
Proof.
  induction criteria as [|[key v] rest IH]; intros Hcmp; simpl.
  - exists true. split; [done|]. split; [|done]. by intros _ k v ?%elem_of_nil.
  - destruct IH as (keep & Hrest & Hkeep); [intros k w Hin; apply (Hcmp k w); by right|].
    destruct (data !! key) as [docValue|] eqn:Hkey.
    + destruct (interface_eq_comparable docValue v) as [r Hr];
        [apply (Hcmp key v); by left|].
      rewrite Hr. destruct r.
      * exists keep. split; [done|]. rewrite Hkeep. split.
        -- intros Hall k w [[= -> ->]|Hin]%elem_of_cons; [by exists docValue|by apply Hall].
        -- intros Hall k w Hin. apply Hall. by right.
      * exists false. split; [done|]. split; [done|].
        intros Hall. destruct (Hall key v) as (dv & Hdv & Heq); [by left|].
        congruence.
    + exists false. split; [done|]. split; [done|].
      intros Hall. destruct (Hall key v) as (dv & Hdv & Heq); [by left|]. congruence.
Qed.

Lemma query_loop_comparable (collection : string) (criteria : list (string * value)) :
  (∀ k v, (k, v) ∈ criteria → comparable v) →
  ∀ docs : list Document,
  ∃ results, query_loop time_equal docs collection criteria = Ok results
    ∧ ∀ d, d ∈ results ↔
           d ∈ docs ∧ Collection d = collection
           ∧ ∀ k v, (k, v) ∈ criteria →
                    ∃ docValue, data_of d !! k = Some docValue ∧ equal docValue v = Ok true.
Proof.
  intros Hcmp. induction docs as [|doc rest (results & Hrest & Helem)]; simpl.
  - exists []. split; [done|]. intros d. split; [by intros ?%elem_of_nil|].
    by intros [?%elem_of_nil _].
  - case_decide as Hcoll.
    + exists results. split; [done|]. intros d. rewrite Helem, elem_of_cons.
      split; [naive_solver|]. intros [[->|Hd] [Hc Hall]]; [done|naive_solver].
    + destruct (matches_criteria_comparable (data_of doc) criteria Hcmp)
        as (keep & -> & Hkeep).
      rewrite Hrest. destruct keep.
      * exists (doc :: results). split; [done|]. intros d.
        rewrite !elem_of_cons, Helem. split; [|naive_solver].
        intros [->|(Hd & Hc & Hall)]; [|naive_solver].
        split; [by left|]. split; [done|]. by apply Hkeep.
      * exists results. split; [done|]. intros d. rewrite Helem, elem_of_cons.
        split; [naive_solver|]. intros [[->|Hd] [Hc Hall]]; [|naive_solver].
        apply Hkeep in Hall. done.
Qed.

Lemma query_loop_slice (collection key : string) (vs : list value) :
  ∀ docs : list Document,
  (∃ d ws, d ∈ docs ∧ Collection d = collection ∧ data_of d !! key = Some (VArray ws)) →
  query_loop time_equal docs collection [(key, VArray vs)] = Panic.
Proof.
  induction docs as [|doc rest IH]; intros (d & ws & Hd & Hc & Hk).
  - by apply elem_of_nil in Hd.
  - simpl. case_decide as Hcoll.
    + apply IH. apply elem_of_cons in Hd as [->|Hd]; [done|]. by exists d, ws.
    + destruct (data_of doc !! key) as [docValue|] eqn:Hkey.
      * destruct docValue; simpl; try done;
          (rewrite IH; [done|]);
          (apply elem_of_cons in Hd as [->|Hd]; [congruence | by exists d, ws]).
      * rewrite IH; [done|].
        apply elem_of_cons in Hd as [->|Hd]; [congruence | by exists d, ws].
Qed.

(** [QueryDocuments] with criteria whose values are not slices or maps
    returns exactly the stored documents of the collection that have,
    under every key of the query, a value of the same dynamic type and
    equal to the query's (an int is not equal to a float, nor to an int64);
    with no criterion it returns the whole collection.  With the one
    criterion [key = slice], it panics as soon as the collection holds a
    document with a slice under [key]. *)
Theorem QueryDocuments_equality (db : Database) (collection : string)
    (query : option (gmap string value)) :
  ((∀ k v, default ∅ query !! k = Some v → comparable v) →
   ∃ results, Database_QueryDocuments time_equal db collection query = Ok results
     ∧ ∀ d, d ∈ results ↔
            Collection d = collection ∧ (∃ id, documents db !! id = Some d)
            ∧ ∀ k v, default ∅ query !! k = Some v →
                     ∃ docValue, data_of d !! k = Some docValue
                                 ∧ equal docValue v = Ok true)
  ∧ (∀ key vs ws id d,
       query = Some {[ key := VArray vs ]} →
       documents db !! id = Some d → Collection d = collection →
       data_of d !! key = Some (VArray ws) →
       Database_QueryDocuments time_equal db collection query = Panic).
Proof.
  unfold Database_QueryDocuments. split.
  - intros Hcmp.
    destruct (query_loop_comparable collection (map_to_list (default ∅ query)))
      with (docs := (map_to_list (documents db)).*2) as (results & Hres & Helem).
    { intros k v Hin. apply (Hcmp k v). by apply elem_of_map_to_list. }
    exists results. split; [done|]. intros d. rewrite Helem.
    rewrite list_elem_of_fmap. split.
    + intros (([id d'] & -> & Hin) & Hc & Hall). split; [done|].
      split; [exists id; by apply elem_of_map_to_list|].
      intros k v Hk. apply Hall. by apply elem_of_map_to_list.
    + intros (Hc & [id Hid] & Hall). split; [|split; [done|]].
      * exists (id, d). split; [done|]. by apply elem_of_map_to_list.
      * intros k v Hk. apply Hall. by apply elem_of_map_to_list.
  - intros key vs ws id d -> Hid Hc Hk. simpl. rewrite map_to_list_singleton.
    apply query_loop_slice. exists d, ws. split; [|done].
    apply list_elem_of_fmap. exists (id, d). split; [done|]. by apply elem_of_map_to_list.
Qed.
End QueryDocumentsProperties.

Lemma QueryDocuments_equality_witness :
  ∃ results,
    Database_QueryDocuments (λ _ _, false)
      (holding [user "a" 30; user "b" 31; user "c" 30]) "users"
      (Some {[ "age" := VInt 30 ]}) = Ok results
    ∧ (user "a" 30 ∈ results ∧ user "c" 30 ∈ results ∧ user "b" 31 ∉ results).
Proof.
  destruct (proj1 (QueryDocuments_equality (λ _ _, false)
                     (holding [user "a" 30; user "b" 31; user "c" 30]) "users"
                     (Some {[ "age" := VInt 30 ]})))
    as (results & Hres & Helem).
  { simpl. intros k v [<- <-]%lookup_singleton_Some. done. }
  exists results. split; [exact Hres|].
  assert (Hin : ∀ id, id = "a" ∨ id = "c" → user id 30 ∈ results).
  { intros id Hid. apply Helem. split; [done|]. split.
    - exists id. by destruct Hid as [-> | ->]; vm_compute.
    - simpl. intros k v [<- <-]%lookup_singleton_Some.
      exists (VInt 30). split; by vm_compute. }
  split; [apply Hin; by left|]. split; [apply Hin; by right|].
  intros (_ & _ & Hall)%Helem.
  destruct (Hall "age" (VInt 30)) as (docValue & Hage & Heq); [done|].
  vm_compute in Hage. injection Hage as <-. by vm_compute in Heq.
Defined.

(** [GetCollections] lists each collection that has at least one stored
    document, once, and no other: a collection exists from its first
    document on and is gone with its last. *)
Theorem GetCollections_lists_each_once (db : Database) :
  NoDup (Database_GetCollections db)
  ∧ ∀ collection, collection ∈ Database_GetCollections db
                  ↔ ∃ id d, documents db !! id = Some d ∧ Collection d = collection.
Proof.
  unfold Database_GetCollections. split; [apply NoDup_elements|].
  intros collection. rewrite elem_of_elements, elem_of_list_to_set, list_elem_of_fmap.
  split.
  - intros (d & -> & ([id d'] & -> & Hin)%list_elem_of_fmap).
    exists id, d'. split; [|done]. by apply elem_of_map_to_list.
  - intros (id & d & Hid & <-). exists d. split; [done|].
    apply list_elem_of_fmap. exists (id, d). split; [done|]. by apply elem_of_map_to_list.
Qed.

(** ** SyncAllDocuments, and the peer that receives its messages *)










(** ** Answering a sync request *)

Lemma limit_batch_nonneg (request : SyncRequest) (docs : list Document) :
  (0 ≤ req_BatchSize request)%Z →
  ∃ sent hasMore, limit_batch request docs = Ok (sent, hasMore)
    ∧ sent = take (Z.to_nat (req_BatchSize request)) docs
    ∧ (Z.of_nat (List.length sent) ≤ req_BatchSize request)%Z
    ∧ (hasMore = false → sent = docs).
Proof.
  intros Hsize. unfold limit_batch.
  rewrite (bool_decide_eq_false_2 (req_BatchSize request < 0)%Z) by lia.
  case_bool_decide as Hlen.
  - do 2 eexists. split; [reflexivity|]. split; [done|].
    rewrite length_take. split; [lia|done].
  - do 2 eexists. split; [reflexivity|]. split; [|split; [lia|done]].
    symmetry. apply take_ge. lia.
Qed.

Lemma limit_batch_negative (request : SyncRequest) (docs : list Document) :
  (req_BatchSize request < 0)%Z → limit_batch request docs = Panic.
Proof.
  intros Hsize. unfold limit_batch.
  rewrite (bool_decide_eq_true_2 (req_BatchSize request < 0)%Z) by lia.
  by rewrite bool_decide_eq_true_2 by lia.
Qed.

(** The documents a full or an incremental request is answered from. *)
Definition candidate (sm : SyncManager) (excluded : list string) (request : SyncRequest)
    (d : Document) : Prop :=
  Collection d ∈ ["users"; "documents"; "settings"]
  ∧ (Collection d ∉ excluded)
  ∧ (∃ id, documents (database sm) !! id = Some d)
  ∧ (req_RequestType request = "incremental" →
     (req_LastSyncTime request < UpdatedAt d)%Z).

Lemma full_candidates (sm : SyncManager) (excluded : list string) (d : Document) :
  d ∈ flat_map (Database_GetAllDocuments (database sm)) (filteredCollections excluded)
  ↔ Collection d ∈ ["users"; "documents"; "settings"] ∧ (Collection d ∉ excluded)
    ∧ ∃ id, documents (database sm) !! id = Some d.
Proof.
  rewrite list_elem_of_In, in_flat_map. unfold filteredCollections. split.
  - intros (collection & Hc & Hd).
    apply list_elem_of_In, list_elem_of_filter in Hc as [Hex Hc].
    apply list_elem_of_In, GetAllDocuments_elem in Hd as [<- Hid]. done.
  - intros (Hc & Hex & Hid). exists (Collection d). split.
    + apply list_elem_of_In, list_elem_of_filter. done.
    + apply list_elem_of_In, GetAllDocuments_elem. done.
Qed.

Lemma incremental_candidates (sm : SyncManager) (excluded : list string)
    (request : SyncRequest) (d : Document) :
  d ∈ flat_map (λ collection,
                  filter (λ doc, (req_LastSyncTime request < UpdatedAt doc)%Z)
                         (Database_GetAllDocuments (database sm) collection))
               (filteredCollections excluded)
  ↔ Collection d ∈ ["users"; "documents"; "settings"] ∧ (Collection d ∉ excluded)
    ∧ (∃ id, documents (database sm) !! id = Some d)
    ∧ (req_LastSyncTime request < UpdatedAt d)%Z.
Proof.
  rewrite list_elem_of_In, in_flat_map. unfold filteredCollections. split.
  - intros (collection & Hc & Hd).
    apply list_elem_of_In, list_elem_of_filter in Hc as [Hex Hc].
    apply list_elem_of_In, list_elem_of_filter in Hd as [Hnew Hd].
    apply GetAllDocuments_elem in Hd as [<- Hid]. done.
  - intros (Hc & Hex & Hid & Hnew). exists (Collection d). split.
    + apply list_elem_of_In, list_elem_of_filter. done.
    + apply list_elem_of_In, list_elem_of_filter. split; [done|].
      apply GetAllDocuments_elem. done.
Qed.

(** A full or incremental sync request of another node.  With a batch
    size that is not negative it is answered with a successful response
    of at most [BatchSize] documents, counted in [DocumentsCount]; every
    document sent is a stored document of one of the collections users,
    documents and settings that is not excluded (documents of any other
    collection are never sent) and, for an incremental request, was
    updated after the request's last sync time; and when the response
    does not announce more documents, every such document is in it.  With
    a negative batch size the handler panics. *)
Theorem sync_request_batch (sm : SyncManager) (excluded : list string)
    (request : SyncRequest) :
  req_NodeID request ≠ hostID sm →
  req_RequestType request = "full" ∨ req_RequestType request = "incremental" →
  ((req_BatchSize request < 0)%Z →
   handleSyncRequest sm excluded (Some request) = Panic)
  ∧ ((0 ≤ req_BatchSize request)%Z →
     ∃ a, handleSyncRequest sm excluded (Some request) = Ok (Some a)
       ∧ resp_NodeID (ans_response a) = hostID sm
       ∧ resp_Success (ans_response a) = true
       ∧ resp_DocumentsCount (ans_response a)
         = Z.of_nat (List.length (resp_Documents (ans_response a)))
       ∧ (resp_DocumentsCount (ans_response a) ≤ req_BatchSize request)%Z
       ∧ (∀ d, d ∈ resp_Documents (ans_response a) → candidate sm excluded request d)
       ∧ (ans_HasMoreDocuments a = false →
          ∀ d, candidate sm excluded request d → d ∈ resp_Documents (ans_response a))).
Proof.
  intros Hother Htype. unfold handleSyncRequest. rewrite decide_False by done.
  assert (Hhandled : ∃ docs,
            (if decide (req_RequestType request = "full")
             then inr (handleFullSyncRequest sm excluded request)
             else if decide (req_RequestType request = "incremental")
             then inr (handleIncrementalSyncRequest sm excluded request)
             else if decide (req_RequestType request = "collection")
             then handleCollectionSyncRequest sm excluded request
             else inl (req_RequestType request))
            = inr (answer sm request docs)
            ∧ ∀ d, d ∈ docs ↔ candidate sm excluded request d).
  { destruct Htype as [Hfull|Hinc].
    - rewrite decide_True by done. eexists. split; [reflexivity|].
      intros d. rewrite full_candidates. unfold candidate. rewrite Hfull. naive_solver.
    - rewrite decide_False by (by rewrite Hinc). rewrite decide_True by done.
      eexists. split; [reflexivity|].
      intros d. rewrite incremental_candidates. unfold candidate. naive_solver. }
  destruct Hhandled as (docs & -> & Hdocs). unfold answer. split.
  - intros Hneg. by rewrite limit_batch_negative.
  - intros Hsize.
    destruct (limit_batch_nonneg request docs Hsize)
      as (sent & hasMore & -> & Hsent & Hlen & Hall).
    eexists. split; [reflexivity|]. simpl. do 3 (split; [done|]). split; [done|]. split.
    + intros d Hd. apply Hdocs. rewrite Hsent in Hd. by eapply subseteq_take.
    + intros Hno d Hd. rewrite (Hall Hno). by apply Hdocs.
Qed.

Definition full_request (batch : Z) : SyncRequest :=
  {| req_NodeID := "B"; req_RequestType := "full"; req_Collection := "";
     req_LastSyncTime := time_zero; req_BatchSize := batch |}.

Lemma sync_request_batch_witness :
  handleSyncRequest (sync_node (holding [user "a" 30; post "p" "a@x"])) ["_system"]
    (Some (full_request (-1))) = Panic
  ∧ ∃ a, handleSyncRequest (sync_node (holding [user "a" 30; post "p" "a@x"])) ["_system"]
           (Some (full_request 100)) = Ok (Some a)
      ∧ resp_Documents (ans_response a) = [user "a" 30].
Proof.
  destruct (sync_request_batch (sync_node (holding [user "a" 30; post "p" "a@x"]))
              ["_system"] (full_request (-1)) ltac:(discriminate) ltac:(by left))
    as [Hpanic _].
  split; [apply Hpanic; by vm_compute|].
  destruct (handleSyncRequest (sync_node (holding [user "a" 30; post "p" "a@x"]))
              ["_system"] (Some (full_request 100))) as [[a|]| |] eqn:Hres;
    try (by vm_compute in Hres).
  exists a. split; [done|]. vm_compute in Hres. by injection Hres as <-.
Defined.

(** * Further properties: the order [sortDocuments] produces *)

Section SortOrder.
Variable Sprintf_v : value → string.
Variables field direction : string.
(** An order on documents that the exchanges of the sort follow. *)
Variable R : Document → Document → Prop.

Local Abbreviation swaps := (exchange Sprintf_v field direction).
Local Abbreviation step := (sort_step Sprintf_v field direction).
Local Abbreviation inner := (sort_inner Sprintf_v field direction).
Local Abbreviation outer := (sort_outer Sprintf_v field direction).

(** On the documents of [l], [R] is transitive, holds from left to right
    on a pair the sort leaves in place, and from right to left on a pair
    it exchanges. *)
Definition follows (l : list Document) : Prop :=
  (∀ a b c, a ∈ l → b ∈ l → c ∈ l → R a b → R b c → R a c)
  ∧ (∀ a b, a ∈ l → b ∈ l → swaps a b = false → R a b)
  ∧ (∀ a b, a ∈ l → b ∈ l → swaps a b = true → R b a).

(** The positions before [i] hold their final documents. *)
Definition settled (i : nat) (l : list Document) : Prop :=
  ∀ p q x y, p < i → p < q → l !! p = Some x → l !! q = Some y → R x y.

(** The document at [i] comes before those between [i] and [j]. *)
Definition ahead (i j : nat) (l : list Document) : Prop :=
  ∀ q x y, i < q → q < j → l !! i = Some x → l !! q = Some y → R x y.

Lemma follows_Permutation (l l' : list Document) :
  l ≡ₚ l' → follows l → follows l'.
Proof.
  intros Hp (Ht & Hl & Hr). split; [|split].
  - intros a b c Ha Hb Hc. rewrite <-Hp in Ha, Hb, Hc. by apply Ht.
  - intros a b Ha Hb. rewrite <-Hp in Ha, Hb. by apply Hl.
  - intros a b Ha Hb. rewrite <-Hp in Ha, Hb. by apply Hr.
Qed.

Lemma swapped_lookup (l : list Document) (i j q : nat) (x y : Document) :
  i < List.length l → j < List.length l → i ≠ j →
  <[i := y]> (<[j := x]> l) !! q =
    if decide (q = i) then Some y else if decide (q = j) then Some x else l !! q.
Proof.
  intros Hi Hj Hij. case_decide as Hqi.
  - subst q. apply list_lookup_insert_eq. by rewrite length_insert.
  - rewrite list_lookup_insert_ne by done. case_decide as Hqj.
    + subst q. by apply list_lookup_insert_eq.
    + by rewrite list_lookup_insert_ne.
Qed.

Lemma sort_step_settled (i j : nat) (l : list Document) :
  i < j → j < List.length l → follows l → settled i l → ahead i j l →
  settled i (step i j l) ∧ ahead i (S j) (step i j l).
Proof.
  intros Hij Hj (Ht & Hl & Hr) Hs Ha. unfold sort_step.
  destruct (l !! i) as [docI|] eqn:HI;
    [|apply lookup_ge_None in HI; lia].
  destruct (l !! j) as [docJ|] eqn:HJ;
    [|apply lookup_ge_None in HJ; lia].
  assert (HinI : docI ∈ l) by (by eapply list_elem_of_lookup_2).
  assert (HinJ : docJ ∈ l) by (by eapply list_elem_of_lookup_2).
  destruct (swaps docI docJ) eqn:Hex.
  - assert (Hlook : ∀ q, <[i := docJ]> (<[j := docI]> l) !! q =
              if decide (q = i) then Some docJ
              else if decide (q = j) then Some docI else l !! q).
    { intros q. apply swapped_lookup; lia. }
    split.
    + intros p q x y Hp Hpq. rewrite !Hlook.
      rewrite (decide_False (P := p = i)) by lia.
      rewrite (decide_False (P := p = j)) by lia.
      intros Hx. repeat case_decide; intros Hy; simplify_eq.
      * apply (Hs p j); [lia|lia|done|done].
      * apply (Hs p i); [lia|lia|done|done].
      * apply (Hs p q); [lia|lia|done|done].
    + intros q x y Hiq Hqj. rewrite !Hlook.
      rewrite (decide_True (P := i = i)) by done.
      rewrite (decide_False (P := q = i)) by lia.
      intros [= <-]. case_decide; intros Hy; simplify_eq.
      * by apply Hr.
      * apply (Ht docJ docI y); [done|done|by eapply list_elem_of_lookup_2| |].
        -- by apply Hr.
        -- apply (Ha q); [lia|lia|done|done].
  - split; [done|].
    intros q x y Hiq Hqj Hx Hy. rewrite HI in Hx. injection Hx as <-.
    destruct (decide (q = j)) as [->|Hne].
    + rewrite HJ in Hy. injection Hy as <-. by apply Hl.
    + apply (Ha q); [lia|lia|done|done].
Qed.

Lemma sort_inner_settled (i : nat) : ∀ (n j : nat) (l : list Document),
  i < j → j + n = List.length l → follows l → settled i l → ahead i j l →
  settled (S i) (inner i j n l).
Proof.
  induction n as [|n IH]; intros j l Hij Hlen Hf Hs Ha; simpl.
  - intros p q x y Hp Hpq Hx Hy.
    destruct (decide (p = i)) as [->|Hne].
    + apply (Ha q); [lia| |done|done].
      apply lookup_lt_Some in Hy. lia.
    + apply (Hs p q); [lia|done..].
  - destruct (sort_step_settled i j l) as [Hs' Ha']; [lia|lia|done..|].
    pose proof (sort_step_Permutation Sprintf_v field direction i j l) as Hp.
    apply IH; [lia| |by eapply follows_Permutation|done..].
    rewrite (Permutation_length Hp). lia.
Qed.

Lemma sort_outer_settled : ∀ (n i : nat) (l : list Document),
  i + n = List.length l - 1 → follows l → settled i l →
  ∀ p q x y, p < q → outer i n l !! p = Some x → outer i n l !! q = Some y → R x y.
Proof.
  induction n as [|n IH]; intros i l Hlen Hf Hs; simpl.
  - intros p q x y Hpq Hx Hy. apply (Hs p q); [|done..].
    apply lookup_lt_Some in Hy. lia.
  - pose proof (sort_inner_Permutation Sprintf_v field direction i
                  (List.length l - S i) (S i) l) as Hp.
    apply IH.
    + rewrite (Permutation_length Hp). lia.
    + by eapply follows_Permutation.
    + apply sort_inner_settled; [lia|lia|done|done|].
      intros q x y Hiq Hqi. lia.
Qed.
End SortOrder.

Section SortOrderProperties.
Variable Sprintf_v : value → string.

(** The document resolves the field. *)
Definition has_field (field : string) (d : Document) : Prop :=
  ∃ v, getNestedFieldValue (data_of d) field = inr v.

(** The order of two documents whose sort keys are ints or missing:
    ascending or descending on the ints as the direction says, a missing
    key after any int. *)
Definition int_key_order (field direction : string) (a b : Document) : Prop :=
  match getNestedFieldValue (data_of a) field, getNestedFieldValue (data_of b) field with
  | inr (VInt x), inr (VInt y) =>
      (direction = SortAscending → (x ≤ y)%Z) ∧ (direction = SortDescending → (y ≤ x)%Z)
  | inl _, inr _ => False
  | _, _ => True
  end.

Lemma missing_last_follows (field direction : string) (l : list Document) :
  follows Sprintf_v field direction (λ a b, has_field field b → has_field field a) l.
Proof.
  unfold follows, exchange, has_field. split; [|split].
  - naive_solver.
  - intros a b _ _.
    destruct (getNestedFieldValue (data_of a) field),
             (getNestedFieldValue (data_of b) field); naive_solver.
  - intros a b _ _.
    destruct (getNestedFieldValue (data_of a) field),
             (getNestedFieldValue (data_of b) field); naive_solver.
Qed.

Lemma int_keys_follow (field direction : string) (l : list Document) :
  (∀ d v, d ∈ l → getNestedFieldValue (data_of d) field = inr v → ∃ n, v = VInt n) →
  follows Sprintf_v field direction (int_key_order field direction) l.
Proof.
  intros Hint.
  assert (Hkey : ∀ d, d ∈ l →
            (∃ e, getNestedFieldValue (data_of d) field = inl e)
            ∨ ∃ n, getNestedFieldValue (data_of d) field = inr (VInt n)).
  { intros d Hd. destruct (getNestedFieldValue (data_of d) field) as [e|v] eqn:Hv.
    - left. by exists e.
    - right. destruct (Hint d v Hd Hv) as [n ->]. by exists n. }
  unfold follows, int_key_order, exchange. split; [|split].
  - intros a b c Ha Hb Hc.
    destruct (Hkey a Ha) as [[ea ->]|[x ->]], (Hkey b Hb) as [[eb ->]|[y ->]],
             (Hkey c Hc) as [[ec ->]|[z ->]]; try done.
    intros [H1 H2] [H3 H4]. split; intros Hd; [specialize (H1 Hd); specialize (H3 Hd)
                                              |specialize (H2 Hd); specialize (H4 Hd)]; lia.
  - intros a b Ha Hb.
    destruct (Hkey a Ha) as [[ea ->]|[x ->]], (Hkey b Hb) as [[eb ->]|[y ->]]; try done.
    unfold compareValues, three_way. simpl.
    intros Hex. split; intros ->; simpl in Hex.
    + rewrite orb_false_r in Hex. apply bool_decide_eq_false in Hex.
      destruct (x <? y)%Z eqn:H1; [lia|]. destruct (y <? x)%Z eqn:H2; lia.
    + apply bool_decide_eq_false in Hex.
      destruct (x <? y)%Z eqn:H1; [|lia]. destruct Hex. lia.
  - intros a b Ha Hb.
    destruct (Hkey a Ha) as [[ea ->]|[x ->]], (Hkey b Hb) as [[eb ->]|[y ->]]; try done.
    unfold compareValues, three_way. simpl.
    intros Hex. apply orb_true_iff in Hex.
    split; intros ->; simpl in Hex.
    + destruct Hex as [Hex|Hex]; [|done]. apply bool_decide_eq_true in Hex.
      destruct (x <? y)%Z eqn:H1; [lia|]. destruct (y <? x)%Z eqn:H2; lia.
    + destruct Hex as [Hex|Hex]; [done|]. apply bool_decide_eq_true in Hex.
      destruct (x <? y)%Z eqn:H1; [lia|]. destruct (y <? x)%Z eqn:H2; lia.
Qed.

(** What [sortDocuments] guarantees about the order of its output, for
    the first sort option of the query.  Whatever the values, no document
    that lacks the sort field comes before one that has it.  When every
    sort key present is an int, the output is sorted: ascending for
    ["asc"], descending for ["desc"], the documents without the field
    last. *)
Theorem sortDocuments_order (q : Query) (docs : list Document) (o : SortOption)
    (rest : list SortOption) :
  Sort (Options q) = o :: rest →
  let sorted := sortDocuments Sprintf_v q docs in
  (∀ p r dp dr, p < r → sorted !! p = Some dp → sorted !! r = Some dr →
     has_field (so_Field o) dr → has_field (so_Field o) dp)
  ∧ ((∀ d v, d ∈ docs → getNestedFieldValue (data_of d) (so_Field o) = inr v →
             ∃ n, v = VInt n) →
     ∀ p r dp dr, p < r → sorted !! p = Some dp → sorted !! r = Some dr →
       int_key_order (so_Field o) (so_Direction o) dp dr).
Proof.
  intros Hsort. cbv zeta. unfold sortDocuments. rewrite Hsort. split.
  - apply (sort_outer_settled Sprintf_v (so_Field o) (so_Direction o)
             (λ a b, has_field (so_Field o) b → has_field (so_Field o) a)
             (List.length docs - 1) 0 docs).
    + lia.
    + apply missing_last_follows.
    + intros p r x y Hp. lia.
  - intros Hint.
    apply (sort_outer_settled Sprintf_v (so_Field o) (so_Direction o)
             (int_key_order (so_Field o) (so_Direction o))
             (List.length docs - 1) 0 docs).
    + lia.
    + by apply int_keys_follow.
    + intros p r x y Hp. lia.
Qed.
End SortOrderProperties.

Lemma sortDocuments_order_witness :
  let sorted := sortDocuments (λ _, "") (by_age SortDescending 0 0)
                  [user "a" 2; member "m" "a@x"; user "b" 7; user "c" 2] in
  sorted = [user "b" 7; user "a" 2; user "c" 2; member "m" "a@x"]
  ∧ ∀ p r dp dr, p < r → sorted !! p = Some dp → sorted !! r = Some dr →
      int_key_order "age" SortDescending dp dr.
Proof.
  cbv zeta. split; [by vm_compute|].
  apply (proj2 (sortDocuments_order (λ _, "") (by_age SortDescending 0 0)
                  [user "a" 2; member "m" "a@x"; user "b" 7; user "c" 2]
                  {| so_Field := "age"; so_Direction := SortDescending |} [] eq_refl)).
  intros d v Hd Hv. apply list_elem_of_In in Hd. simpl in Hd.
  destruct Hd as [<-|[<-|[<-|[<-|[]]]]]; vm_compute in Hv;
    try discriminate Hv; injection Hv as <-; by eexists.
Defined.

(** * Further properties: files, backups *)

(** When the files are exactly the documents of the map, loading the
    files gives the map. *)
Lemma LoadAllDocuments_mirrored (pm : PersistenceManager) (docs : gmap string Document) :
  plain_dir pm →
  (∀ id d, docs !! id = Some d → ID d = id ∧ files pm !! (Collection d, id) = Some d) →
  (∀ collection id d, files pm !! (collection, id) = Some d → docs !! id = Some d) →
  PersistenceManager_LoadAllDocuments pm = docs.
Proof.
  intros Hplain Hdocs Hfiles. apply map_eq. intros i.
  destruct (PersistenceManager_LoadAllDocuments pm !! i) as [d|] eqn:Hload.
  - apply LoadAllDocuments_lookup in Hload as ([collection id] & Hfile & Hid).
    pose proof (Hfiles _ _ _ Hfile) as Hd.
    destruct (Hdocs _ _ Hd) as [Hid' _]. congruence.
  - destruct (docs !! i) as [d|] eqn:Hd; [|done].
    destruct (Hdocs _ _ Hd) as [Hid Hfile].
    destruct (Hplain _ _ Hfile) as [Hc Hi].
    pose proof (LoadAllDocuments_reads pm _ _ Hc Hi Hfile) as Hin.
    rewrite Hid, Hload in Hin. by destruct Hin.
Qed.

Lemma opened_empty_mirrored : mirrored opened_empty.
Proof. split; simpl; intros *; by rewrite lookup_empty. Qed.

Lemma run_op_mirrored (db db' : Database) (env : Env) (o : op) :
  mirrored db → persistenceEnabled db = true →
  (∀ collection data, o = OpCreate collection data →
                      documents db !! uuid_New env = None) →
  run_op db env o = (db', true) → mirrored db' ∧ persistenceEnabled db' = true.
Proof.
  intros [Hk Hs Hf] He Hfresh Hrun.
  destruct o as [collection data | id patch | id]; simpl in Hrun.
  - (* Create *)
    specialize (Hfresh collection data eq_refl).
    unfold Database_CreateDocument in Hrun. simpl in Hrun. rewrite He in Hrun.
    fold (created env collection data) in Hrun.
    unfold PersistenceManager_SaveDocument in Hrun.
    destruct (file_ok (disk env)); simpl in Hrun; [|by simplify_eq].
    injection Hrun as <-.
    match goal with |- mirrored (triggerEvent (if sync_active ?d then _ else _) ?ev) ∧ _ =>
      pose proof (notify_frame d env
        {| msg_Operation := OperationCreate;
           msg_Document := Some (created env collection data); msg_DocumentID := "" |} ev)
        as (H1 & H2 & H3) end.
    cbv zeta in H1, H2, H3. split; [|by rewrite H3].
    split; rewrite ?H1, ?H2; simpl.
    + intros id d [[<- <-]|[_ Hd]]%lookup_insert_Some; [done|by apply Hk].
    + intros id d [[<- <-]|[Hne Hd]]%lookup_insert_Some.
      * by rewrite lookup_insert_eq.
      * rewrite lookup_insert_ne by congruence. by apply Hs.
    + intros c id d [[[= <- <-] <-]|[Hne Hd]]%lookup_insert_Some.
      * by rewrite lookup_insert_eq.
      * destruct (Hf _ _ _ Hd) as [Hdoc Hc]. split; [|done].
        rewrite lookup_insert_ne; [done|]. intros <-. congruence.
  - (* Update *)
    unfold Database_UpdateDocument in Hrun.
    destruct (documents db !! id) as [doc|] eqn:Hdoc; [|by simplify_eq].
    destruct (maps_Copy (Data doc) patch) as [merged| |] eqn:Hcopy; [|by simplify_eq..].
    simpl in Hrun. rewrite He in Hrun.
    unfold PersistenceManager_UpdateDocument in Hrun. simpl in Hrun.
    destruct (files (persistence db) !! (Collection doc, ID doc)) as [on_disk|];
      [|by simplify_eq].
    destruct (file_ok (disk env)); simpl in Hrun; [|by simplify_eq].
    injection Hrun as <-.
    set (doc' := {| ID := ID doc; Collection := Collection doc; Data := merged;
                    CreatedAt := CreatedAt doc; UpdatedAt := time_Now env |}).
    match goal with |- mirrored (triggerEvent (if sync_active ?d then _ else _) ?ev) ∧ _ =>
      pose proof (notify_frame d env
        {| msg_Operation := OperationUpdate; msg_Document := Some doc';
           msg_DocumentID := "" |} ev) as (H1 & H2 & H3) end.
    cbv zeta in H1, H2, H3. split; [|by rewrite H3].
    assert (Hid : ID doc = id) by (by apply Hk).
    split; rewrite ?H1, ?H2; simpl; rewrite ?Hid.
    + intros i d [[<- <-]|[_ Hd]]%lookup_insert_Some; [done|by apply Hk].
    + intros i d [[<- <-]|[Hne Hd]]%lookup_insert_Some.
      * by rewrite lookup_insert_eq.
      * rewrite lookup_insert_ne by congruence. by apply Hs.
    + intros c i d [[[= <- <-] <-]|[Hne Hd]]%lookup_insert_Some.
      * by rewrite lookup_insert_eq.
      * destruct (Hf _ _ _ Hd) as [Hdoc' Hc]. split; [|done].
        rewrite lookup_insert_ne; [done|]. intros <-. congruence.
  - (* Delete *)
    unfold Database_DeleteDocument in Hrun.
    destruct (documents db !! id) as [doc|] eqn:Hdoc; [|by simplify_eq].
    simpl in Hrun. rewrite He in Hrun.
    unfold PersistenceManager_DeleteDocument in Hrun. simpl in Hrun.
    destruct (files (persistence db) !! (Collection doc, id)) as [on_disk|];
      [|by simplify_eq].
    destruct (file_ok (disk env)); simpl in Hrun; [|by simplify_eq].
    injection Hrun as <-.
    match goal with |- mirrored (triggerEvent (if sync_active ?d then _ else _) ?ev) ∧ _ =>
      pose proof (notify_frame d env
        {| msg_Operation := OperationDelete; msg_Document := None;
           msg_DocumentID := id |} ev) as (H1 & H2 & H3) end.
    cbv zeta in H1, H2, H3. split; [|by rewrite H3].
    split; rewrite ?H1, ?H2; simpl.
    + intros i d [_ Hd]%lookup_delete_Some. by apply Hk.
    + intros i d [Hne Hd]%lookup_delete_Some.
      rewrite lookup_delete_ne by congruence. by apply Hs.
    + intros c i d [Hne Hd]%lookup_delete_Some.
      destruct (Hf _ _ _ Hd) as [Hdoc' Hc]. split; [|done].
      rewrite lookup_delete_ne; [done|]. intros <-. congruence.
Qed.

(** A sequence of operations each of which draws an id that is not in
    the map. *)
Fixpoint fresh_ids (db : Database) (script : list (Env * op)) : Prop :=
  match script with
  | [] => True
  | (env, o) :: rest =>
      (∀ collection data, o = OpCreate collection data →
                          documents db !! uuid_New env = None)
      ∧ fresh_ids (run_op db env o).1 rest
  end.

Lemma run_ops_mirrored (script : list (Env * op)) : ∀ (db db' : Database),
  mirrored db → persistenceEnabled db = true → fresh_ids db script →
  run_ops db script = Some db' → mirrored db' ∧ persistenceEnabled db' = true.
Proof.
  induction script as [|[env o] rest IH]; intros db db' Hm He Hfresh Hrun; simpl in *.
  - by simplify_eq.
  - destruct Hfresh as [Hnew Hrest].
    destruct (run_op db env o) as [db1 ok] eqn:Hop. destruct ok; [|done].
    destruct (run_op_mirrored db db1 env o Hm He Hnew Hop) as [Hm1 He1].
    by apply (IH db1).
Qed.

(** From a store opened on an empty data directory, after any sequence
    of Create/Update/Delete operations that return without error, in
    which no Create draws an id already in use, every collection is a
    plain directory name and every id a plain file name, and the names
    and data are JSON-native, the document files are exactly the
    documents of the map, each under the name of its collection and id:
    loading the files gives the map, whether or not the log lines were
    written. *)
Theorem files_mirror_documents (db : Database) (script : list (Env * op)) :
  fresh_ids opened_empty script →
  Forall plain_step script → Forall json_step script →
  run_ops opened_empty script = Some db →
  mirrored db ∧ plain_store db ∧ native_store db
  ∧ PersistenceManager_LoadAllDocuments (persistence db) = documents db.
Proof.
  intros Hfresh Hplain Hjson Hrun.
  destruct (run_ops_mirrored script opened_empty db opened_empty_mirrored eq_refl
              Hfresh Hrun) as [Hm _].
  split; [done|].
  split; [by apply (run_ops_plain script opened_empty db opened_empty_plain)|].
  split; [by apply (run_ops_native script opened_empty db opened_empty_native)|].
  destruct Hm as [Hk Hs Hf].
  apply LoadAllDocuments_mirrored.
  - by apply (run_ops_plain script opened_empty db opened_empty_plain).
  - intros id d Hd. split; [by apply Hk | by apply Hs].
  - intros collection id d Hfile. by apply (Hf collection).
Qed.

(** The session of the restart example, with the log never written. *)
Definition session_without_log : list (Env * op) :=
  [ (env_at "u1" 1 true false, OpCreate "users" (Some {[ "name" := VString "Ana" ]}));
    (env_at "u2" 2 true false, OpCreate "users" (Some {[ "name" := VString "Luis" ]}));
    (env_at "" 3 true false, OpUpdate "u1" (Some {[ "city" := VString "Lima" ]}));
    (env_at "" 4 true false, OpDelete "u2") ].

Lemma session_without_log_fresh : fresh_ids opened_empty session_without_log.
Proof.
  simpl. repeat split; intros collection data Ho; try discriminate Ho; by vm_compute.
Qed.

Lemma session_without_log_plain : Forall plain_step session_without_log.
Proof. unfold session_without_log. repeat (apply Forall_cons; split); done. Qed.

Lemma session_without_log_native : Forall json_step session_without_log.
Proof.
  unfold session_without_log.
  repeat (apply Forall_cons; split); [..|by apply Forall_nil]; unfold json_step; simpl;
    repeat split; try reflexivity; by apply singleton_native.
Qed.

Lemma files_mirror_documents_witness :
  ∃ db, run_ops opened_empty session_without_log = Some db
    ∧ lines (transactionLog (persistence db)) = []
    ∧ PersistenceManager_LoadAllDocuments (persistence db) = documents db.
Proof.
  destruct (run_ops opened_empty session_without_log) as [db|] eqn:Hrun;
    [|by vm_compute in Hrun].
  exists db. split; [done|]. split.
  - vm_compute in Hrun. by injection Hrun as <-.
  - exact (proj2 (proj2 (proj2 (files_mirror_documents db session_without_log
                    session_without_log_fresh session_without_log_plain
                    session_without_log_native Hrun)))).
Defined.




(** * Further properties: the cache *)

(** The three structures of the cache describe the same entries: every
    item sits under its own key, the list holds each key of the map once,
    every key has a positive access count, and [TotalItems] is the number
    of entries. *)
Record cache_wf (c : Cache) : Prop := mkCacheWf {
  wf_keys : ∀ k item, items c !! k = Some item → ci_Key item = k;
  wf_list : ∀ k, k ∈ itemsList c ↔ is_Some (items c !! k);
  wf_nodup : NoDup (itemsList c);
  wf_counts : ∀ k, is_Some (accessCount c !! k) ↔ is_Some (items c !! k);
  wf_positive : ∀ k n, accessCount c !! k = Some n → (0 < n)%Z;
  wf_total : TotalItems (stats c) = Z.of_nat (size (items c))
}.

Definition known_policy (c : Cache) : Prop :=
  evictionPolicy c = EvictionPolicyLRU ∨ evictionPolicy c = EvictionPolicyFIFO
  ∨ evictionPolicy c = EvictionPolicyLFU.

(** ... and it holds no more than [maxSize] entries, when [maxSize] is
    positive. *)
Definition cache_ok (c : Cache) : Prop :=
  cache_wf c ∧ known_policy c
  ∧ ((0 < maxSize c)%Z → (Z.of_nat (size (items c)) ≤ maxSize c)%Z).

Lemma removeElement_wf (c : Cache) (key : string) :
  cache_wf c → is_Some (items c !! key) →
  cache_wf (removeElement c key)
  ∧ size (items (removeElement c key)) = pred (size (items c))
  ∧ size (items c) ≠ 0.
Proof.
  intros [Hk Hl Hn Hc Hp Ht] Hkey.
  assert (Hsize : size (items c) ≠ 0) by (by eapply map_size_ne_0_lookup_2).
  split; [|split; [by apply map_size_delete_Some | done]].
  split; simpl.
  - intros k item [_ Hitem]%lookup_delete_Some. by apply Hk.
  - intros k. rewrite list_elem_of_filter, lookup_delete_is_Some, Hl. naive_solver.
  - by apply NoDup_filter.
  - intros k. rewrite !lookup_delete_is_Some, Hc. done.
  - intros k n [_ Hn']%lookup_delete_Some. by eapply Hp.
  - rewrite map_size_delete_Some by done. rewrite Ht. lia.
Qed.

Lemma lfu_fold (l : list (string * Z)) : ∀ acc : string * Z,
  (∀ e, e ∈ l → (0 < e.2)%Z) → (acc.2 = (-1)%Z ∨ (0 < acc.2)%Z) →
  let r := foldl lfu_step acc l in
  (r = acc ∨ r ∈ l)
  ∧ (acc.2 = (-1)%Z → l ≠ [] → r ∈ l)
  ∧ (∀ e, e ∈ l → (r.2 ≤ e.2)%Z)
  ∧ (acc.2 ≠ (-1)%Z → (r.2 ≤ acc.2)%Z).
Proof.
  induction l as [|e l IH]; intros acc Hpos Hacc; simpl.
  - split; [by left|]. split; [done|]. split; [by intros e ?%elem_of_nil | lia].
  - assert (He : (0 < e.2)%Z) by (apply Hpos; by left).
    assert (Hstep : (lfu_step acc e = e ∧ (acc.2 = (-1)%Z ∨ (e.2 < acc.2)%Z))
                    ∨ (lfu_step acc e = acc ∧ acc.2 ≠ (-1)%Z ∧ (acc.2 ≤ e.2)%Z)).
    { unfold lfu_step. repeat case_bool_decide; simpl; [left|left|left|right]; split;
        try done; lia. }
    destruct Hstep as [[Heq Hwhy]|[Heq [Hne Hle]]]; rewrite Heq.
    + destruct (IH e) as (H1 & H2 & H3 & H4);
        [intros e' He'; apply Hpos; by right | by right |].
      cbv zeta in *. assert (Hr : ((foldl lfu_step e l).2 ≤ e.2)%Z) by (apply H4; lia).
      split; [|split; [|split]].
      * destruct H1 as [->|Hin]; [right; by left | right; by right].
      * intros _ _. destruct H1 as [->|Hin]; [by left | by right].
      * intros e' [->|He']%elem_of_cons; [done | by apply H3].
      * intros Hne. destruct Hwhy as [?|Hlt]; [done|]. lia.
    + destruct (IH acc) as (H1 & H2 & H3 & H4);
        [intros e' He'; apply Hpos; by right | done |].
      cbv zeta in *. specialize (H4 Hne).
      split; [|split; [|split]].
      * destruct H1 as [->|Hin]; [by left | right; by right].
      * intros Hminus. done.
      * intros e' [->|He']%elem_of_cons; [lia | by apply H3].
      * done.
Qed.

Lemma lfu_minKey_spec (counts : gmap string Z) :
  (∀ k n, counts !! k = Some n → (0 < n)%Z) → counts ≠ ∅ →
  ∃ n, counts !! lfu_minKey counts = Some n ∧ ∀ k m, counts !! k = Some m → (n ≤ m)%Z.
Proof.
  intros Hpos Hne. unfold lfu_minKey.
  destruct (lfu_fold (map_to_list counts) ("", (-1)%Z)) as (_ & Hin & Hmin & _).
  { intros [k n] Hkn%elem_of_map_to_list. by eapply Hpos. }
  { by left. }
  cbv zeta in *. specialize (Hin eq_refl).
  destruct (foldl lfu_step ("", (-1)%Z) (map_to_list counts)) as [k n] eqn:Hfold.
  exists n. split.
  - apply elem_of_map_to_list, Hin. by intros ?%map_to_list_empty_iff.
  - intros k' m Hk'. apply (Hmin (k', m)). by apply elem_of_map_to_list.
Qed.

(** The entry [evict] picks on a cache that is not empty: the back of
    the list under lru and fifo, a key of least count under lfu. *)
Lemma evict_element (c : Cache) :
  cache_wf c → known_policy c → size (items c) ≠ 0 →
  ∃ key,
    (if decide (evictionPolicy c = EvictionPolicyLRU) then last (itemsList c)
     else if decide (evictionPolicy c = EvictionPolicyFIFO) then last (itemsList c)
     else if decide (evictionPolicy c = EvictionPolicyLFU) then
       ci_Key <$> items c !! lfu_minKey (accessCount c)
     else None) = Some key
    ∧ is_Some (items c !! key)
    ∧ (evictionPolicy c ≠ EvictionPolicyLFU → last (itemsList c) = Some key)
    ∧ (evictionPolicy c = EvictionPolicyLFU →
       ∃ n, accessCount c !! key = Some n
            ∧ ∀ k m, accessCount c !! k = Some m → (n ≤ m)%Z).
Proof.
  intros Hwf Hpolicy Hsize. pose proof Hwf as [Hk Hl Hn Hc Hp Ht].
  assert (Hback : ∃ key, last (itemsList c) = Some key ∧ is_Some (items c !! key)).
  { apply map_size_ne_0_lookup_1 in Hsize as [k Hk'].
    destruct (last (itemsList c)) as [key|] eqn:Hlast.
    - exists key. split; [done|]. by apply Hl, last_Some_elem_of.
    - apply Hl in Hk'. apply last_None in Hlast. rewrite Hlast in Hk'.
      by apply elem_of_nil in Hk'. }
  destruct Hpolicy as [Hlru|[Hfifo|Hlfu]].
  - rewrite decide_True by done. destruct Hback as (key & Hlast & Hin).
    exists key. do 3 (split; [done|]). intros Hlfu. rewrite Hlru in Hlfu. done.
  - rewrite decide_False by (by rewrite Hfifo). rewrite decide_True by done.
    destruct Hback as (key & Hlast & Hin).
    exists key. do 3 (split; [done|]). intros Hlfu. rewrite Hfifo in Hlfu. done.
  - rewrite !decide_False by (by rewrite Hlfu). rewrite decide_True by done.
    destruct (lfu_minKey_spec (accessCount c) Hp) as (n & Hmin & Hleast).
    { intros Hempty. apply map_size_ne_0_lookup_1 in Hsize as [k Hk'].
      apply Hc in Hk'. rewrite Hempty, lookup_empty in Hk'. by destruct Hk'. }
    destruct (proj1 (Hc (lfu_minKey (accessCount c)))) as [item Hitem]; [by eexists|].
    exists (lfu_minKey (accessCount c)). rewrite Hitem. simpl.
    rewrite (Hk _ _ Hitem). split; [done|]. split; [by eexists|].
    split; [done|]. intros _. by exists n.
Qed.

(** [evict] on a cache that is not empty removes one entry. *)
Lemma evict_removes (c : Cache) :
  cache_wf c → known_policy c → size (items c) ≠ 0 →
  ∃ key, is_Some (items c !! key)
    ∧ items (evict c) = delete key (items c)
    ∧ cache_wf (evict c)
    ∧ maxSize (evict c) = maxSize c ∧ evictionPolicy (evict c) = evictionPolicy c
    ∧ (evictionPolicy c ≠ EvictionPolicyLFU → last (itemsList c) = Some key)
    ∧ (evictionPolicy c = EvictionPolicyLFU →
       ∃ n, accessCount c !! key = Some n
            ∧ ∀ k m, accessCount c !! k = Some m → (n ≤ m)%Z).
Proof.
  intros Hwf Hpolicy Hsize.
  destruct (evict_element c Hwf Hpolicy Hsize) as (key & Hel & Hin & Hlast & Hlfu).
  exists key. unfold evict. rewrite Hel.
  destruct (removeElement_wf c key Hwf Hin) as ([Hk' Hl' Hn' Hc' Hp' Ht'] & _ & _).
  split; [done|]. split; [done|]. split; [by split|]. done.
Qed.

Lemma MoveToFront_elem (key k : string) (l : list string) :
  k ∈ MoveToFront key l ↔ k = key ∨ k ∈ l.
Proof.
  unfold MoveToFront. rewrite elem_of_cons, list_elem_of_filter.
  destruct (decide (k = key)); naive_solver.
Qed.

Lemma MoveToFront_NoDup (key : string) (l : list string) :
  NoDup l → NoDup (MoveToFront key l).
Proof.
  intros Hl. apply NoDup_cons. split; [|by apply NoDup_filter].
  rewrite list_elem_of_filter. naive_solver.
Qed.

Lemma count_operation_ok (c : Cache) : cache_ok c → cache_ok (count_operation c).
Proof. intros ([Hk Hl Hn Hc Hp Ht] & Hpol & Hsize). split; [by split|]. by split. Qed.

Lemma Cache_Set_ok (c : Cache) (now : Z) (key : string) (v : value) (ttl : option Z) :
  cache_ok c → cache_ok (Cache_Set c now key v ttl).
Proof.
  intros (Hwf & Hpol & Hsize). pose proof Hwf as [Hk Hl Hn Hc Hp Ht].
  unfold Cache_Set. cbv zeta. apply count_operation_ok.
  set (item := {| ci_Key := key; ci_Value := v; ci_ExpiresAt := _ |}).
  destruct (items c !! key) as [old|] eqn:Hold.
  - split; [|split; [done|]]; simpl.
    + split; simpl.
      * intros k it [[<- <-]|[_ Hit]]%lookup_insert_Some; [done|by apply Hk].
      * intros k. rewrite MoveToFront_elem, lookup_insert_is_Some, Hl.
        destruct (decide (key = k)); naive_solver.
      * by apply MoveToFront_NoDup.
      * intros k. rewrite !lookup_insert_is_Some, Hc. done.
      * intros k n [[<- <-]|[_ Hn']]%lookup_insert_Some; [|by eapply Hp].
        destruct (accessCount c !! key) as [m|] eqn:Hm; simpl; [|lia].
        apply Hp in Hm. lia.
      * rewrite map_size_insert_Some by (by eexists). done.
    + rewrite map_size_insert_Some by (by eexists). done.
  - match goal with |- cache_ok (if _ then evict ?c1 else ?c1) => set (grown := c1) end.
    assert (Hgrown : cache_wf grown ∧ size (items grown) = S (size (items c))).
    { split; [|by apply map_size_insert_None]. split; simpl.
      - intros k it [[<- <-]|[_ Hit]]%lookup_insert_Some; [done|by apply Hk].
      - intros k. rewrite elem_of_cons, lookup_insert_is_Some, Hl.
        destruct (decide (key = k)); naive_solver.
      - apply NoDup_cons. split; [|done]. rewrite Hl, Hold. by intros [? ?].
      - intros k. rewrite !lookup_insert_is_Some, Hc. done.
      - intros k n [[<- <-]|[_ Hn']]%lookup_insert_Some; [lia|by eapply Hp].
      - rewrite map_size_insert_None by done. rewrite Ht. lia. }
    destruct Hgrown as [Hgwf Hgsize].
    destruct (bool_decide (0 < maxSize grown)%Z) eqn:Hmax; simpl.
    + apply bool_decide_eq_true in Hmax.
      case_bool_decide as Hfull.
      * destruct (evict_removes grown Hgwf Hpol) as (k & Hin & Hitems & Hewf & Hm & Hpe & _).
        { rewrite Hgsize. done. }
        split; [done|]. split; [unfold known_policy; by rewrite Hpe|].
        rewrite Hitems, Hm, map_size_delete_Some, Hgsize by done. simpl.
        intros _. apply Hsize. done.
      * split; [done|]. split; [done|]. intros _. by apply Z.nlt_ge.
    + split; [done|]. split; [done|]. intros Hpos.
      apply bool_decide_eq_false in Hmax. done.
Qed.

Lemma Cache_Get_ok (c : Cache) (now : Z) (key : string) :
  cache_ok c → cache_ok (Cache_Get c now key).1.
Proof.
  intros (Hwf & Hpol & Hsize). pose proof Hwf as [Hk Hl Hn Hc Hp Ht].
  unfold Cache_Get.
  destruct (items c !! key) as [item|] eqn:Hitem; [|split; [by split|by split]].
  destruct (IsExpired item now); simpl.
  - rewrite (Hk _ _ Hitem).
    destruct (removeElement_wf c key Hwf) as ([Hk' Hl' Hn' Hc' Hp' Ht'] & Hs & _);
      [by eexists|].
    split; [by split|]. split; [done|]. simpl in *. rewrite Hs. intros Hpos.
    specialize (Hsize Hpos). lia.
  - split; [|split; [done|done]]. split; simpl; try done.
    + intros k. case_decide; [|by apply Hl].
      rewrite MoveToFront_elem, Hl. split; [|naive_solver].
      intros [->|?]; [by eexists|done].
    + case_decide; [by apply MoveToFront_NoDup | done].
    + intros k. rewrite lookup_insert_is_Some, Hc. split.
      * intros [<-|[_ ?]]; [by eexists|done].
      * intros Hsome. destruct (decide (key = k)); [by left | by right].
    + intros k n [[<- <-]|[_ Hn']]%lookup_insert_Some; [|by eapply Hp].
      destruct (accessCount c !! key) as [m|] eqn:Hm; simpl; [|lia].
      apply Hp in Hm. lia.
Qed.

Lemma Cache_Delete_ok (c : Cache) (key : string) :
  cache_ok c → cache_ok (Cache_Delete c key).
Proof.
  intros (Hwf & Hpol & Hsize). pose proof Hwf as [Hk Hl Hn Hc Hp Ht].
  unfold Cache_Delete. apply count_operation_ok.
  destruct (items c !! key) as [item|] eqn:Hitem; [|done].
  rewrite (Hk _ _ Hitem).
  destruct (removeElement_wf c key Hwf) as (Hwf' & Hs & _); [by eexists|].
  split; [done|]. split; [done|]. simpl in *. rewrite Hs. intros Hpos.
  specialize (Hsize Hpos). lia.
Qed.

(** A cache operation: Set, Get or Delete at a certain time. *)
Inductive cache_op : Type :=
| CSet (now : Z) (key : string) (v : value) (ttl : option Z)
| CGet (now : Z) (key : string)
| CDelete (key : string).

Definition run_cache_op (c : Cache) (o : cache_op) : Cache :=
  match o with
  | CSet now key v ttl => Cache_Set c now key v ttl
  | CGet now key => (Cache_Get c now key).1
  | CDelete key => Cache_Delete c key
  end.

(** [Set] of a key the cache does not hold: the entry is added, and
    exactly when that takes the cache over a positive [maxSize] one entry
    is evicted. *)
Lemma Cache_Set_new (c : Cache) (now : Z) (key : string) (v : value) (ttl : option Z) :
  cache_wf c → known_policy c → items c !! key = None →
  let c' := Cache_Set c now key v ttl in
  ∃ item, ci_Key item = key ∧ ci_Value item = v
    ∧ ((maxSize c ≤ 0 ∨ Z.of_nat (size (items c)) < maxSize c)%Z →
       items c' = <[key := item]> (items c)
       ∧ accessCount c' = <[key := 1%Z]> (accessCount c)
       ∧ itemsList c' = key :: itemsList c
       ∧ Evictions (stats c') = Evictions (stats c))
    ∧ ((0 < maxSize c ≤ Z.of_nat (size (items c)))%Z →
       ∃ victim, is_Some (<[key := item]> (items c) !! victim)
         ∧ items c' = delete victim (<[key := item]> (items c))
         ∧ accessCount c' = delete victim (<[key := 1%Z]> (accessCount c))
         ∧ itemsList c' = filter (λ k, k ≠ victim) (key :: itemsList c)
         ∧ Evictions (stats c') = (Evictions (stats c) + 1)%Z
         ∧ (evictionPolicy c ≠ EvictionPolicyLFU → last (key :: itemsList c) = Some victim)
         ∧ (evictionPolicy c = EvictionPolicyLFU →
            ∃ n, <[key := 1%Z]> (accessCount c) !! victim = Some n
                 ∧ ∀ k m, <[key := 1%Z]> (accessCount c) !! k = Some m → (n ≤ m)%Z)).
Proof.
  intros Hwf Hpol Hold. pose proof Hwf as [Hk Hl Hn Hc Hp Ht].
  cbv zeta. unfold Cache_Set. cbv zeta. rewrite Hold.
  match goal with |- context [ <[key := ?it]> (items c) ] => set (item := it) end.
  exists item. split; [done|]. split; [done|].
  match goal with |- context [ if _ then evict ?c1 else ?c1 ] => set (grown := c1) end.
  assert (Hgwf : cache_wf grown).
  { split; simpl.
    - intros k it [[<- <-]|[_ Hit]]%lookup_insert_Some; [done|by apply Hk].
    - intros k. rewrite elem_of_cons, lookup_insert_is_Some, Hl.
      destruct (decide (key = k)); naive_solver.
    - apply NoDup_cons. split; [|done]. rewrite Hl, Hold. by intros [? ?].
    - intros k. rewrite !lookup_insert_is_Some, Hc. done.
    - intros k n [[<- <-]|[_ Hn']]%lookup_insert_Some; [lia|by eapply Hp].
    - rewrite map_size_insert_None by done. rewrite Ht. lia. }
  assert (Hgsize : size (items grown) = S (size (items c)))
    by (by apply map_size_insert_None).
  split.
  - intros Hroom.
    assert (Hno : bool_decide (0 < maxSize grown)%Z
                  && bool_decide (maxSize grown < Z.of_nat (size (items grown)))%Z = false).
    { rewrite Hgsize. simpl. apply andb_false_iff.
      destruct Hroom as [Hle|Hlt]; [left|right]; apply bool_decide_eq_false; lia. }
    rewrite Hno. done.
  - intros Hfull.
    assert (Hyes : bool_decide (0 < maxSize grown)%Z
                   && bool_decide (maxSize grown < Z.of_nat (size (items grown)))%Z = true).
    { rewrite Hgsize. simpl. apply andb_true_iff.
      split; apply bool_decide_eq_true; lia. }
    rewrite Hyes.
    destruct (evict_element grown Hgwf Hpol) as (victim & Hel & Hin & Hlast & Hlfu).
    { by rewrite Hgsize. }
    exists victim. unfold evict. rewrite Hel. simpl.
    split; [done|]. do 4 (split; [done|]). split; [exact Hlast | exact Hlfu].
Qed.

(** A new cache configured with a positive maximum size and one of the
    policies lru, fifo and lfu never holds more than [maxSize] entries,
    whatever sequence of Set, Get and Delete is run on it.  Its three
    structures keep describing the same entries: the list holds each key
    of the map once, the access counts are kept for exactly the keys of
    the map and are positive, and [TotalItems] stays the number of
    entries.  A Set of a key it does not hold adds the entry and evicts
    nothing while there is room; on a full cache it adds the entry and
    evicts exactly one, from the map, the list and the counts alike: the
    back of the list under lru and fifo, a key of least count under lfu
    (which can be the new key itself). *)
Theorem cache_within_maxSize (size : Z) (policy : string) (script : list cache_op) :
  (0 < size)%Z →
  policy = EvictionPolicyLRU ∨ policy = EvictionPolicyFIFO ∨ policy = EvictionPolicyLFU →
  let c := foldl run_cache_op (WithEvictionPolicy policy (WithMaxSize size NewCache)) script in
  (Z.of_nat (Cache_Size c) ≤ size)%Z
  ∧ maxSize c = size
  ∧ TotalItems (stats c) = Z.of_nat (Cache_Size c)
  ∧ (∀ k, k ∈ itemsList c ↔ is_Some (items c !! k))
  ∧ NoDup (itemsList c)
  ∧ (∀ k, is_Some (accessCount c !! k) ↔ is_Some (items c !! k))
  ∧ (∀ k n, accessCount c !! k = Some n → (0 < n)%Z)
  ∧ ∀ now key v ttl, items c !! key = None →
      let c' := Cache_Set c now key v ttl in
      ∃ item, ci_Key item = key ∧ ci_Value item = v
        ∧ ((Z.of_nat (Cache_Size c) < size)%Z →
           items c' = <[key := item]> (items c)
           ∧ accessCount c' = <[key := 1%Z]> (accessCount c)
           ∧ itemsList c' = key :: itemsList c
           ∧ Evictions (stats c') = Evictions (stats c))
        ∧ (Z.of_nat (Cache_Size c) = size →
           ∃ victim, is_Some (<[key := item]> (items c) !! victim)
             ∧ items c' = delete victim (<[key := item]> (items c))
             ∧ accessCount c' = delete victim (<[key := 1%Z]> (accessCount c))
             ∧ itemsList c' = filter (λ k, k ≠ victim) (key :: itemsList c)
             ∧ Cache_Size c' = Cache_Size c
             ∧ Evictions (stats c') = (Evictions (stats c) + 1)%Z
             ∧ (policy ≠ EvictionPolicyLFU → last (itemsList c) = Some victim)
             ∧ (policy = EvictionPolicyLFU →
                ∃ n, <[key := 1%Z]> (accessCount c) !! victim = Some n
                     ∧ ∀ k m, <[key := 1%Z]> (accessCount c) !! k = Some m → (n ≤ m)%Z)).
Proof.
  intros Hsize Hpolicy. cbv zeta.
  assert (Hfold : ∀ c, cache_ok c → maxSize c = size → evictionPolicy c = policy →
            cache_ok (foldl run_cache_op c script)
            ∧ maxSize (foldl run_cache_op c script) = size
            ∧ evictionPolicy (foldl run_cache_op c script) = policy).
  { induction script as [|o rest IH]; intros c Hok Hmax Hpol; simpl; [done|].
    apply IH.
    - destruct o; simpl; auto using Cache_Set_ok, Cache_Get_ok, Cache_Delete_ok.
    - destruct o as [now key v ttl|now key|key]; simpl.
      + unfold Cache_Set. simpl.
        destruct (items c !! key); simpl; [done|].
        destruct (_ && _); [|done].
        unfold evict. by destruct (if decide _ then _ else _).
      + unfold Cache_Get. destruct (items c !! key) as [item|]; [|done].
        by destruct (IsExpired item now).
      + unfold Cache_Delete. by destruct (items c !! key).
    - destruct o as [now key v ttl|now key|key]; simpl.
      + unfold Cache_Set. simpl.
        destruct (items c !! key); simpl; [done|].
        destruct (_ && _); [|done].
        unfold evict. by destruct (if decide _ then _ else _).
      + unfold Cache_Get. destruct (items c !! key) as [item|]; [|done].
        by destruct (IsExpired item now).
      + unfold Cache_Delete. by destruct (items c !! key). }
  destruct (Hfold (WithEvictionPolicy policy (WithMaxSize size NewCache)))
    as ((Hwf & Hknown & Hcap) & Hmax & Hpol); [|done|done|].
  - split; [|split; [done|]].
    + split; simpl; try done.
      * intros k. rewrite lookup_empty. split; [by intros ?%elem_of_nil | by intros [? ?]].
      * constructor.
      * intros k. by rewrite !lookup_empty.
    + simpl. rewrite map_size_empty. lia.
  - set (c := foldl run_cache_op _ script) in *.
    pose proof Hwf as [Hk Hl Hn Hc Hp Ht].
    unfold Cache_Size. rewrite Hmax in Hcap.
    split; [apply Hcap; lia|]. do 6 (split; [done|]).
    intros now key v ttl Hnew.
    destruct (Cache_Set_new c now key v ttl Hwf Hknown Hnew)
      as (item & Hkey & Hval & Hroom & Hfull).
    cbv zeta in Hroom, Hfull. rewrite Hmax, Hpol in *.
    exists item. do 2 (split; [done|]). split.
    + intros Hlt. apply Hroom. by right.
    + intros Heq. destruct Hfull as (victim & Hin & Hitems & Hcounts & Hlist & Hev & Hlast & Hlfu);
        [lia|].
      exists victim. do 4 (split; [done|]).
      split; [|split; [done|split; [|done]]].
      * rewrite Hitems, map_size_delete_Some, map_size_insert_None by done. done.
      * intros Hne. specialize (Hlast Hne). rewrite last_cons in Hlast.
        destruct (last (itemsList c)) as [back|] eqn:Hback; [done|].
        apply last_None in Hback.
        assert (Hpos : Cache_Size c ≠ 0) by (unfold Cache_Size; lia).
        unfold Cache_Size in Hpos.
        apply map_size_ne_0_lookup_1 in Hpos as [k Hk'].
        apply Hl in Hk'. rewrite Hback in Hk'. by apply elem_of_nil in Hk'.
Qed.

Lemma Cache_Get_result (c : Cache) (now : Z) (key : string) :
  (Cache_Get c now key).2 =
    match items c !! key with
    | Some item => if IsExpired item now then None else Some (ci_Value item)
    | None => None
    end.
Proof.
  unfold Cache_Get. destruct (items c !! key) as [item|]; [|done].
  by destruct (IsExpired item now).
Qed.

(** [Set] followed by [Get] of the same key.  Under the policies lru and
    fifo the entry just set is in the cache with the value given, expires
    at [now + ttl] when a positive [ttl] is given, and [Get] returns the
    value until it has expired, even when the cache was full: the entry
    evicted is another one.  Under lfu, setting a key that is new in a
    full cache whose entries all have an access count above one evicts
    the new entry itself: the cache holds what it held before and [Get]
    of the key misses. *)
Theorem Set_then_Get (c : Cache) (now now' : Z) (key : string) (v : value)
    (ttl : option Z) :
  cache_ok c →
  let c1 := Cache_Set c now key v ttl in
  (evictionPolicy c ≠ EvictionPolicyLFU →
   ∃ item, items c1 !! key = Some item ∧ ci_Value item = v
     ∧ (∀ t, ttl = Some t → (0 < t)%Z → ci_ExpiresAt item = (now + t)%Z)
     ∧ (Cache_Get c1 now' key).2 = if IsExpired item now' then None else Some v)
  ∧ (evictionPolicy c = EvictionPolicyLFU → items c !! key = None →
     (0 < maxSize c)%Z → Z.of_nat (size (items c)) = maxSize c →
     (∀ k n, accessCount c !! k = Some n → (1 < n)%Z) →
     items c1 = items c ∧ (Cache_Get c1 now' key).2 = None).
Proof.
  intros (Hwf & Hpol & Hsize). pose proof Hwf as [Hk Hl Hn Hc Hp Ht]. cbv zeta.
  rewrite Cache_Get_result. unfold Cache_Set. cbv zeta.
  set (item := {| ci_Key := key; ci_Value := v; ci_ExpiresAt := _ |}).
  assert (Hexp : ∀ t, ttl = Some t → (0 < t)%Z → ci_ExpiresAt item = (now + t)%Z).
  { intros t -> Ht'. simpl. by rewrite bool_decide_eq_true_2. }
  destruct (items c !! key) as [old|] eqn:Hold.
  - split; [|done]. intros _. exists item. simpl. rewrite lookup_insert_eq. done.
  - match goal with |- context [if _ then evict ?c1 else ?c1] => set (grown := c1) end.
    assert (Hgwf : cache_wf grown).
    { split; simpl.
      - intros k it [[<- <-]|[_ Hit]]%lookup_insert_Some; [done|by apply Hk].
      - intros k. rewrite elem_of_cons, lookup_insert_is_Some, Hl.
        destruct (decide (key = k)); naive_solver.
      - apply NoDup_cons. split; [|done]. rewrite Hl, Hold. by intros [? ?].
      - intros k. rewrite !lookup_insert_is_Some, Hc. done.
      - intros k n [[<- <-]|[_ Hn']]%lookup_insert_Some; [lia|by eapply Hp].
      - rewrite map_size_insert_None by done. rewrite Ht. lia. }
    assert (Hgsize : size (items grown) = S (size (items c)))
      by (by apply map_size_insert_None).
    split.
    + intros Hnot. exists item.
      destruct (bool_decide (0 < maxSize grown)%Z
                && bool_decide (maxSize grown < Z.of_nat (size (items grown)))%Z) eqn:Hfull;
        simpl; [|by rewrite lookup_insert_eq].
      apply andb_true_iff in Hfull as [Hmax Hover].
      apply bool_decide_eq_true in Hmax, Hover.
      destruct (evict_removes grown Hgwf Hpol) as (k & Hin & -> & _ & _ & _ & Hlast & _);
        [by rewrite Hgsize|].
      specialize (Hlast Hnot). simpl in Hlast.
      assert (Hne : k ≠ key).
      { destruct (itemsList c) as [|k0 l] eqn:Hlist.
        - assert (Hempty : size (items c) = 0).
          { destruct (size (items c)) eqn:Hs; [done|].
            destruct (map_size_ne_0_lookup_1 (items c)) as [k' Hk']; [by rewrite Hs|].
            apply Hl in Hk'. by apply elem_of_nil in Hk'. }
          rewrite Hgsize, Hempty in Hover. simpl in Hmax, Hover. lia.
        - assert (Hk0 : k ∈ k0 :: l).
          { apply last_Some_elem_of. by rewrite last_cons_cons in Hlast. }
          apply Hl in Hk0. intros ->.
          rewrite Hold in Hk0. by destruct Hk0. }
      simpl. rewrite lookup_delete_ne, lookup_insert_eq by done. done.
    + intros Hlfu _ Hmax Hfull Hbusy.
      rewrite (bool_decide_eq_true_2 (0 < maxSize grown)%Z) by done.
      rewrite (bool_decide_eq_true_2 (maxSize grown < Z.of_nat (size (items grown)))%Z)
        by (rewrite Hgsize; simpl; lia).
      simpl.
      destruct (evict_removes grown Hgwf Hpol) as (k & Hin & -> & _ & _ & _ & _ & Hleast);
        [by rewrite Hgsize|].
      destruct (Hleast Hlfu) as (n & Hn' & Hmin). simpl in Hn', Hmin.
      assert (k = key) as ->.
      { destruct (decide (k = key)) as [|Hne]; [done|].
        rewrite lookup_insert_ne in Hn' by done.
        specialize (Hmin key 1%Z). rewrite lookup_insert_eq in Hmin.
        specialize (Hmin eq_refl). apply Hbusy in Hn'. lia. }
      simpl. rewrite delete_insert_id by done. by rewrite Hold.
Qed.

(** A cache of at most two entries that holds [a] and [b], each read
    once since it was set. *)
Definition two_entries (policy : string) : Cache :=
  foldl run_cache_op (WithEvictionPolicy policy (WithMaxSize 2 NewCache))
    [ CSet 0 "a" (VInt 1) None; CSet 0 "b" (VInt 2) None; CGet 1 "a"; CGet 1 "b" ].

Lemma two_entries_ok (policy : string) :
  policy = EvictionPolicyLRU ∨ policy = EvictionPolicyFIFO ∨ policy = EvictionPolicyLFU →
  cache_ok (two_entries policy).
Proof.
  intros Hpolicy. unfold two_entries. simpl.
  apply Cache_Get_ok, Cache_Get_ok, Cache_Set_ok, Cache_Set_ok.
  split; [|split; [done|]].
  - split; simpl; try done.
    + intros k. rewrite lookup_empty. split; [by intros ?%elem_of_nil | by intros [? ?]].
    + constructor.
    + intros k. by rewrite !lookup_empty.
  - simpl. rewrite map_size_empty. lia.
Qed.

Lemma Set_then_Get_witness :
  (Cache_Get (Cache_Set (two_entries EvictionPolicyLRU) 2 "c" (VInt 3) (Some 10%Z)) 5 "c").2
  = Some (VInt 3)
  ∧ (Cache_Get (Cache_Set (two_entries EvictionPolicyLFU) 2 "c" (VInt 3) (Some 10%Z)) 5 "c").2
    = None.
Proof.
  split.
  - destruct (proj1 (Set_then_Get (two_entries EvictionPolicyLRU) 2 5 "c" (VInt 3)
                       (Some 10%Z) (two_entries_ok _ ltac:(by left))) ltac:(done))
      as (item & _ & _ & Hexp & ->).
    unfold IsExpired. rewrite (Hexp 10%Z eq_refl ltac:(lia)). by vm_compute.
  - apply (proj2 (Set_then_Get (two_entries EvictionPolicyLFU) 2 5 "c" (VInt 3)
                    (Some 10%Z) (two_entries_ok _ ltac:(by right; right)))).
    + done.
    + by vm_compute.
    + by vm_compute.
    + by vm_compute.
    + intros k n Hkn.
      assert (Hcounts : accessCount (two_entries EvictionPolicyLFU)
                        = {[ "a" := 2%Z; "b" := 2%Z ]}) by (by vm_compute).
      rewrite Hcounts in Hkn.
      apply lookup_insert_Some in Hkn as [[_ <-]|[_ [_ <-]%lookup_singleton_Some]]; lia.
Defined.

Lemma cache_within_maxSize_witness :
  let c := foldl run_cache_op (WithEvictionPolicy EvictionPolicyFIFO (WithMaxSize 2 NewCache))
             [ CSet 0 "a" (VInt 1) None; CSet 0 "b" (VInt 2) None; CGet 1 "a" ] in
  (Z.of_nat (Cache_Size c) ≤ 2)%Z
  ∧ items c !! "c" = None
  ∧ ∃ item, ci_Value item = VInt 3
      ∧ items (Cache_Set c 2 "c" (VInt 3) None) = delete "a" (<["c" := item]> (items c))
      ∧ accessCount (Cache_Set c 2 "c" (VInt 3) None)
        = delete "a" (<["c" := 1%Z]> (accessCount c))
      ∧ itemsList (Cache_Set c 2 "c" (VInt 3) None) = ["c"; "b"].
Proof.
  cbv zeta.
  destruct (cache_within_maxSize 2 EvictionPolicyFIFO
              [ CSet 0 "a" (VInt 1) None; CSet 0 "b" (VInt 2) None; CGet 1 "a" ])
    as (Hsize & _ & _ & _ & _ & _ & _ & Hset); [lia | by right; left |].
  split; [exact Hsize|].
  assert (Hnew : items (foldl run_cache_op
                          (WithEvictionPolicy EvictionPolicyFIFO (WithMaxSize 2 NewCache))
                          [ CSet 0 "a" (VInt 1) None; CSet 0 "b" (VInt 2) None; CGet 1 "a" ])
                 !! "c" = None) by (by vm_compute).
  split; [exact Hnew|].
  destruct (Hset 2%Z "c" (VInt 3) None Hnew) as (item & _ & Hval & _ & Hfull).
  destruct Hfull as (victim & _ & Hitems & Hcounts & Hlist & _ & _ & Hlast & _);
    [by vm_compute|].
  assert (victim = "a") as ->.
  { specialize (Hlast ltac:(discriminate)). vm_compute in Hlast. by injection Hlast. }
  exists item. split; [exact Hval|]. split; [exact Hitems|]. split; [exact Hcounts|].
  rewrite Hlist. by vm_compute.
Defined.
